(** * go-argon: Argon2 password hashes in PHC string format

    A shallow embedding of [argon.go] (package [argon]) together with the
    parts of the Go standard library it calls: [strings.Split],
    [fmt.Sscanf] / [fmt.Sprintf] for the verb [%d], [encoding/base64]'s
    [RawStdEncoding] and [crypto/subtle.ConstantTimeCompare].

    Conventions.
    - A Go [string] is a [string] of Rocq (a sequence of bytes, one [ascii]
      per byte); a [[]byte] is a [list ascii].
    - Go's fixed-width integers are [Z] with the wrap-around written out.
    - The two key-derivation functions of [golang.org/x/crypto/argon2] and
      the reader of [crypto/rand] are parameters of the development.
    - [int] is 64 bits wide (the [amd64] and [arm64] targets), and inputs
      are shorter than the 2^30 runes after which [fmt] stops reading. *)

From Stdlib Require Import ZArith Lia Bool List String Ascii.
Import ListNotations.
Local Open Scope Z_scope.

(** ** Bytes and results *)

Definition byte := ascii.

Definition byte_val (b : byte) : Z := Z.of_N (N_of_ascii b).

(** [byte(z)]: conversion to [uint8] keeps the low eight bits. *)
Definition byte_of (z : Z) : byte := ascii_of_N (Z.to_N (z mod 256)).

Inductive res (E A : Type) : Type :=
| Ok (a : A)
| Fail (e : E).
Arguments Ok {E A} a.
Arguments Fail {E A} e.

Definition bind {E A B} (m : res E A) (k : A -> res E B) : res E B :=
  match m with
  | Ok a => k a
  | Fail e => Fail e
  end.

Notation "x <- m ;; k" := (bind m (fun x => k))
  (at level 61, m at next level, right associativity).
Notation "' p <- m ;; k" := (bind m (fun x => let p := x in k))
  (at level 61, p pattern, m at next level, right associativity).

Definition is_ok {E A} (m : res E A) : bool :=
  match m with Ok _ => true | Fail _ => false end.

(** ** unicode/utf8: decoding one rune *)

Module utf8.

Definition RuneError : Z := 0xFFFD.

Definition maskx : Z := 0x3F.
Definition mask2 : Z := 0x1F.
Definition mask3 : Z := 0x0F.
Definition mask4 : Z := 0x07.

Definition locb : Z := 0x80.
Definition hicb : Z := 0xBF.

(** The information byte of each possible first byte: the table [first]. *)
Definition xx : Z := 0xF1.
Definition as_ : Z := 0xF0.
Definition s1 : Z := 0x02.
Definition s2 : Z := 0x13.
Definition s3 : Z := 0x03.
Definition s4 : Z := 0x23.
Definition s5 : Z := 0x34.
Definition s6 : Z := 0x04.
Definition s7 : Z := 0x44.

Definition first (b : Z) : Z :=
  if b <? 0x80 then as_
  else if b <? 0xC2 then xx
  else if b <? 0xE0 then s1
  else if b =? 0xE0 then s2
  else if b <? 0xED then s3
  else if b =? 0xED then s4
  else if b <? 0xF0 then s3
  else if b =? 0xF0 then s5
  else if b <? 0xF4 then s6
  else if b =? 0xF4 then s7
  else xx.

Definition acceptRanges (i : Z) : Z * Z :=
  if i =? 0 then (locb, hicb)
  else if i =? 1 then (0xA0, hicb)
  else if i =? 2 then (locb, 0x9F)
  else if i =? 3 then (0x90, hicb)
  else if i =? 4 then (locb, 0x8F)
  else (0, 0).

(** [DecodeRuneInString]: the rune at the head of [s] and its width in
    bytes; an invalid encoding gives [(RuneError, 1)]. *)
Definition DecodeRuneInString (s : string) : Z * nat :=
  match s with
  | EmptyString => (RuneError, 0%nat)
  | String c0 t0 =>
    let b0 := byte_val c0 in
    let x := first b0 in
    if as_ <=? x then
      ((if Z.testbit x 0 then RuneError else b0), 1%nat)
    else
      let sz := Z.land x 7 in
      let '(lo, hi) := acceptRanges (Z.shiftr x 4) in
      if Z.of_nat (String.length s) <? sz then (RuneError, 1%nat)
      else
        match t0 with
        | EmptyString => (RuneError, 1%nat)
        | String c1 t1 =>
          let b1 := byte_val c1 in
          if (b1 <? lo) || (hi <? b1) then (RuneError, 1%nat)
          else if sz <=? 2 then
            (Z.lor (Z.shiftl (Z.land b0 mask2) 6) (Z.land b1 maskx), 2%nat)
          else
            match t1 with
            | EmptyString => (RuneError, 1%nat)
            | String c2 t2 =>
              let b2 := byte_val c2 in
              if (b2 <? locb) || (hicb <? b2) then (RuneError, 1%nat)
              else if sz <=? 3 then
                (Z.lor (Z.lor (Z.shiftl (Z.land b0 mask3) 12)
                              (Z.shiftl (Z.land b1 maskx) 6))
                       (Z.land b2 maskx), 3%nat)
              else
                match t2 with
                | EmptyString => (RuneError, 1%nat)
                | String c3 _ =>
                  let b3 := byte_val c3 in
                  if (b3 <? locb) || (hicb <? b3) then (RuneError, 1%nat)
                  else
                    (Z.lor (Z.lor (Z.lor (Z.shiftl (Z.land b0 mask4) 18)
                                         (Z.shiftl (Z.land b1 maskx) 12))
                                  (Z.shiftl (Z.land b2 maskx) 6))
                           (Z.land b3 maskx), 4%nat)
                end
            end
        end
  end.

(** The runes of a string, as a rune reader delivers them one after the
    other: after a rune of width [n], the next [n - 1] bytes are skipped. *)
Fixpoint runes_from (skip : nat) (s : string) : list Z :=
  match s with
  | EmptyString => []
  | String _ s' =>
    match skip with
    | S k => runes_from k s'
    | O => let '(r, size) := DecodeRuneInString s in
           r :: runes_from (size - 1) s'
    end
  end.

Definition runes (s : string) : list Z := runes_from 0 s.

End utf8.

(** ** strings.Split, for a separator of one byte *)

Module strings.

(** [Split s sep] cuts [s] at every occurrence of the byte [sep]; a string
    with [n] separators gives [n + 1] pieces, the empty string gives one
    empty piece. *)
Fixpoint Split (s : string) (sep : byte) : list string :=
  match s with
  | EmptyString => [EmptyString]
  | String c s' =>
    if Ascii.eqb c sep then EmptyString :: Split s' sep
    else
      match Split s' sep with
      | [] => [String c EmptyString]
      | piece :: pieces => String c piece :: pieces
      end
  end.

(** [Count s sep]: the number of occurrences of the byte [sep]. *)
Fixpoint Count (s : string) (sep : byte) : nat :=
  match s with
  | EmptyString => 0%nat
  | String c s' => ((if Ascii.eqb c sep then 1 else 0) + Count s' sep)%nat
  end.

End strings.

(** ** strconv: decimal numerals *)

Module strconv.

Inductive NumError : Type := ErrSyntax | ErrRange.

Definition maxUint64 : Z := 2 ^ 64 - 1.

(** The loop of [ParseUint] for base 10 and [bitSize] 64, over the bytes of
    the numeral: [n] is the value read so far. *)
Fixpoint ParseUint_loop (s : list Z) (n : Z) : res NumError Z :=
  match s with
  | [] => Ok n
  | c :: s' =>
    if (48 <=? c) && (c <=? 57) then
      let d := c - 48 in
      let cutoff := maxUint64 / 10 + 1 in
      if cutoff <=? n then Fail ErrRange
      else
        let n10 := n * 10 in
        let n1 := (n10 + d) mod 2 ^ 64 in
        if (n1 <? n10) || (maxUint64 <? n1) then Fail ErrRange
        else ParseUint_loop s' n1
    else Fail ErrSyntax
  end.

Definition ParseUint (s : list Z) : res NumError Z :=
  match s with
  | [] => Fail ErrSyntax
  | _ => ParseUint_loop s 0
  end.

(** [ParseInt] for base 10 and [bitSize] 64: an optional sign, then the
    magnitude through [ParseUint], checked against the range of [int64]. *)
Definition ParseInt (s : list Z) : res NumError Z :=
  match s with
  | [] => Fail ErrSyntax
  | c :: s' =>
    let neg := c =? 45 in
    let digits := if (c =? 43) || (c =? 45) then s' else s in
    match ParseUint digits with
    | Fail e => Fail e
    | Ok un =>
      let cutoff := 2 ^ 63 in
      if negb neg && (cutoff <=? un) then Fail ErrRange
      else if neg && (cutoff <? un) then Fail ErrRange
      else Ok (if neg then - un else un)
    end
  end.

(** The digit loop of [fmt]'s integer formatting in base 10, writing from
    the right: [acc] holds the digits already written. Twenty rounds cover
    every 64-bit value. *)
Fixpoint fmtInteger_loop (fuel : nat) (u : Z) (acc : string) : string :=
  match fuel with
  | O => acc
  | S fuel' =>
    if 10 <=? u then
      let next := u / 10 in
      fmtInteger_loop fuel' next (String (byte_of (48 + u - next * 10)) acc)
    else String (byte_of (48 + u)) acc
  end.

(** [%d] of a value that is not negative. *)
Definition fmt_d (u : Z) : string := fmtInteger_loop 20 u EmptyString.

End strconv.

(** ** fmt: scanning with a format ([Sscanf]) and printing ([Sprintf]) *)

Module fmt.

Definition rune := Z.

(** The errors a scan stops with. *)
Inductive scanError : Type :=
| EOF
| ErrUnexpectedEOF
| InputDoesNotMatchFormat
| UnexpectedNewline
| ExpectedInteger
| ParseError (e : strconv.NumError)
| IntegerOverflow
| UnsignedIntegerOverflow
| TooFewOperands
| TooManyOperands
| BadVerb.

(** The scan state [ss]: the runes not yet read and the token buffer.
    Un-reading a rune is keeping the state from before it was read. *)
Record ss : Type := mkss { input : list rune; buf : list rune }.

(** [Sscanf] scans with [nlIsSpace] off: a newline is not a space. *)
Definition nlIsSpace : bool := false.

Definition space : list (Z * Z) :=
  [ (0x0009, 0x000d); (0x0020, 0x0020); (0x0085, 0x0085); (0x00a0, 0x00a0);
    (0x1680, 0x1680); (0x2000, 0x200a); (0x2028, 0x2029); (0x202f, 0x202f);
    (0x205f, 0x205f); (0x3000, 0x3000) ].

Fixpoint isSpace_loop (table : list (Z * Z)) (rx : Z) : bool :=
  match table with
  | [] => false
  | (lo, hi) :: table' =>
    if rx <? lo then false
    else if rx <=? hi then true
    else isSpace_loop table' rx
  end.

Definition isSpace (r : rune) : bool :=
  if 2 ^ 16 <=? r then false else isSpace_loop space r.

(** [indexRune ok r >= 0] *)
Definition indexRune (ok : list rune) (r : rune) : bool := existsb (Z.eqb r) ok.

Definition sign : list rune := [43; 45].
Definition decimalDigits : list rune := [48; 49; 50; 51; 52; 53; 54; 55; 56; 57].

Definition peek (ok : list rune) (rs : list rune) : bool :=
  match rs with
  | [] => false
  | r :: _ => indexRune ok r
  end.

(** [SkipSpace]: skips spaces up to the first rune that is not one; a
    newline stops the scan with an error. *)
Fixpoint SkipSpace_loop (rs : list rune) : res scanError (list rune) :=
  match rs with
  | [] => Ok []
  | r :: rest =>
    if (r =? 13) && peek [10] rest then SkipSpace_loop rest
    else if r =? 10 then
      if nlIsSpace then SkipSpace_loop rest else Fail UnexpectedNewline
    else if negb (isSpace r) then Ok rs
    else SkipSpace_loop rest
  end.

Definition SkipSpace (s : ss) : res scanError ss :=
  rs <- SkipSpace_loop (input s) ;; Ok (mkss rs (buf s)).

Definition notEOF (s : ss) : res scanError unit :=
  match input s with
  | [] => Fail EOF
  | _ :: _ => Ok tt
  end.

(** [accept ok]: when the next rune is one of [ok], it moves to the token
    buffer. *)
Definition accept (ok : list rune) (s : ss) : bool * ss :=
  match input s with
  | [] => (false, s)
  | r :: rest =>
    if indexRune ok r then (true, mkss rest (buf s ++ [r])) else (false, s)
  end.

(** [for s.accept(ok) {}] *)
Fixpoint accept_loop (ok : list rune) (rs : list rune) (b : list rune) : ss :=
  match rs with
  | [] => mkss [] b
  | r :: rest =>
    if indexRune ok r then accept_loop ok rest (b ++ [r]) else mkss rs b
  end.

Definition scanNumber (digits : list rune) (s : ss)
  : res scanError (list rune * ss) :=
  _ <- notEOF s ;;
  let '(found, s) := accept digits s in
  if negb found then Fail ExpectedInteger
  else
    let s := accept_loop digits (input s) (buf s) in
    Ok (buf s, s).

(** [int64(z)] *)
Definition wrap_int64 (z : Z) : Z := (z + 2 ^ 63) mod 2 ^ 64 - 2 ^ 63.

(** [scanInt] for the verb [d]: the result fits [bitSize] bits. *)
Definition scanInt (bitSize : Z) (s : ss) : res scanError (Z * ss) :=
  s <- SkipSpace s ;;
  _ <- notEOF s ;;
  let '(_, s) := accept sign s in
  ' (tok, s) <- scanNumber decimalDigits s ;;
  match strconv.ParseInt tok with
  | Fail e => Fail (ParseError e)
  | Ok i =>
    let n := bitSize in
    let x := Z.shiftr (wrap_int64 (Z.shiftl i (64 - n))) (64 - n) in
    if x =? i then Ok (i, s) else Fail IntegerOverflow
  end.

(** [scanUint] for the verb [d]: no sign is read. *)
Definition scanUint (bitSize : Z) (s : ss) : res scanError (Z * ss) :=
  s <- SkipSpace s ;;
  _ <- notEOF s ;;
  ' (tok, s) <- scanNumber decimalDigits s ;;
  match strconv.ParseUint tok with
  | Fail e => Fail (ParseError e)
  | Ok i =>
    let n := bitSize in
    let x := Z.shiftr (Z.shiftl i (64 - n) mod 2 ^ 64) (64 - n) in
    if x =? i then Ok (i, s) else Fail UnsignedIntegerOverflow
  end.

(** The operands this program scans into. *)
Inductive operand : Type := int_ptr | uint32_ptr | uint8_ptr.

Definition intBits : Z := 64.

(** [scanOne] for the verb [d]: the token buffer is emptied first. *)
Definition scanOne (arg : operand) (s : ss) : res scanError (Z * ss) :=
  let s := mkss (input s) [] in
  match arg with
  | int_ptr => scanInt intBits s
  | uint32_ptr => scanUint 32 s
  | uint8_ptr => scanUint 8 s
  end.

(** [doScanf], for formats made of literal runes other than spaces and of
    the verb [%d] without a width (every format of this program): a literal
    must be the next rune of the input; before a verb spaces are skipped.
    What follows the last directive in the input is not looked at. The
    result lists the values stored through the operands. *)
Fixpoint doScanf (format : list rune) (a : list operand) (s : ss)
  : res scanError (list Z) :=
  match format with
  | [] =>
    match a with
    | [] => Ok []
    | _ :: _ => Fail TooManyOperands
    end
  | fmtc :: format' =>
    if fmtc =? 37 then            (* '%' *)
      match format' with
      | [] => Fail BadVerb
      | c :: format'' =>
        if c =? 100 then          (* 'd' *)
          s <- SkipSpace s ;;
          match a with
          | [] => Fail TooFewOperands
          | arg :: a' =>
            ' (v, s) <- scanOne arg s ;;
            vs <- doScanf format'' a' s ;;
            Ok (v :: vs)
          end
        else Fail BadVerb
      end
    else
      match input s with
      | [] => Fail ErrUnexpectedEOF
      | inputc :: rest =>
        if fmtc =? inputc then doScanf format' a (mkss rest (buf s))
        else Fail InputDoesNotMatchFormat
      end
  end.

Definition Sscanf (str format : string) (a : list operand)
  : res scanError (list Z) :=
  doScanf (utf8.runes format) a (mkss (utf8.runes str) []).

End fmt.

(** ** The error values that flow through the package *)

Inductive error : Type :=
| ErrInvalidHash            (* "argon: hash is not in the correct format" *)
| ErrIncompatibleVersion    (* "argon: incompatible version of argon2" *)
| ErrUnsupportedMode        (* "argon: unsupported argon2 mode" *)
| CorruptInputError (offset : Z)   (* encoding/base64 *)
| ErrRandRead.              (* a failure of the random source *)

(** ** encoding/base64: RawStdEncoding *)

Module base64.

Definition encodeStd : string :=
  "ABCDEFGHIJKLMNOPQRSTUVWXYZabcdefghijklmnopqrstuvwxyz0123456789+/".

(** [enc.encode[i]] *)
Definition encode (i : Z) : byte :=
  match String.get (Z.to_nat i) encodeStd with
  | Some c => c
  | None => Ascii.zero
  end.

Fixpoint index_from (i : Z) (alphabet : string) (c : byte) : Z :=
  match alphabet with
  | EmptyString => 0xFF
  | String a alphabet' => if Ascii.eqb a c then i else index_from (i + 1) alphabet' c
  end.

(** [enc.decodeMap[c]]: the position of [c] in the alphabet, [0xFF] for a
    byte outside it. *)
Definition decodeMap (c : byte) : Z := index_from 0 encodeStd c.

Definition sextet (val shift : Z) : byte :=
  encode (Z.land (Z.shiftr val shift) 0x3F).

(** [Encode] without padding: three bytes give four characters, a rest of
    two bytes gives three and a rest of one byte gives two. *)
Fixpoint Encode (src : list byte) : list byte :=
  match src with
  | [] => []
  | [b0] =>
    let val := Z.shiftl (byte_val b0) 16 in
    [sextet val 18; sextet val 12]
  | [b0; b1] =>
    let val := Z.lor (Z.shiftl (byte_val b0) 16) (Z.shiftl (byte_val b1) 8) in
    [sextet val 18; sextet val 12; sextet val 6]
  | b0 :: b1 :: b2 :: rest =>
    let val := Z.lor (Z.lor (Z.shiftl (byte_val b0) 16)
                            (Z.shiftl (byte_val b1) 8))
                     (byte_val b2) in
    sextet val 18 :: sextet val 12 :: sextet val 6 :: sextet val 0
      :: Encode rest
  end.

Definition EncodeToString (src : list byte) : string :=
  string_of_list_ascii (Encode src).

Definition is_newline (c : byte) : bool :=
  Ascii.eqb c "010"%char || Ascii.eqb c "013"%char.

(** The end of [decodeQuantum]: the [dlen] values of [dbuf] (missing ones
    are zero) give [dlen - 1] bytes. The encoding is not strict: left-over
    bits are dropped without a check. *)
Definition assemble (dbuf : list Z) : list byte :=
  let val := Z.lor (Z.lor (Z.lor (Z.shiftl (nth 0 dbuf 0) 18)
                                 (Z.shiftl (nth 1 dbuf 0) 12))
                          (Z.shiftl (nth 2 dbuf 0) 6))
                   (nth 3 dbuf 0) in
  let b2 := byte_of (Z.shiftr val 0) in
  let b1 := byte_of (Z.shiftr val 8) in
  let b0 := byte_of (Z.shiftr val 16) in
  firstn (List.length dbuf - 1) [b0; b1; b2].

(** [decodeQuantum]: reads up to four characters of the alphabet from
    [src], which starts at offset [si] of the whole input, skipping CR and
    LF. [dbuf] holds the values read so far (the loop index [j] is its
    length). The result is the bytes decoded, the input left and its
    offset. There is no padding character: any other byte is corrupt. *)
Fixpoint decodeQuantum (src : list byte) (si : Z) (dbuf : list Z)
  : res error (list byte * list byte * Z) :=
  if (4 <=? List.length dbuf)%nat then Ok (assemble dbuf, src, si)
  else
    match src with
    | [] =>
      match List.length dbuf with
      | O => Ok ([], [], si)
      | 1%nat => Fail (CorruptInputError (si - 1))
      | _ => Ok (assemble dbuf, [], si)
      end
    | c :: src' =>
      let si := si + 1 in
      let out := decodeMap c in
      if negb (out =? 0xFF) then decodeQuantum src' si (dbuf ++ [out])
      else if is_newline c then decodeQuantum src' si dbuf
      else Fail (CorruptInputError (si - 1))
    end.

(** The loop of [Decode]: one quantum after the other until the input is
    used up. Every round on a non-empty input reads at least one byte, so
    as many rounds as the input has bytes are enough. *)
Fixpoint Decode_loop (fuel : nat) (src : list byte) (si : Z)
  : res error (list byte) :=
  match src, fuel with
  | [], _ => Ok []
  | _ :: _, O => Ok []
  | _ :: _, S fuel' =>
    ' (out, rest, si') <- decodeQuantum src si [] ;;
    tail <- Decode_loop fuel' rest si' ;;
    Ok (out ++ tail)
  end.

Definition Decode (src : list byte) : res error (list byte) :=
  Decode_loop (List.length src) src 0.

Definition DecodeString (s : string) : res error (list byte) :=
  Decode (list_ascii_of_string s).

End base64.

(** ** crypto/subtle *)

Module subtle.

Definition ConstantTimeByteEq (x y : Z) : Z :=
  Z.shiftr ((Z.lxor x y - 1) mod 2 ^ 32) 31.

Fixpoint ConstantTimeCompare_loop (x y : list byte) (v : Z) : Z :=
  match x, y with
  | xi :: x', yi :: y' =>
    ConstantTimeCompare_loop x' y' (Z.lor v (Z.lxor (byte_val xi) (byte_val yi)))
  | _, _ => v
  end.

Definition ConstantTimeCompare (x y : list byte) : Z :=
  if negb (List.length x =? List.length y)%nat then 0
  else ConstantTimeByteEq (ConstantTimeCompare_loop x y 0) 0.

End subtle.

(** ** golang.org/x/crypto/argon2 *)

Module argon2.

Definition Version : Z := 0x13.

(** The type of [argon2.Key] and [argon2.IDKey]: password, salt, time,
    memory, threads and key length give the derived key. *)
Definition KDF : Type := list byte -> list byte -> Z -> Z -> Z -> Z -> list byte.

(** What the package promises of both functions: the key has the length
    that was asked for. *)
Definition key_length_ok (kdf : KDF) : Prop :=
  forall password salt time memory threads keyLen,
    0 <= keyLen ->
    Z.of_nat (List.length (kdf password salt time memory threads keyLen)) = keyLen.

End argon2.

(** ** Package argon *)

Definition ModeArgon2id : string := "argon2id".
Definition ModeArgon2i : string := "argon2i".

(** [Memory], [Iterations], [SaltLength] and [KeyLength] are [uint32],
    [Parallelism] is [uint8]. *)
Record Params : Type := mkParams {
  Memory : Z;
  Iterations : Z;
  Parallelism : Z;
  SaltLength : Z;
  KeyLength : Z;
  Mode : string
}.

Definition Params_in_range (p : Params) : Prop :=
  0 <= Memory p < 2 ^ 32 /\ 0 <= Iterations p < 2 ^ 32 /\
  0 <= Parallelism p < 2 ^ 8 /\
  0 <= SaltLength p < 2 ^ 32 /\ 0 <= KeyLength p < 2 ^ 32.

Definition DefaultMemory : Z := 64 * 1024.
Definition DefaultIterations : Z := 1.
Definition DefaultParallelism : Z := 4.
Definition DefaultSaltLength : Z := 16.
Definition DefaultKeyLength : Z := 32.

Definition uint8 (z : Z) : Z := z mod 2 ^ 8.
Definition uint32 (z : Z) : Z := z mod 2 ^ 32.

(** [DefaultParams], as a function of what [runtime.NumCPU()] returns. *)
Definition DefaultParams (NumCPU : Z) : Params :=
  let p := uint8 NumCPU in
  let p := if DefaultParallelism <? p then DefaultParallelism else p in
  {| Memory := DefaultMemory;
     Iterations := DefaultIterations;
     Parallelism := p;
     SaltLength := DefaultSaltLength;
     KeyLength := DefaultKeyLength;
     Mode := ModeArgon2id |}.

(** The encoded string of [HashWithParams]:
    [Sprintf("$%s$v=%d$m=%d,t=%d,p=%d$%s$%s", ...)] over the unpadded
    base64 of salt and key. *)
Definition encodeHash (mode : string) (memory iterations parallelism : Z)
    (salt hash : list byte) : string :=
  let b64Salt := base64.EncodeToString salt in
  let b64Hash := base64.EncodeToString hash in
  ("$" ++ mode ++ "$v=" ++ strconv.fmt_d argon2.Version
       ++ "$m=" ++ strconv.fmt_d memory
       ++ ",t=" ++ strconv.fmt_d iterations
       ++ ",p=" ++ strconv.fmt_d parallelism
       ++ "$" ++ b64Salt ++ "$" ++ b64Hash)%string.

Definition decodeHash (encodedHash : string)
  : res error (Params * list byte * list byte) :=
  let vals := strings.Split encodedHash "$"%char in
  if negb (List.length vals =? 6)%nat then Fail ErrInvalidHash
  else
    match fmt.Sscanf (nth 2 vals EmptyString) "v=%d" [fmt.int_ptr] with
    | Fail _ => Fail ErrInvalidHash
    | Ok scanned =>
      let version := nth 0 scanned 0 in
      if negb (version =? argon2.Version) then Fail ErrIncompatibleVersion
      else
        let mode := nth 1 vals EmptyString in
        if negb (String.eqb mode ModeArgon2id) && negb (String.eqb mode ModeArgon2i)
        then Fail ErrUnsupportedMode
        else
          match fmt.Sscanf (nth 3 vals EmptyString) "m=%d,t=%d,p=%d"
                           [fmt.uint32_ptr; fmt.uint32_ptr; fmt.uint8_ptr] with
          | Fail _ => Fail ErrInvalidHash
          | Ok scanned =>
            let memory := nth 0 scanned 0 in
            let iterations := nth 1 scanned 0 in
            let parallelism := nth 2 scanned 0 in
            if (memory <? 1) || (iterations <? 1) || (parallelism <? 1)
            then Fail ErrInvalidHash
            else
              match base64.DecodeString (nth 4 vals EmptyString) with
              | Fail err => Fail err
              | Ok salt =>
                match base64.DecodeString (nth 5 vals EmptyString) with
                | Fail err => Fail err
                | Ok hash =>
                  Ok ({| Memory := memory;
                         Iterations := iterations;
                         Parallelism := parallelism;
                         SaltLength := uint32 (Z.of_nat (List.length salt));
                         KeyLength := uint32 (Z.of_nat (List.length hash));
                         Mode := mode |}, salt, hash)
                end
              end
          end
    end.

Section Hasher.

(** The collaborators: both variants of the key-derivation function, the
    random source ([rand.Read] on a buffer of the given length) and the
    number of processors. *)
Variables Key IDKey : argon2.KDF.
Variable rand_Read : Z -> res error (list byte).
Variable NumCPU : Z.

(** The [switch mode] of [HashWithParams] and of [Verify]. *)
Definition deriveKey (mode : string) (password : string) (salt : list byte)
    (p : Params) : res error (list byte) :=
  if String.eqb mode ModeArgon2i then
    Ok (Key (list_ascii_of_string password) salt
            (Iterations p) (Memory p) (Parallelism p) (KeyLength p))
  else if String.eqb mode ModeArgon2id then
    Ok (IDKey (list_ascii_of_string password) salt
              (Iterations p) (Memory p) (Parallelism p) (KeyLength p))
  else Fail ErrUnsupportedMode.

Definition HashWithParams (password : string) (p : Params) : res error string :=
  salt <- rand_Read (SaltLength p) ;;
  let mode := Mode p in
  let mode := if String.eqb mode EmptyString then ModeArgon2id else mode in
  hash <- deriveKey mode password salt p ;;
  Ok (encodeHash mode (Memory p) (Iterations p) (Parallelism p) salt hash).

Definition Hash (password : string) : res error string :=
  HashWithParams password (DefaultParams NumCPU).

Definition Verify (password encodedHash : string) : bool * option error :=
  match decodeHash encodedHash with
  | Fail err => (false, Some err)
  | Ok (p, salt, hash) =>
    let mode := Mode p in
    let mode := if String.eqb mode EmptyString then ModeArgon2id else mode in
    match deriveKey mode password salt p with
    | Fail err => (false, Some err)
    | Ok otherHash =>
      if subtle.ConstantTimeCompare hash otherHash =? 1 then (true, None)
      else (false, None)
    end
  end.

End Hasher.

(** ** Vocabulary of the statements *)

(** The [i]-th piece of the input, as [decodeHash] indexes [vals]. *)
Definition segment (i : nat) (encodedHash : string) : string :=
  nth i (strings.Split encodedHash "$"%char) EmptyString.

Definition segments (encodedHash : string) : nat :=
  List.length (strings.Split encodedHash "$"%char).

(** The two scans of [decodeHash]. *)
Definition scanVersion (seg : string) : res fmt.scanError (list Z) :=
  fmt.Sscanf seg "v=%d" [fmt.int_ptr].

Definition scanParams (seg : string) : res fmt.scanError (list Z) :=
  fmt.Sscanf seg "m=%d,t=%d,p=%d" [fmt.uint32_ptr; fmt.uint32_ptr; fmt.uint8_ptr].

(** Past the first three checks, what is left of [decodeHash]. *)
Definition decodeFields (mode seg3 seg4 seg5 : string)
  : res error (Params * list byte * list byte) :=
  match scanParams seg3 with
  | Fail _ => Fail ErrInvalidHash
  | Ok scanned =>
    let memory := nth 0 scanned 0 in
    let iterations := nth 1 scanned 0 in
    let parallelism := nth 2 scanned 0 in
    if (memory <? 1) || (iterations <? 1) || (parallelism <? 1)
    then Fail ErrInvalidHash
    else
      match base64.DecodeString seg4 with
      | Fail err => Fail err
      | Ok salt =>
        match base64.DecodeString seg5 with
        | Fail err => Fail err
        | Ok hash =>
          Ok ({| Memory := memory;
                 Iterations := iterations;
                 Parallelism := parallelism;
                 SaltLength := uint32 (Z.of_nat (List.length salt));
                 KeyLength := uint32 (Z.of_nat (List.length hash));
                 Mode := mode |}, salt, hash)
        end
      end
  end.

Definition supported_mode (mode : string) : Prop :=
  mode = ModeArgon2id \/ mode = ModeArgon2i.

(** Pieces joined by ["$"]. *)
Fixpoint join (pieces : list string) : string :=
  match pieces with
  | [] => EmptyString
  | [piece] => piece
  | piece :: pieces' => (piece ++ String "$" (join pieces'))%string
  end.

Definition in_alphabet (c : byte) : bool := negb (base64.decodeMap c =? 0xFF).

(** Unpadded standard base64 as RFC 4648 has it: characters of the
    alphabet only, and not a single character left over after the groups
    of four. *)
Definition valid_raw_std (s : string) : bool :=
  forallb in_alphabet (list_ascii_of_string s)
  && negb (Nat.eqb (String.length s mod 4) 1).

(** What Go's decoder reads: the input without CR and LF. *)
Definition strip_newlines (s : string) : string :=
  string_of_list_ascii
    (filter (fun c => negb (base64.is_newline c)) (list_ascii_of_string s)).

Definition is_digit (c : byte) : bool :=
  (48 <=? byte_val c) && (byte_val c <=? 57).

(** Text after a scanned number that cannot be taken for more of it:
    nothing, or text that starts with an ASCII character other than a
    decimal digit. *)
Definition trailing_text (s : string) : bool :=
  match s with
  | EmptyString => true
  | String c _ => (byte_val c <? 0x80) && negb (is_digit c)
  end.

(** The mode that [HashWithParams] and [Verify] work with: an empty mode
    stands for [argon2id]. *)
Definition resolveMode (mode : string) : string :=
  if String.eqb mode EmptyString then ModeArgon2id else mode.

Definition with_mode (p : Params) (mode : string) : Params :=
  {| Memory := Memory p; Iterations := Iterations p;
     Parallelism := Parallelism p; SaltLength := SaltLength p;
     KeyLength := KeyLength p; Mode := mode |}.

(** A stand-in key-derivation function for the examples: the key is cut
    from the tag, the password, the salt and zero bytes. *)
Definition exampleKDF (tag : byte) : argon2.KDF :=
  fun password salt _ _ _ keyLen =>
    firstn (Z.to_nat keyLen)
           (tag :: password ++ salt ++ repeat Ascii.zero (Z.to_nat keyLen)).

Definition exampleKey : argon2.KDF := exampleKDF "i"%char.
Definition exampleIDKey : argon2.KDF := exampleKDF "d"%char.

Definition exampleRand (n : Z) : res error (list byte) :=
  Ok (repeat "s"%char (Z.to_nat n)).

(** The codes of the bytes of a string. *)
Definition codes (s : string) : list Z := map byte_val (list_ascii_of_string s).

Definition ascii_only (s : string) : Prop :=
  Forall (fun c => byte_val c < 0x80) (list_ascii_of_string s).

Definition digit_code (d : Z) : Prop := 48 <= d <= 57.

(** The scan of a number stops in front of [rest]. *)
Definition stops (rest : list Z) : Prop :=
  match rest with
  | [] => True
  | r :: _ => ~ digit_code r
  end.

Definition operand_bits (arg : fmt.operand) : Z :=
  match arg with
  | fmt.int_ptr => 63
  | fmt.uint32_ptr => 32
  | fmt.uint8_ptr => 8
  end.

(** The six pieces of an encoded string, with [seg0] in front of the first
    ["$"] and with [e2] and [e3] after the version and the parameters. *)
Definition pieces (seg0 mode e2 : string) (memory iterations parallelism : Z)
    (e3 : string) (salt hash : list byte) : list string :=
  [ seg0; mode;
    ("v=" ++ strconv.fmt_d argon2.Version ++ e2)%string;
    ("m=" ++ strconv.fmt_d memory ++ ",t=" ++ strconv.fmt_d iterations
          ++ ",p=" ++ strconv.fmt_d parallelism ++ e3)%string;
    base64.EncodeToString salt; base64.EncodeToString hash ].

(** The input without CR and LF, as a list. *)
Definition clean (src : list byte) : list byte :=
  filter (fun c => negb (base64.is_newline c)) src.

Definition accepted (src : list byte) : Prop :=
  forallb in_alphabet (clean src) = true
  /\ (List.length (clean src) mod 4 <> 1)%nat.

(** An encoded string whose salt segment holds a line feed:
    [dGVz], LF, [dHNhbHQ]. *)
Definition hash_with_line_feed : string :=
  ("$argon2id$v=19$m=65536,t=1,p=4$dGVz"
     ++ String "010"%char "dHNhbHQ$dGVzdGhhc2g")%string.

(** ** The earlier revision of the package

    The same file before modes and parameter validation were added: the
    record has no [Mode], the hasher and the verifier use [argon2.IDKey]
    only, and the decoder checks neither the algorithm tag nor the
    parameters. *)

Module Legacy.

Record Params : Type := mkParams {
  Memory : Z;
  Iterations : Z;
  Parallelism : Z;
  SaltLength : Z;
  KeyLength : Z
}.

(** [DefaultParams], as a function of what [runtime.NumCPU()] returns. *)
Definition DefaultParams (NumCPU : Z) : Params :=
  let p := uint8 NumCPU in
  let p := if p <? 1 then 1 else p in
  let p := if 4 <? p then 4 else p in
  {| Memory := 64 * 1024;
     Iterations := 1;
     Parallelism := p;
     SaltLength := 16;
     KeyLength := 32 |}.

Definition decodeHash (encodedHash : string)
  : res error (Params * list byte * list byte) :=
  let vals := strings.Split encodedHash "$"%char in
  if negb (List.length vals =? 6)%nat then Fail ErrInvalidHash
  else
    match fmt.Sscanf (nth 2 vals EmptyString) "v=%d" [fmt.int_ptr] with
    | Fail _ => Fail ErrInvalidHash
    | Ok scanned =>
      let version := nth 0 scanned 0 in
      if negb (version =? argon2.Version) then Fail ErrIncompatibleVersion
      else
        match fmt.Sscanf (nth 3 vals EmptyString) "m=%d,t=%d,p=%d"
                         [fmt.uint32_ptr; fmt.uint32_ptr; fmt.uint8_ptr] with
        | Fail _ => Fail ErrInvalidHash
        | Ok scanned =>
          match base64.DecodeString (nth 4 vals EmptyString) with
          | Fail err => Fail err
          | Ok salt =>
            match base64.DecodeString (nth 5 vals EmptyString) with
            | Fail err => Fail err
            | Ok hash =>
              Ok ({| Memory := nth 0 scanned 0;
                     Iterations := nth 1 scanned 0;
                     Parallelism := nth 2 scanned 0;
                     SaltLength := uint32 (Z.of_nat (List.length salt));
                     KeyLength := uint32 (Z.of_nat (List.length hash)) |},
                  salt, hash)
            end
          end
        end
    end.

Section Hasher.

Variable IDKey : argon2.KDF.
Variable rand_Read : Z -> res error (list byte).
Variable NumCPU : Z.

Definition HashWithParams (password : string) (p : Params) : res error string :=
  salt <- rand_Read (SaltLength p) ;;
  let hash := IDKey (list_ascii_of_string password) salt
                    (Iterations p) (Memory p) (Parallelism p) (KeyLength p) in
  let b64Salt := base64.EncodeToString salt in
  let b64Hash := base64.EncodeToString hash in
  Ok ("$argon2id$v=" ++ strconv.fmt_d argon2.Version
        ++ "$m=" ++ strconv.fmt_d (Memory p)
        ++ ",t=" ++ strconv.fmt_d (Iterations p)
        ++ ",p=" ++ strconv.fmt_d (Parallelism p)
        ++ "$" ++ b64Salt ++ "$" ++ b64Hash)%string.

Definition Hash (password : string) : res error string :=
  HashWithParams password (DefaultParams NumCPU).

Definition Verify (password encodedHash : string) : bool * option error :=
  match decodeHash encodedHash with
  | Fail err => (false, Some err)
  | Ok (p, salt, hash) =>
    let otherHash := IDKey (list_ascii_of_string password) salt
                           (Iterations p) (Memory p) (Parallelism p) (KeyLength p) in
    if subtle.ConstantTimeCompare hash otherHash =? 1 then (true, None)
    else (false, None)
  end.

End Hasher.

Definition Params_in_range (p : Params) : Prop :=
  0 <= Memory p < 2 ^ 32 /\ 0 <= Iterations p < 2 ^ 32 /\
  0 <= Parallelism p < 2 ^ 8 /\
  0 <= SaltLength p < 2 ^ 32 /\ 0 <= KeyLength p < 2 ^ 32.

End Legacy.

(** A record of the earlier revision, read as one of this revision with
    the given mode, and back. *)
Definition upgrade (q : Legacy.Params) (mode : string) : Params :=
  {| Memory := Legacy.Memory q; Iterations := Legacy.Iterations q;
     Parallelism := Legacy.Parallelism q; SaltLength := Legacy.SaltLength q;
     KeyLength := Legacy.KeyLength q; Mode := mode |}.

Definition forget_mode (p : Params) : Legacy.Params :=
  {| Legacy.Memory := Memory p; Legacy.Iterations := Iterations p;
     Legacy.Parallelism := Parallelism p; Legacy.SaltLength := SaltLength p;
     Legacy.KeyLength := KeyLength p |}.

(** [strings.HasPrefix], as the tests call it. *)
Definition HasPrefix (s prefix : string) : bool := String.prefix prefix s.

(** What [crypto/rand] promises of [Read]: the buffer is filled, so a
    read that succeeds gives as many bytes as were asked for. *)
Definition fills_buffer (rand_Read : Z -> res error (list byte)) : Prop :=
  forall n salt,
    0 <= n -> rand_Read n = Ok salt -> Z.of_nat (List.length salt) = n.

(** Past the version check, what is left of the earlier [decodeHash]. *)
Definition legacyFields (seg3 seg4 seg5 : string)
  : res error (Legacy.Params * list byte * list byte) :=
  match scanParams seg3 with
  | Fail _ => Fail ErrInvalidHash
  | Ok scanned =>
    match base64.DecodeString seg4 with
    | Fail err => Fail err
    | Ok salt =>
      match base64.DecodeString seg5 with
      | Fail err => Fail err
      | Ok hash =>
        Ok ({| Legacy.Memory := nth 0 scanned 0;
               Legacy.Iterations := nth 1 scanned 0;
               Legacy.Parallelism := nth 2 scanned 0;
               Legacy.SaltLength := uint32 (Z.of_nat (List.length salt));
               Legacy.KeyLength := uint32 (Z.of_nat (List.length hash)) |},
            salt, hash)
      end
    end
  end.

(** ** The form of the segments that are scanned *)

(** What the two scans of [decodeHash] accept, said of the runes of the
    segment, without the scanner. *)

(** A rune that [SkipSpace] steps over: a space other than the newline. *)
Definition blank (r : Z) : Prop := fmt.isSpace r = true /\ r <> 10.

(** Input at which [SkipSpace] stops without an error: the end, or a rune
    that is not a space. *)
Definition unspaced (rs : list Z) : Prop :=
  match rs with
  | [] => True
  | r :: _ => fmt.isSpace r = false
  end.

(** The value of a run of decimal digits, read from the left onto [n]. *)
Definition decimal_from (n : Z) (ds : list Z) : Z :=
  fold_left (fun n d => 10 * n + (d - 48)) ds n.

(** The value of a decimal numeral, given by the codes of its digits. *)
Definition decimal_value (ds : list Z) : Z := decimal_from 0 ds.

(** The values an operand can hold. *)
Definition fits (arg : fmt.operand) (v : Z) : Prop :=
  match arg with
  | fmt.int_ptr => - 2 ^ 63 <= v < 2 ^ 63
  | fmt.uint32_ptr => 0 <= v < 2 ^ 32
  | fmt.uint8_ptr => 0 <= v < 2 ^ 8
  end.

(** What a number may carry as sign: nothing, or ["+"] or ["-"] where the
    operand is signed. *)
Definition sign_for (arg : fmt.operand) (sgn : list Z) : Prop :=
  sgn = [] \/ (arg = fmt.int_ptr /\ (sgn = [43] \/ sgn = [45])).

(** The value of a numeral with its sign: negated after ["-"]. *)
Definition signed_value (sgn ds : list Z) : Z :=
  if existsb (Z.eqb 45) sgn then - decimal_value ds else decimal_value ds.

(** [reads arg rs v rest]: the input [rs] starts with a number that the
    verb [%d] reads into [arg], with value [v], and goes on with [rest]:
    blanks, a sign where the operand takes one, decimal digits (at least
    one, and as many as there are) whose value fits the operand. *)
Definition reads (arg : fmt.operand) (rs : list Z) (v : Z) (rest : list Z) : Prop :=
  exists blanks sgn ds,
    rs = blanks ++ sgn ++ ds ++ rest
    /\ Forall blank blanks
    /\ sign_for arg sgn
    /\ ds <> [] /\ Forall digit_code ds /\ stops rest
    /\ v = signed_value sgn ds
    /\ fits arg v.

(** A version segment: [v=], a number for an [int], then anything. *)
Definition version_form (seg : string) (v : Z) : Prop :=
  exists after rest,
    utf8.runes seg = 118 :: 61 :: after
    /\ reads fmt.int_ptr after v rest.

(** A parameter segment: [m=], a number for a [uint32], [,t=], a number
    for a [uint32], [,p=], a number for a [uint8], then anything. *)
Definition params_form (seg : string) (m t p : Z) : Prop :=
  exists after_m after_t after_p rest,
    utf8.runes seg = 109 :: 61 :: after_m
    /\ reads fmt.uint32_ptr after_m m (44 :: 116 :: 61 :: after_t)
    /\ reads fmt.uint32_ptr after_t t (44 :: 112 :: 61 :: after_p)
    /\ reads fmt.uint8_ptr after_p p rest.

(** * The library functions *)

(** ** Bytes *)

Lemma byte_val_range c : 0 <= byte_val c < 256.
Proof.
  unfold byte_val. pose proof (N_ascii_bounded c). lia.
Qed.

Lemma byte_of_val c : byte_of (byte_val c) = c.
Proof.
  unfold byte_of. rewrite Z.mod_small by apply byte_val_range.
  unfold byte_val. rewrite N2Z.id. apply ascii_N_embedding.
Qed.

Lemma byte_val_of z : byte_val (byte_of z) = z mod 256.
Proof.
  unfold byte_val, byte_of.
  pose proof (Z.mod_pos_bound z 256 ltac:(lia)).
  rewrite N_ascii_embedding by lia. lia.
Qed.

Lemma byte_val_inj c d : byte_val c = byte_val d -> c = d.
Proof.
  intros H. rewrite <- (byte_of_val c), <- (byte_of_val d). now rewrite H.
Qed.

(** ** Splitting *)

Lemma Split_length s sep :
  List.length (strings.Split s sep) = S (strings.Count s sep).
Proof.
  induction s as [|c s IH]; simpl; [reflexivity|].
  destruct (Ascii.eqb c sep); simpl.
  - now rewrite IH.
  - destruct (strings.Split s sep) as [|piece pieces]; simpl in *; lia.
Qed.

Lemma Split_no_sep s sep :
  strings.Count s sep = 0%nat -> strings.Split s sep = [s].
Proof.
  induction s as [|c s IH]; simpl; [reflexivity|].
  destruct (Ascii.eqb c sep); simpl; [discriminate|].
  intros H. now rewrite (IH H).
Qed.

Lemma Split_app_sep a b sep :
  strings.Count a sep = 0%nat ->
  strings.Split (a ++ String sep b) sep = a :: strings.Split b sep.
Proof.
  induction a as [|c a IH]; simpl.
  - intros _. now rewrite Ascii.eqb_refl.
  - destruct (Ascii.eqb c sep); simpl; [discriminate|].
    intros H. now rewrite (IH H).
Qed.

Lemma Split_join piece pieces :
  Forall (fun x => strings.Count x "$"%char = 0%nat) (piece :: pieces) ->
  strings.Split (join (piece :: pieces)) "$"%char = piece :: pieces.
Proof.
  revert piece. induction pieces as [|q pieces IH]; intros piece H.
  - simpl. apply Split_no_sep. now inversion H.
  - change (join (piece :: q :: pieces))
      with (piece ++ String "$" (join (q :: pieces)))%string.
    inversion H as [|? ? H1 H2]; subst.
    rewrite Split_app_sep by assumption. now rewrite IH.
Qed.

Lemma Count_app a b sep :
  strings.Count (a ++ b) sep = (strings.Count a sep + strings.Count b sep)%nat.
Proof.
  induction a as [|c a IH]; simpl; [reflexivity|]. rewrite IH. lia.
Qed.

Lemma append_assoc (a b c : string) :
  ((a ++ b) ++ c = a ++ (b ++ c))%string.
Proof. induction a as [|x a IH]; simpl; [reflexivity|]. now rewrite IH. Qed.

(** [decodeHash] looks at the number of pieces and at pieces 1 to 5 only. *)
Lemma decodeHash_ext s s' :
  segments s = segments s' ->
  (forall i, (1 <= i <= 5)%nat -> segment i s = segment i s') ->
  decodeHash s = decodeHash s'.
Proof.
  unfold segments, segment, decodeHash. intros Hlen Hseg. cbv zeta.
  rewrite Hlen.
  rewrite (Hseg 1%nat), (Hseg 2%nat), (Hseg 3%nat), (Hseg 4%nat), (Hseg 5%nat)
    by lia.
  reflexivity.
Qed.

(** ** Runes of ASCII text *)

Lemma DecodeRune_ascii c s :
  byte_val c < 0x80 ->
  utf8.DecodeRuneInString (String c s) = (byte_val c, 1%nat).
Proof.
  intros H. unfold utf8.DecodeRuneInString, utf8.first.
  destruct (Z.ltb_spec (byte_val c) 0x80); [reflexivity | lia].
Qed.

Lemma runes_cons_ascii c s :
  byte_val c < 0x80 -> utf8.runes (String c s) = byte_val c :: utf8.runes s.
Proof.
  intros H. unfold utf8.runes. cbn [utf8.runes_from].
  rewrite DecodeRune_ascii by assumption. reflexivity.
Qed.

Lemma runes_app_ascii a s :
  ascii_only a -> utf8.runes (a ++ s) = codes a ++ utf8.runes s.
Proof.
  unfold ascii_only, codes.
  induction a as [|c a IH]; cbn [String.append list_ascii_of_string map app];
    intros H.
  - reflexivity.
  - inversion H; subst. rewrite runes_cons_ascii by assumption.
    now rewrite IH.
Qed.

Lemma runes_ascii a : ascii_only a -> utf8.runes a = codes a.
Proof.
  intros H. pose proof (runes_app_ascii a EmptyString H) as E.
  replace (a ++ "")%string with a in E.
  - rewrite E. cbn. apply app_nil_r.
  - clear. induction a; cbn; congruence.
Qed.

(** ** Decimal numerals *)

Lemma digit_code_cases d :
  digit_code d ->
  d = 48 \/ d = 49 \/ d = 50 \/ d = 51 \/ d = 52 \/ d = 53 \/ d = 54
  \/ d = 55 \/ d = 56 \/ d = 57.
Proof. unfold digit_code. lia. Qed.

Ltac each_digit H :=
  apply digit_code_cases in H;
  repeat (destruct H as [H|H]; [subst|]); [..|subst].

Lemma digit_indexRune d :
  digit_code d -> fmt.indexRune fmt.decimalDigits d = true.
Proof. intros H. each_digit H; reflexivity. Qed.

Lemma digit_not_sign d : digit_code d -> fmt.indexRune fmt.sign d = false.
Proof. intros H. each_digit H; reflexivity. Qed.

Lemma digit_SkipSpace d rs :
  digit_code d -> fmt.SkipSpace_loop (d :: rs) = Ok (d :: rs).
Proof. intros H. each_digit H; reflexivity. Qed.

Lemma digit_byte u : 0 <= u < 10 -> byte_val (byte_of (48 + u)) = 48 + u.
Proof. intros H. rewrite byte_val_of. apply Z.mod_small. lia. Qed.

Lemma fmtInteger_loop_codes fuel : forall u acc,
  0 <= u ->
  Forall digit_code (codes acc) ->
  Forall digit_code (codes (strconv.fmtInteger_loop fuel u acc)).
Proof.
  induction fuel as [|fuel IH]; intros u acc Hu Hacc; cbn [strconv.fmtInteger_loop].
  - assumption.
  - destruct (Z.leb_spec 10 u).
    + apply IH; [apply Z.div_pos; lia|].
      unfold codes. cbn [list_ascii_of_string map]. constructor; [|exact Hacc].
      replace (48 + u - u / 10 * 10) with (48 + u mod 10)
        by (pose proof (Z.div_mod u 10 ltac:(lia)); lia).
      pose proof (Z.mod_pos_bound u 10 ltac:(lia)).
      rewrite digit_byte by lia. unfold digit_code. lia.
    + unfold codes. cbn [list_ascii_of_string map]. constructor; [|exact Hacc].
      rewrite digit_byte by lia. unfold digit_code. lia.
Qed.

Lemma fmtInteger_loop_nonempty fuel : forall u acc,
  (fuel <> 0%nat \/ acc <> EmptyString) ->
  strconv.fmtInteger_loop fuel u acc <> EmptyString.
Proof.
  induction fuel as [|fuel IH]; intros u acc H; cbn [strconv.fmtInteger_loop].
  - destruct H; congruence.
  - destruct (10 <=? u).
    + apply IH. right. discriminate.
    + discriminate.
Qed.

Lemma fmtInteger_loop_parse fuel : forall u acc,
  0 <= u < 2 ^ 64 -> u < 10 ^ Z.of_nat fuel ->
  strconv.ParseUint_loop (codes (strconv.fmtInteger_loop fuel u acc)) 0
  = strconv.ParseUint_loop (codes acc) u.
Proof.
  induction fuel as [|fuel IH]; intros u acc Hu Hfuel; cbn [strconv.fmtInteger_loop].
  - cbn in Hfuel. replace u with 0 by lia. reflexivity.
  - assert (Hpow : 10 ^ Z.of_nat (S fuel) = 10 * 10 ^ Z.of_nat fuel).
    { rewrite Nat2Z.inj_succ, Z.pow_succ_r by lia. reflexivity. }
    pose proof (Z.div_mod u 10 ltac:(lia)) as Hdm.
    pose proof (Z.mod_pos_bound u 10 ltac:(lia)) as Hm.
    destruct (Z.leb_spec 10 u).
    + rewrite IH.
      2:{ split; [apply Z.div_pos; lia|]. apply Z.div_lt_upper_bound; lia. }
      2:{ apply Z.div_lt_upper_bound; lia. }
      unfold codes. cbn [list_ascii_of_string map strconv.ParseUint_loop].
      replace (48 + u - u / 10 * 10) with (48 + u mod 10) by lia.
      rewrite digit_byte by lia.
      replace ((48 <=? 48 + u mod 10) && (48 + u mod 10 <=? 57)) with true
        by (symmetry; apply andb_true_intro; split; apply Z.leb_le; lia).
      unfold strconv.maxUint64.
      change (2 ^ 64 - 1) with 18446744073709551615 in *.
      change ((18446744073709551615 / 10 + 1)) with 1844674407370955162.
      destruct (Z.leb_spec 1844674407370955162 (u / 10)); [lia|].
      replace (u / 10 * 10 + (48 + u mod 10 - 48)) with u by lia.
      rewrite Z.mod_small by lia.
      destruct (Z.ltb_spec u (u / 10 * 10)); [lia|].
      destruct (Z.ltb_spec 18446744073709551615 u); [lia|].
      reflexivity.
    + unfold codes. cbn [list_ascii_of_string map strconv.ParseUint_loop].
      rewrite digit_byte by lia.
      replace ((48 <=? 48 + u) && (48 + u <=? 57)) with true
        by (symmetry; apply andb_true_intro; split; apply Z.leb_le; lia).
      unfold strconv.maxUint64.
      change (2 ^ 64 - 1) with 18446744073709551615 in *.
      change ((18446744073709551615 / 10 + 1)) with 1844674407370955162.
      cbn [Z.leb Z.compare orb Z.mul]. 
      replace (0 + (48 + u - 48)) with u by lia.
      rewrite Z.mod_small by lia.
      destruct (Z.ltb_spec u 0); [lia|].
      destruct (Z.ltb_spec 18446744073709551615 u); [lia|].
      reflexivity.
Qed.

Lemma pow10_20 : 2 ^ 64 < 10 ^ Z.of_nat 20.
Proof. reflexivity. Qed.

Lemma fmt_d_digits n : 0 <= n -> Forall digit_code (codes (strconv.fmt_d n)).
Proof. intros H. apply fmtInteger_loop_codes; [assumption | constructor]. Qed.

Lemma fmt_d_head n :
  0 <= n ->
  exists d ds, codes (strconv.fmt_d n) = d :: ds
               /\ digit_code d /\ Forall digit_code ds.
Proof.
  intros H. pose proof (fmt_d_digits n H) as Hd.
  assert (Hne : strconv.fmt_d n <> EmptyString)
    by (apply fmtInteger_loop_nonempty; left; discriminate).
  unfold codes in *. destruct (strconv.fmt_d n) as [|c s]; [congruence|].
  cbn [list_ascii_of_string map] in *. inversion Hd; subst. eauto.
Qed.

Lemma fmt_d_parse n :
  0 <= n < 2 ^ 64 -> strconv.ParseUint (codes (strconv.fmt_d n)) = Ok n.
Proof.
  intros H. destruct (fmt_d_head n) as (d & ds & E & _); [lia|].
  unfold strconv.ParseUint. rewrite E, <- E.
  unfold strconv.fmt_d. rewrite fmtInteger_loop_parse.
  - reflexivity.
  - assumption.
  - pose proof pow10_20. lia.
Qed.

Lemma digits_ascii_only s : Forall digit_code (codes s) -> ascii_only s.
Proof.
  unfold codes, ascii_only. intros H. rewrite Forall_map in H.
  eapply Forall_impl; [|exact H]. unfold digit_code. cbn. intros; lia.
Qed.

Lemma digits_no_separator s :
  Forall digit_code (codes s) -> strings.Count s "$"%char = 0%nat.
Proof.
  unfold codes. induction s as [|c s IH]; cbn [list_ascii_of_string map strings.Count];
    intros H; [reflexivity|].
  inversion H as [|? ? Hc Hs]; subst. rewrite (IH Hs).
  destruct (Ascii.eqb_spec c "$"%char); [|reflexivity].
  subst. unfold digit_code in Hc. cbn in Hc. lia.
Qed.

(** ** Scanning a decimal numeral *)

Lemma not_digit_indexRune r :
  ~ digit_code r -> fmt.indexRune fmt.decimalDigits r = false.
Proof.
  unfold digit_code. intros H. cbn.
  repeat match goal with
         | |- context [Z.eqb ?a ?b] => destruct (Z.eqb_spec a b); [lia|]
         end.
  reflexivity.
Qed.

Lemma trailing_text_stops e : trailing_text e = true -> stops (utf8.runes e).
Proof.
  destruct e as [|c e]; cbn [trailing_text]; intros H; [exact I|].
  apply andb_true_iff in H as [H1 H2]. apply Z.ltb_lt in H1.
  rewrite runes_cons_ascii by assumption. cbn [stops].
  unfold is_digit in H2. unfold digit_code. intros [Ha Hb].
  apply Z.leb_le in Ha, Hb. rewrite Ha, Hb in H2. discriminate.
Qed.

Lemma accept_loop_digits ds : forall rest b,
  Forall digit_code ds -> stops rest ->
  fmt.accept_loop fmt.decimalDigits (ds ++ rest) b = fmt.mkss rest (b ++ ds).
Proof.
  induction ds as [|d ds IH]; intros rest b Hds Hrest.
  - cbn [app]. rewrite app_nil_r.
    destruct rest as [|r rest]; [reflexivity|].
    cbn [fmt.accept_loop]. cbn [stops] in Hrest.
    now rewrite not_digit_indexRune.
  - inversion Hds; subst. cbn [app fmt.accept_loop].
    rewrite digit_indexRune by assumption.
    rewrite IH by assumption. now rewrite <- app_assoc.
Qed.

Lemma scanNumber_digits d ds rest b :
  digit_code d -> Forall digit_code ds -> stops rest ->
  fmt.scanNumber fmt.decimalDigits (fmt.mkss (d :: ds ++ rest) b)
  = Ok (b ++ d :: ds, fmt.mkss rest (b ++ d :: ds)).
Proof.
  intros Hd Hds Hrest. unfold fmt.scanNumber, fmt.notEOF, fmt.accept.
  cbn [fmt.input fmt.buf bind]. rewrite digit_indexRune by assumption.
  cbn [negb fmt.input fmt.buf]. rewrite accept_loop_digits by assumption.
  cbn [fmt.buf]. now rewrite <- app_assoc.
Qed.

Lemma uint_fits bits n :
  bits = 8 \/ bits = 32 -> 0 <= n < 2 ^ bits ->
  Z.shiftr (Z.shiftl n (64 - bits) mod 2 ^ 64) (64 - bits) = n.
Proof.
  intros Hbits Hn.
  rewrite Z.shiftl_mul_pow2, Z.shiftr_div_pow2 by (destruct Hbits; subst; lia).
  destruct Hbits; subst; cbn in *; rewrite Z.mod_small by lia;
    apply Z.div_mul; lia.
Qed.

Lemma scanUint_digits bits n rest :
  bits = 8 \/ bits = 32 ->
  0 <= n < 2 ^ bits -> stops rest ->
  fmt.scanUint bits (fmt.mkss (codes (strconv.fmt_d n) ++ rest) [])
  = Ok (n, fmt.mkss rest (codes (strconv.fmt_d n))).
Proof.
  intros Hbits Hn Hrest.
  assert (Hn64 : 0 <= n < 2 ^ 64).
  { destruct Hbits; subst; change (2 ^ 8) with 256 in *;
      change (2 ^ 32) with 4294967296 in *; change (2 ^ 64) with 18446744073709551616; lia. }
  pose proof (fmt_d_parse n Hn64) as Hparse.
  destruct (fmt_d_head n) as (d & ds & E & Hd & Hds); [lia|].
  rewrite E in *. unfold fmt.scanUint, fmt.SkipSpace.
  cbn [fmt.input fmt.buf app]. rewrite digit_SkipSpace by assumption.
  cbn [bind fmt.notEOF fmt.input].
  rewrite scanNumber_digits by assumption. cbn [bind app].
  rewrite Hparse, uint_fits, Z.eqb_refl by assumption. reflexivity.
Qed.

Lemma scanInt_digits n rest :
  0 <= n < 2 ^ 63 -> stops rest ->
  fmt.scanInt fmt.intBits (fmt.mkss (codes (strconv.fmt_d n) ++ rest) [])
  = Ok (n, fmt.mkss rest (codes (strconv.fmt_d n))).
Proof.
  intros Hn Hrest.
  assert (Hn64 : 0 <= n < 2 ^ 64)
    by (change (2 ^ 63) with 9223372036854775808 in *;
        change (2 ^ 64) with 18446744073709551616; lia).
  pose proof (fmt_d_parse n Hn64) as Hparse.
  destruct (fmt_d_head n) as (d & ds & E & Hd & Hds); [lia|].
  rewrite E in *. unfold fmt.scanInt, fmt.SkipSpace.
  cbn [fmt.input fmt.buf app]. rewrite digit_SkipSpace by assumption.
  cbn [bind fmt.notEOF fmt.input]. unfold fmt.accept. cbn [fmt.input].
  rewrite digit_not_sign by assumption.
  rewrite scanNumber_digits by assumption. cbn [bind app].
  unfold strconv.ParseInt.
  assert (Hd' := Hd). unfold digit_code in Hd'.
  destruct (Z.eqb_spec d 45); [lia|]. destruct (Z.eqb_spec d 43); [lia|].
  cbn [orb negb andb]. rewrite Hparse.
  destruct (Z.leb_spec (2 ^ 63) n); [lia|].
  unfold fmt.intBits. cbn [Z.sub Z.add Z.opp Z.pos_sub].
  rewrite Z.shiftl_0_r, Z.shiftr_0_r. unfold fmt.wrap_int64.
  rewrite Z.mod_small by
      (change (2 ^ 63) with 9223372036854775808 in *;
       change (2 ^ 64) with 18446744073709551616; lia).
  replace (n + 2 ^ 63 - 2 ^ 63) with n by lia.
  rewrite Z.eqb_refl. reflexivity.
Qed.

(** ** Bit operations as arithmetic *)

Lemma lor_add a b k :
  0 <= k -> 0 <= b < 2 ^ k -> a mod 2 ^ k = 0 -> Z.lor a b = a + b.
Proof.
  intros Hk Hb Ha.
  assert (Hland : Z.land a b = 0).
  { apply Z.bits_inj'. intros n Hn. rewrite Z.land_spec, Z.bits_0.
    destruct (Z.lt_ge_cases n k).
    - rewrite <- (Z.mod_pow2_bits_low a k n), Ha, Z.bits_0 by assumption.
      reflexivity.
    - rewrite <- (Z.mod_small b (2 ^ k)) by assumption.
      rewrite Z.mod_pow2_bits_high by lia. apply andb_false_r. }
  rewrite Z.add_nocarry_lxor by assumption. symmetry. now apply Z.lxor_lor.
Qed.

Lemma land_63 a : Z.land a 0x3F = a mod 64.
Proof. change 0x3F with (Z.ones 6). now rewrite Z.land_ones by lia. Qed.

(** ** The alphabet *)

Lemma decodeMap_encode i : 0 <= i < 64 -> base64.decodeMap (base64.encode i) = i.
Proof.
  intros H. rewrite <- (Z2Nat.id i) by lia.
  assert (Hk : (Z.to_nat i < 64)%nat) by lia.
  generalize dependent (Z.to_nat i). intros k Hk.
  do 64 (destruct k as [|k]; [reflexivity|]). lia.
Qed.

Lemma decodeMap_sextet val shift :
  0 <= shift -> base64.decodeMap (base64.sextet val shift) = (val / 2 ^ shift) mod 64.
Proof.
  intros Hs. unfold base64.sextet.
  rewrite land_63, Z.shiftr_div_pow2 by assumption.
  apply decodeMap_encode. apply Z.mod_pos_bound. lia.
Qed.

Lemma sextet_in_alphabet val shift :
  0 <= shift -> in_alphabet (base64.sextet val shift) = true.
Proof.
  intros Hs. unfold in_alphabet. rewrite decodeMap_sextet by assumption.
  pose proof (Z.mod_pos_bound (val / 2 ^ shift) 64 ltac:(lia)).
  destruct (Z.eqb_spec ((val / 2 ^ shift) mod 64) 0xFF); [lia | reflexivity].
Qed.

Lemma Encode_in_alphabet : forall src n,
  (List.length src <= n)%nat -> forallb in_alphabet (base64.Encode src) = true.
Proof.
  intros src n. revert src.
  induction n as [|n IH]; intros src Hlen.
  - destruct src; [reflexivity | cbn in Hlen; lia].
  - destruct src as [|b0 [|b1 [|b2 rest]]]; cbn [base64.Encode forallb].
    + reflexivity.
    + now rewrite !sextet_in_alphabet by lia.
    + now rewrite !sextet_in_alphabet by lia.
    + rewrite !sextet_in_alphabet by lia. cbn [andb].
      apply IH. cbn in Hlen. lia.
Qed.

(** ** Three bytes, four characters *)

Lemma lor3 x0 x1 x2 :
  0 <= x0 < 256 -> 0 <= x1 < 256 -> 0 <= x2 < 256 ->
  Z.lor (Z.lor (Z.shiftl x0 16) (Z.shiftl x1 8)) x2
  = x0 * 65536 + x1 * 256 + x2.
Proof.
  intros H0 H1 H2. rewrite !Z.shiftl_mul_pow2 by lia.
  change (2 ^ 16) with 65536. change (2 ^ 8) with 256.
  rewrite (lor_add (x0 * 65536) (x1 * 256) 16);
    [| lia | change (2 ^ 16) with 65536; lia | apply Z.mod_mul; lia].
  rewrite (lor_add _ x2 8); [reflexivity | lia | assumption |].
  replace (x0 * 65536 + x1 * 256) with ((x0 * 256 + x1) * 2 ^ 8) by lia.
  apply Z.mod_mul. lia.
Qed.

Lemma lor4 d0 d1 d2 d3 :
  0 <= d0 < 64 -> 0 <= d1 < 64 -> 0 <= d2 < 64 -> 0 <= d3 < 64 ->
  Z.lor (Z.lor (Z.lor (Z.shiftl d0 18) (Z.shiftl d1 12)) (Z.shiftl d2 6)) d3
  = d0 * 262144 + d1 * 4096 + d2 * 64 + d3.
Proof.
  intros H0 H1 H2 H3. rewrite !Z.shiftl_mul_pow2 by lia.
  change (2 ^ 18) with 262144. change (2 ^ 12) with 4096. change (2 ^ 6) with 64.
  rewrite (lor_add (d0 * 262144) (d1 * 4096) 18);
    [| lia | change (2 ^ 18) with 262144; lia | apply Z.mod_mul; lia].
  rewrite (lor_add _ (d2 * 64) 12); [| lia | change (2 ^ 12) with 4096; lia |].
  2:{ replace (d0 * 262144 + d1 * 4096) with ((d0 * 64 + d1) * 2 ^ 12) by lia.
      apply Z.mod_mul. lia. }
  rewrite (lor_add _ d3 6); [reflexivity | lia | assumption |].
  replace (d0 * 262144 + d1 * 4096 + d2 * 64)
    with ((d0 * 4096 + d1 * 64 + d2) * 2 ^ 6) by lia.
  apply Z.mod_mul. lia.
Qed.

Lemma byte_of_mod z : byte_of z = byte_of (z mod 256).
Proof. unfold byte_of. now rewrite Z.mod_mod by lia. Qed.

Lemma byte_of_eq z c : z mod 256 = byte_val c -> byte_of z = c.
Proof. intros H. rewrite byte_of_mod, H. apply byte_of_val. Qed.

(** The value that [assemble] rebuilds from the characters of a group. *)
Lemma sextets_value val :
  0 <= val < 2 ^ 24 ->
  (val / 2 ^ 18) mod 64 * 262144 + (val / 2 ^ 12) mod 64 * 4096
  + (val / 2 ^ 6) mod 64 * 64 + (val / 2 ^ 0) mod 64 = val.
Proof.
  change (2 ^ 24) with 16777216. change (2 ^ 18) with 262144.
  change (2 ^ 12) with 4096. change (2 ^ 6) with 64. change (2 ^ 0) with 1.
  intros H. Z.div_mod_to_equations. lia.
Qed.

Lemma assemble_group b0 b1 b2 :
  let val := Z.lor (Z.lor (Z.shiftl (byte_val b0) 16) (Z.shiftl (byte_val b1) 8))
                   (byte_val b2) in
  base64.assemble [ (val / 2 ^ 18) mod 64; (val / 2 ^ 12) mod 64;
                    (val / 2 ^ 6) mod 64; (val / 2 ^ 0) mod 64 ]
  = [b0; b1; b2].
Proof.
  intros val.
  pose proof (byte_val_range b0) as H0. pose proof (byte_val_range b1) as H1.
  pose proof (byte_val_range b2) as H2.
  assert (Hval : val = byte_val b0 * 65536 + byte_val b1 * 256 + byte_val b2)
    by (apply lor3; assumption).
  assert (Hr : 0 <= val < 2 ^ 24) by (change (2 ^ 24) with 16777216; lia).
  unfold base64.assemble. cbn [nth List.length Nat.sub firstn].
  rewrite lor4 by (apply Z.mod_pos_bound; lia).
  rewrite sextets_value by assumption.
  rewrite !Z.shiftr_div_pow2 by lia.
  change (2 ^ 16) with 65536. change (2 ^ 8) with 256. change (2 ^ 0) with 1.
  f_equal; [|f_equal; [|f_equal]]; apply byte_of_eq; rewrite Hval;
    Z.div_mod_to_equations; lia.
Qed.

Lemma assemble_rest2 b0 b1 :
  let val := Z.lor (Z.shiftl (byte_val b0) 16) (Z.shiftl (byte_val b1) 8) in
  base64.assemble [ (val / 2 ^ 18) mod 64; (val / 2 ^ 12) mod 64;
                    (val / 2 ^ 6) mod 64 ]
  = [b0; b1].
Proof.
  intros val.
  pose proof (byte_val_range b0) as H0. pose proof (byte_val_range b1) as H1.
  assert (Hval : val = byte_val b0 * 65536 + byte_val b1 * 256 + 0).
  { unfold val. rewrite <- (Z.lor_0_r (Z.lor _ _)). apply lor3; lia. }
  unfold base64.assemble. cbn [nth List.length Nat.sub firstn].
  rewrite lor4 by (try apply Z.mod_pos_bound; lia).
  rewrite !Z.shiftr_div_pow2 by lia.
  change (2 ^ 18) with 262144. change (2 ^ 12) with 4096. change (2 ^ 6) with 64.
  change (2 ^ 16) with 65536. change (2 ^ 8) with 256.
  f_equal; [|f_equal]; apply byte_of_eq; rewrite Hval;
    Z.div_mod_to_equations; lia.
Qed.

Lemma assemble_rest1 b0 :
  let val := Z.shiftl (byte_val b0) 16 in
  base64.assemble [ (val / 2 ^ 18) mod 64; (val / 2 ^ 12) mod 64 ] = [b0].
Proof.
  intros val.
  pose proof (byte_val_range b0) as H0.
  assert (Hval : val = byte_val b0 * 65536)
    by (unfold val; now rewrite Z.shiftl_mul_pow2 by lia).
  unfold base64.assemble. cbn [nth List.length Nat.sub firstn].
  rewrite lor4 by (try apply Z.mod_pos_bound; lia).
  rewrite !Z.shiftr_div_pow2 by lia.
  change (2 ^ 18) with 262144. change (2 ^ 12) with 4096.
  change (2 ^ 16) with 65536.
  f_equal; apply byte_of_eq; rewrite Hval; Z.div_mod_to_equations; lia.
Qed.

(** ** One quantum *)

Lemma decodeQuantum_full src si dbuf :
  List.length dbuf = 4%nat ->
  base64.decodeQuantum src si dbuf = Ok (base64.assemble dbuf, src, si).
Proof. intros H. destruct src; cbn [base64.decodeQuantum]; now rewrite H. Qed.

Lemma decodeQuantum_alphabet c src si dbuf :
  (List.length dbuf < 4)%nat -> in_alphabet c = true ->
  base64.decodeQuantum (c :: src) si dbuf
  = base64.decodeQuantum src (si + 1) (dbuf ++ [base64.decodeMap c]).
Proof.
  intros Hlen Hc. cbn [base64.decodeQuantum].
  destruct (Nat.leb_spec 4 (List.length dbuf)); [lia|].
  unfold in_alphabet in Hc. now rewrite Hc.
Qed.

Lemma decodeQuantum_sextet val shift src si dbuf :
  (List.length dbuf < 4)%nat -> 0 <= shift ->
  base64.decodeQuantum (base64.sextet val shift :: src) si dbuf
  = base64.decodeQuantum src (si + 1) (dbuf ++ [(val / 2 ^ shift) mod 64]).
Proof.
  intros Hlen Hs.
  rewrite decodeQuantum_alphabet by (auto using sextet_in_alphabet).
  now rewrite decodeMap_sextet.
Qed.

(** ** Decoding what was encoded *)

Lemma Decode_loop_Encode n : forall src fuel si,
  (List.length src <= n)%nat ->
  (List.length (base64.Encode src) <= fuel)%nat ->
  base64.Decode_loop fuel (base64.Encode src) si = Ok src.
Proof.
  induction n as [|n IH]; intros src fuel si Hn Hfuel.
  - destruct src; [|cbn in Hn; lia]. destruct fuel; reflexivity.
  - destruct src as [|b0 [|b1 [|b2 rest]]].
    + destruct fuel; reflexivity.
    + cbn [base64.Encode] in *. destruct fuel as [|fuel]; [cbn in Hfuel; lia|].
      cbn [base64.Decode_loop].
      rewrite !decodeQuantum_sextet by (cbn; lia). cbn [app].
      cbn [base64.decodeQuantum List.length Nat.leb bind].
      rewrite assemble_rest1. destruct fuel; reflexivity.
    + cbn [base64.Encode] in *. destruct fuel as [|fuel]; [cbn in Hfuel; lia|].
      cbn [base64.Decode_loop].
      rewrite !decodeQuantum_sextet by (cbn; lia). cbn [app].
      cbn [base64.decodeQuantum List.length Nat.leb bind].
      rewrite assemble_rest2. destruct fuel; reflexivity.
    + cbn [base64.Encode] in *. destruct fuel as [|fuel]; [cbn in Hfuel; lia|].
      cbn [base64.Decode_loop].
      rewrite !decodeQuantum_sextet by (cbn; lia). cbn [app].
      rewrite decodeQuantum_full by reflexivity. cbn [bind].
      rewrite assemble_group.
      rewrite IH by (cbn in Hn, Hfuel |- *; lia).
      reflexivity.
Qed.

Lemma DecodeString_EncodeToString src :
  base64.DecodeString (base64.EncodeToString src) = Ok src.
Proof.
  unfold base64.DecodeString, base64.EncodeToString, base64.Decode.
  rewrite list_ascii_of_string_of_list_ascii.
  now apply Decode_loop_Encode with (List.length src).
Qed.

Lemma alphabet_no_separator l :
  forallb in_alphabet l = true ->
  strings.Count (string_of_list_ascii l) "$"%char = 0%nat.
Proof.
  induction l as [|c l IH]; cbn [forallb string_of_list_ascii strings.Count];
    intros H; [reflexivity|].
  apply andb_true_iff in H as [Hc Hl]. rewrite (IH Hl).
  destruct (Ascii.eqb_spec c "$"%char); [|reflexivity].
  subst. discriminate.
Qed.

Lemma EncodeToString_no_separator src :
  strings.Count (base64.EncodeToString src) "$"%char = 0%nat.
Proof.
  apply alphabet_no_separator. now apply Encode_in_alphabet with (List.length src).
Qed.

(** ** What the base64 decoder accepts *)

Lemma newline_not_in_alphabet c :
  base64.is_newline c = true -> in_alphabet c = false.
Proof.
  unfold base64.is_newline. intros H. apply orb_true_iff in H.
  destruct H as [H|H]; apply Ascii.eqb_eq in H; subst; reflexivity.
Qed.

Lemma clean_app a b : clean (a ++ b) = clean a ++ clean b.
Proof. apply filter_app. Qed.

Lemma clean_cons_alphabet c l :
  in_alphabet c = true -> clean (c :: l) = c :: clean l.
Proof.
  intros H. unfold clean. cbn [filter].
  destruct (base64.is_newline c) eqn:E; [|reflexivity].
  apply newline_not_in_alphabet in E. congruence.
Qed.

Lemma clean_cons_newline c l :
  base64.is_newline c = true -> clean (c :: l) = clean l.
Proof. intros H. unfold clean. cbn [filter]. now rewrite H. Qed.

Lemma clean_cons_other c l :
  in_alphabet c = false -> base64.is_newline c = false ->
  forallb in_alphabet (clean (c :: l)) = false.
Proof.
  intros H1 H2. unfold clean. cbn [filter]. rewrite H2. cbn [negb forallb].
  now rewrite H1.
Qed.

(** What one quantum does: it reads [consumed], characters of the alphabet
    between CR and LF, up to four values in [dbuf] or to the end of the
    input; it fails on any other byte and on an end with one value. *)
Lemma decodeQuantum_spec src : forall si dbuf,
  (List.length dbuf <= 4)%nat ->
  match base64.decodeQuantum src si dbuf with
  | Ok (out, rest, si') =>
    exists consumed,
      src = consumed ++ rest
      /\ forallb in_alphabet (clean consumed) = true
      /\ ((List.length dbuf + List.length (clean consumed) = 4)%nat
          \/ (rest = []
              /\ (List.length dbuf + List.length (clean consumed) < 4)%nat
              /\ (List.length dbuf + List.length (clean consumed) <> 1)%nat))
      /\ ((List.length dbuf < 4)%nat -> src <> [] -> consumed <> [])
  | Fail e =>
    (exists off, e = CorruptInputError off)
    /\ (forallb in_alphabet (clean src) = false
        \/ (forallb in_alphabet (clean src) = true
            /\ (List.length dbuf + List.length (clean src) = 1)%nat))
  end.
Proof.
  induction src as [|c src IH]; intros si dbuf Hlen; cbn [base64.decodeQuantum].
  - destruct (Nat.leb_spec 4 (List.length dbuf)) as [H4|H4].
    + exists []. cbn. repeat split; auto; lia.
    + destruct (List.length dbuf) as [|[|n]] eqn:E.
      * exists []. cbn. repeat split; auto; try (right; repeat split; auto; lia).
      * split; [eauto|]. right. cbn. split; [reflexivity | lia].
      * exists []. cbn. repeat split; auto; try (right; repeat split; auto; lia).
  - destruct (Nat.leb_spec 4 (List.length dbuf)) as [H4|H4].
    + exists []. cbn. repeat split; auto; lia.
    + fold (in_alphabet c).
      destruct (in_alphabet c) eqn:Hc; cbn [negb].
      * specialize (IH (si + 1) (dbuf ++ [base64.decodeMap c])).
        rewrite length_app in IH. cbn [List.length] in IH.
        specialize (IH ltac:(lia)).
        destruct (base64.decodeQuantum src (si + 1) (dbuf ++ [base64.decodeMap c]))
          as [[[out rest] si']|e].
        -- destruct IH as (consumed & -> & Hall & Hcount & _).
           exists (c :: consumed). rewrite clean_cons_alphabet by assumption.
           cbn [forallb List.length app]. rewrite Hc, Hall.
           repeat split; auto; try discriminate.
           destruct Hcount as [Hcount|(? & ? & ?)]; [left | right; repeat split];
             auto; lia.
        -- destruct IH as (Hoff & Hbad). split; [assumption|].
           rewrite clean_cons_alphabet by assumption.
           cbn [forallb List.length]. rewrite Hc. cbn [andb].
           destruct Hbad as [Hbad|[Hall Hcount]]; [now left | right].
           split; [assumption | lia].
      * destruct (base64.is_newline c) eqn:Hnl.
        -- specialize (IH (si + 1) dbuf Hlen).
           destruct (base64.decodeQuantum src (si + 1) dbuf)
             as [[[out rest] si']|e].
           ++ destruct IH as (consumed & -> & Hall & Hcount & _).
              exists (c :: consumed). rewrite clean_cons_newline by assumption.
              repeat split; auto; discriminate.
           ++ rewrite clean_cons_newline by assumption. exact IH.
        -- split; [eauto|]. left. now apply clean_cons_other.
Qed.

Lemma mod4_add4 n : ((4 + n) mod 4 = n mod 4)%nat.
Proof.
  replace (4 + n)%nat with (n + 1 * 4)%nat by lia. apply Nat.Div0.mod_add.
Qed.

(** The decoder accepts exactly the inputs that, CR and LF apart, are
    unpadded standard base64; every error is a [CorruptInputError]. *)
Lemma Decode_loop_spec fuel : forall src si,
  (List.length src <= fuel)%nat ->
  match base64.Decode_loop fuel src si with
  | Ok _ => accepted src
  | Fail e => (exists off, e = CorruptInputError off) /\ ~ accepted src
  end.
Proof.
  induction fuel as [|fuel IH]; intros src si Hfuel.
  - destruct src; [|cbn in Hfuel; lia]. cbn. split; [reflexivity | cbn; lia].
  - destruct src as [|c src]; [cbn; split; [reflexivity | cbn; lia]|].
    cbn [base64.Decode_loop].
    pose proof (decodeQuantum_spec (c :: src) si [] ltac:(cbn; lia)) as HQ.
    destruct (base64.decodeQuantum (c :: src) si []) as [[[out rest] si']|e];
      cbn [bind].
    + destruct HQ as (consumed & Hsrc & Hall & Hcount & Hne).
      cbn [List.length Nat.add] in Hcount, Hne.
      specialize (Hne ltac:(lia) ltac:(discriminate)).
      assert (Hrest : (List.length rest <= fuel)%nat).
      { assert (Hl : List.length (c :: src) = List.length (consumed ++ rest))
          by now rewrite Hsrc.
        rewrite length_app in Hl. cbn [List.length] in Hl, Hfuel.
        destruct consumed; [contradiction | cbn [List.length] in Hl; lia]. }
      specialize (IH rest si' Hrest). rewrite Hsrc. unfold accepted in *.
      rewrite clean_app, forallb_app, length_app, Hall. cbn [andb].
      destruct (base64.Decode_loop fuel rest si') as [tail|e]; cbn [bind].
      * destruct IH as [IH1 IH2]. split; [assumption|].
        destruct Hcount as [Hcount|(-> & Hlt & Hne1)].
        -- rewrite Hcount, mod4_add4. assumption.
        -- cbn [clean filter List.length]. rewrite Nat.add_0_r.
           rewrite Nat.mod_small by lia. assumption.
      * destruct IH as [Hoff IH]. split; [assumption|].
        intros [H1 H2]. apply IH. split; [assumption|].
        destruct Hcount as [Hcount|(-> & _)].
        -- now rewrite Hcount, mod4_add4 in H2.
        -- cbn. lia.
    + destruct HQ as (Hoff & Hbad). split; [assumption|].
      unfold accepted. intros [H1 H2].
      destruct Hbad as [Hbad|[_ Hcount]]; [congruence|].
      cbn [List.length Nat.add] in Hcount. rewrite Hcount in H2. now apply H2.
Qed.

Lemma string_length_of_list l :
  String.length (string_of_list_ascii l) = List.length l.
Proof. induction l as [|c l IH]; cbn; congruence. Qed.

Lemma valid_raw_std_accepted s :
  valid_raw_std (strip_newlines s) = true <-> accepted (list_ascii_of_string s).
Proof.
  unfold valid_raw_std, strip_newlines, accepted. fold (clean (list_ascii_of_string s)).
  rewrite list_ascii_of_string_of_list_ascii, string_length_of_list.
  rewrite andb_true_iff, negb_true_iff, Nat.eqb_neq. reflexivity.
Qed.

Lemma DecodeString_spec s :
  match base64.DecodeString s with
  | Ok _ => valid_raw_std (strip_newlines s) = true
  | Fail e =>
    (exists off, e = CorruptInputError off)
    /\ valid_raw_std (strip_newlines s) = false
  end.
Proof.
  unfold base64.DecodeString, base64.Decode.
  pose proof (Decode_loop_spec (List.length (list_ascii_of_string s))
                (list_ascii_of_string s) 0 (le_n _)) as H.
  destruct (base64.Decode_loop _ _ 0) as [out|e].
  - now apply valid_raw_std_accepted.
  - destruct H as [Hoff H]. split; [assumption|].
    apply not_true_is_false. intros Hv. apply H.
    now apply valid_raw_std_accepted.
Qed.

Lemma DecodeString_invalid s :
  valid_raw_std (strip_newlines s) = false ->
  exists off, base64.DecodeString s = Fail (CorruptInputError off).
Proof.
  intros H. pose proof (DecodeString_spec s) as HS.
  destruct (base64.DecodeString s) as [out|e].
  - congruence.
  - destruct HS as [[off ->] _]. eauto.
Qed.

Lemma DecodeString_error s e :
  base64.DecodeString s = Fail e -> exists off, e = CorruptInputError off.
Proof.
  intros H. pose proof (DecodeString_spec s) as HS. rewrite H in HS. tauto.
Qed.

Lemma DecodeString_valid s :
  valid_raw_std (strip_newlines s) = true ->
  exists out, base64.DecodeString s = Ok out.
Proof.
  intros H. pose proof (DecodeString_spec s) as HS.
  destruct (base64.DecodeString s) as [out|e]; [eauto|].
  destruct HS as [_ HS]. congruence.
Qed.

(** ** Comparing in constant time *)

Lemma log2_byte a : 0 <= a < 256 -> Z.log2 a < 8.
Proof.
  intros H. destruct (Z.eq_dec a 0) as [->|Hne]; [reflexivity|].
  apply Z.log2_lt_pow2; [lia|]. change (2 ^ 8) with 256. lia.
Qed.

Lemma byte_of_log2 a : 0 <= a -> Z.log2 a < 8 -> 0 <= a < 256.
Proof.
  intros H0 H. split; [assumption|].
  destruct (Z.eq_dec a 0) as [->|Hne]; [lia|].
  change 256 with (2 ^ 8). apply Z.log2_lt_pow2; lia.
Qed.

Lemma lor_byte a b : 0 <= a < 256 -> 0 <= b < 256 -> 0 <= Z.lor a b < 256.
Proof.
  intros Ha Hb. apply byte_of_log2.
  - apply Z.lor_nonneg. lia.
  - rewrite Z.log2_lor by lia.
    apply Z.max_lub_lt; now apply log2_byte.
Qed.

Lemma lxor_byte a b : 0 <= a < 256 -> 0 <= b < 256 -> 0 <= Z.lxor a b < 256.
Proof.
  intros Ha Hb. apply byte_of_log2.
  - apply Z.lxor_nonneg. lia.
  - eapply Z.le_lt_trans; [apply Z.log2_lxor; lia|].
    apply Z.max_lub_lt; now apply log2_byte.
Qed.

Lemma ConstantTimeCompare_loop_range x : forall y v,
  0 <= v < 256 -> 0 <= subtle.ConstantTimeCompare_loop x y v < 256.
Proof.
  induction x as [|xi x IH]; intros y v Hv; cbn [subtle.ConstantTimeCompare_loop].
  - assumption.
  - destruct y as [|yi y]; [assumption|].
    apply IH. apply lor_byte; [assumption|].
    apply lxor_byte; apply byte_val_range.
Qed.

Lemma ConstantTimeCompare_loop_zero x : forall y v,
  List.length x = List.length y -> 0 <= v ->
  subtle.ConstantTimeCompare_loop x y v = 0 <-> v = 0 /\ x = y.
Proof.
  induction x as [|xi x IH]; intros y v Hlen Hv;
    destruct y as [|yi y]; try discriminate Hlen;
    cbn [subtle.ConstantTimeCompare_loop].
  - tauto.
  - injection Hlen as Hlen. rewrite IH.
    + rewrite Z.lor_eq_0_iff, Z.lxor_eq_0_iff. split.
      * intros [[H1 H2] H3]. apply byte_val_inj in H2. subst. auto.
      * intros [H1 H2]. injection H2 as -> ->. auto.
    + assumption.
    + apply Z.lor_nonneg. split; [assumption|].
      apply Z.lxor_nonneg. pose proof (byte_val_range xi).
      pose proof (byte_val_range yi). lia.
Qed.

Lemma ConstantTimeByteEq_zero v :
  0 <= v < 256 ->
  subtle.ConstantTimeByteEq v 0 = if v =? 0 then 1 else 0.
Proof.
  intros Hv. unfold subtle.ConstantTimeByteEq. rewrite Z.lxor_0_r.
  rewrite Z.shiftr_div_pow2 by lia.
  change (2 ^ 32) with 4294967296. change (2 ^ 31) with 2147483648.
  destruct (Z.eqb_spec v 0) as [->|Hne]; [reflexivity|].
  rewrite Z.mod_small by lia. apply Z.div_small. lia.
Qed.

Lemma ConstantTimeCompare_eq x : subtle.ConstantTimeCompare x x = 1.
Proof.
  unfold subtle.ConstantTimeCompare. rewrite Nat.eqb_refl. cbn [negb].
  assert (H : subtle.ConstantTimeCompare_loop x x 0 = 0)
    by (apply ConstantTimeCompare_loop_zero; auto; lia).
  rewrite H. reflexivity.
Qed.

Lemma ConstantTimeCompare_neq x y : x <> y -> subtle.ConstantTimeCompare x y = 0.
Proof.
  intros Hne. unfold subtle.ConstantTimeCompare.
  destruct (Nat.eqb_spec (List.length x) (List.length y)) as [Hlen|Hlen];
    [|reflexivity].
  cbn [negb].
  rewrite ConstantTimeByteEq_zero by (apply ConstantTimeCompare_loop_range; lia).
  destruct (Z.eqb_spec (subtle.ConstantTimeCompare_loop x y 0) 0) as [H|H];
    [|reflexivity].
  apply ConstantTimeCompare_loop_zero in H; [tauto | assumption | lia].
Qed.

(** * The package *)

(** ** The checks of [decodeHash], one after the other *)

Lemma decodeHash_segments_ne s :
  segments s <> 6%nat -> decodeHash s = Fail ErrInvalidHash.
Proof.
  unfold segments, decodeHash. intros H. cbv zeta.
  destruct (Nat.eqb_spec (List.length (strings.Split s "$"%char)) 6);
    [contradiction | reflexivity].
Qed.

Lemma decodeHash_version_fail s e :
  segments s = 6%nat -> scanVersion (segment 2 s) = Fail e ->
  decodeHash s = Fail ErrInvalidHash.
Proof.
  unfold segments, segment, scanVersion, decodeHash. intros Hn Hv. cbv zeta.
  rewrite Hn, Hv. reflexivity.
Qed.

Lemma decodeHash_version_other s vs :
  segments s = 6%nat -> scanVersion (segment 2 s) = Ok vs ->
  nth 0 vs 0 <> argon2.Version ->
  decodeHash s = Fail ErrIncompatibleVersion.
Proof.
  unfold segments, segment, scanVersion, decodeHash. intros Hn Hv Hne. cbv zeta.
  rewrite Hn, Hv. cbn [Nat.eqb negb].
  destruct (Z.eqb_spec (nth 0 vs 0) argon2.Version); [contradiction | reflexivity].
Qed.

Lemma decodeHash_mode_unsupported s vs :
  segments s = 6%nat -> scanVersion (segment 2 s) = Ok vs ->
  nth 0 vs 0 = argon2.Version ->
  ~ supported_mode (segment 1 s) ->
  decodeHash s = Fail ErrUnsupportedMode.
Proof.
  unfold segments, segment, scanVersion, supported_mode, decodeHash.
  intros Hn Hv Heq Hmode. cbv zeta.
  rewrite Hn, Hv, Heq. cbn [Nat.eqb negb]. rewrite Z.eqb_refl. cbn [negb].
  destruct (String.eqb_spec (nth 1 (strings.Split s "$"%char) EmptyString) ModeArgon2id);
    [tauto|].
  destruct (String.eqb_spec (nth 1 (strings.Split s "$"%char) EmptyString) ModeArgon2i);
    [tauto|].
  reflexivity.
Qed.

Lemma decodeHash_fields s vs :
  segments s = 6%nat -> scanVersion (segment 2 s) = Ok vs ->
  nth 0 vs 0 = argon2.Version ->
  supported_mode (segment 1 s) ->
  decodeHash s =
  decodeFields (segment 1 s) (segment 3 s) (segment 4 s) (segment 5 s).
Proof.
  unfold segments, segment, scanVersion, supported_mode, decodeHash, decodeFields.
  intros Hn Hv Heq Hmode. cbv zeta.
  rewrite Hn, Hv, Heq. cbn [Nat.eqb negb]. rewrite Z.eqb_refl. cbn [negb].
  replace (negb (nth 1 (strings.Split s "$"%char) EmptyString =? ModeArgon2id)%string
           && negb (nth 1 (strings.Split s "$"%char) EmptyString =? ModeArgon2i)%string)
    with false; [reflexivity|].
  destruct Hmode as [-> | ->]; reflexivity.
Qed.

(** Every way [decodeHash] can go. *)
Lemma decodeHash_cases s :
  decodeHash s = Fail ErrInvalidHash
  \/ decodeHash s = Fail ErrIncompatibleVersion
  \/ decodeHash s = Fail ErrUnsupportedMode
  \/ (segments s = 6%nat
      /\ (exists vs, scanVersion (segment 2 s) = Ok vs /\ nth 0 vs 0 = argon2.Version)
      /\ supported_mode (segment 1 s)
      /\ decodeHash s =
         decodeFields (segment 1 s) (segment 3 s) (segment 4 s) (segment 5 s)).
Proof.
  destruct (Nat.eq_dec (segments s) 6) as [Hn|Hn];
    [|left; now apply decodeHash_segments_ne].
  destruct (scanVersion (segment 2 s)) as [vs|e] eqn:Hv;
    [|left; now apply decodeHash_version_fail with e].
  destruct (Z.eq_dec (nth 0 vs 0) argon2.Version) as [Heq|Hne];
    [|right; left; now apply decodeHash_version_other with vs].
  destruct (String.eqb_spec (segment 1 s) ModeArgon2id) as [H1|H1].
  - right; right; right. repeat split; eauto.
    + now left.
    + apply decodeHash_fields with vs; auto. now left.
  - destruct (String.eqb_spec (segment 1 s) ModeArgon2i) as [H2|H2].
    + right; right; right. repeat split; eauto.
      * now right.
      * apply decodeHash_fields with vs; auto. now right.
    + right; right; left. apply decodeHash_mode_unsupported with vs; auto.
      unfold supported_mode. tauto.
Qed.

Lemma decodeFields_ok mode seg3 seg4 seg5 p salt hash :
  decodeFields mode seg3 seg4 seg5 = Ok (p, salt, hash) ->
  exists scanned,
    scanParams seg3 = Ok scanned
    /\ Memory p = nth 0 scanned 0 /\ Iterations p = nth 1 scanned 0
    /\ Parallelism p = nth 2 scanned 0
    /\ 1 <= Memory p /\ 1 <= Iterations p /\ 1 <= Parallelism p
    /\ Mode p = mode
    /\ base64.DecodeString seg4 = Ok salt
    /\ base64.DecodeString seg5 = Ok hash
    /\ SaltLength p = uint32 (Z.of_nat (List.length salt))
    /\ KeyLength p = uint32 (Z.of_nat (List.length hash)).
Proof.
  unfold decodeFields.
  destruct (scanParams seg3) as [scanned|e]; [|discriminate].
  cbv zeta.
  destruct ((nth 0 scanned 0 <? 1) || (nth 1 scanned 0 <? 1) || (nth 2 scanned 0 <? 1))
    eqn:Hpos; [discriminate|].
  destruct (base64.DecodeString seg4) as [salt'|e]; [|discriminate].
  destruct (base64.DecodeString seg5) as [hash'|e]; [|discriminate].
  intros H. inversion H; subst; clear H. exists scanned. cbn.
  apply orb_false_iff in Hpos as [Hpos H3].
  apply orb_false_iff in Hpos as [H1 H2].
  apply Z.ltb_ge in H1, H2, H3.
  repeat split; auto.
Qed.

(** A record that [decodeHash] returns has passed every check. *)
Lemma decodeHash_ok s p salt hash :
  decodeHash s = Ok (p, salt, hash) ->
  segments s = 6%nat
  /\ supported_mode (Mode p) /\ Mode p = segment 1 s
  /\ 1 <= Memory p /\ 1 <= Iterations p /\ 1 <= Parallelism p
  /\ base64.DecodeString (segment 4 s) = Ok salt
  /\ base64.DecodeString (segment 5 s) = Ok hash.
Proof.
  intros H.
  destruct (decodeHash_cases s) as [E|[E|[E|(Hn & _ & Hm & E)]]];
    try (rewrite E in H; discriminate).
  rewrite E in H. apply decodeFields_ok in H.
  destruct H as (scanned & _ & _ & _ & _ & ? & ? & ? & Hmode & ? & ? & _).
  rewrite Hmode. repeat split; auto.
Qed.

(** ** The two scans of [decodeHash] on what [encodeHash] writes *)

Lemma scanVersion_written n e :
  0 <= n < 2 ^ 63 -> trailing_text e = true ->
  scanVersion ("v=" ++ strconv.fmt_d n ++ e) = Ok [n].
Proof.
  intros Hn He. unfold scanVersion, fmt.Sscanf.
  change (utf8.runes "v=%d") with [118; 61; 37; 100].
  change ("v=" ++ strconv.fmt_d n ++ e)%string
    with (String "v"%char (String "="%char (strconv.fmt_d n ++ e))).
  rewrite !runes_cons_ascii by (cbn; lia).
  rewrite runes_app_ascii by (apply digits_ascii_only, fmt_d_digits; lia).
  change (byte_val "v"%char) with 118. change (byte_val "="%char) with 61.
  pose proof (trailing_text_stops e He) as Hstop.
  destruct (fmt_d_head n) as (d & ds & E & Hd & Hds); [lia|].
  cbn [fmt.doScanf fmt.input fmt.buf Z.eqb Pos.eqb].
  unfold fmt.SkipSpace. cbn [fmt.input fmt.buf].
  rewrite E. cbn [app]. rewrite digit_SkipSpace by assumption.
  cbn [bind]. unfold fmt.scanOne. cbn [fmt.input].
  change (d :: ds ++ utf8.runes e) with ((d :: ds) ++ utf8.runes e).
  rewrite <- E. rewrite scanInt_digits by assumption.
  reflexivity.
Qed.

Lemma doScanf_literal c format a rest b :
  c <> 37 ->
  fmt.doScanf (c :: format) a (fmt.mkss (c :: rest) b)
  = fmt.doScanf format a (fmt.mkss rest b).
Proof.
  intros H. cbn [fmt.doScanf fmt.input fmt.buf].
  destruct (Z.eqb_spec c 37); [contradiction|]. now rewrite Z.eqb_refl.
Qed.

Lemma scanOne_digits arg n rest b :
  0 <= n < 2 ^ operand_bits arg -> stops rest ->
  fmt.scanOne arg (fmt.mkss (codes (strconv.fmt_d n) ++ rest) b)
  = Ok (n, fmt.mkss rest (codes (strconv.fmt_d n))).
Proof.
  intros Hn Hrest. unfold fmt.scanOne. cbn [fmt.input].
  destruct arg; cbn [operand_bits] in Hn.
  - now apply scanInt_digits.
  - apply scanUint_digits; auto.
  - apply scanUint_digits; auto.
Qed.

Lemma doScanf_verb format arg a n rest b :
  0 <= n < 2 ^ operand_bits arg -> stops rest ->
  fmt.doScanf (37 :: 100 :: format) (arg :: a)
              (fmt.mkss (codes (strconv.fmt_d n) ++ rest) b)
  = (vs <- fmt.doScanf format a (fmt.mkss rest (codes (strconv.fmt_d n))) ;;
     Ok (n :: vs)).
Proof.
  intros Hn Hrest.
  pose proof (scanOne_digits arg n rest b Hn Hrest) as Hscan.
  destruct (fmt_d_head n) as (d & ds & E & Hd & Hds);
    [destruct arg; cbn in Hn; lia|].
  cbn [fmt.doScanf]. rewrite !Z.eqb_refl.
  unfold fmt.SkipSpace. cbn [fmt.input fmt.buf].
  rewrite E in *. cbn [app] in *. rewrite digit_SkipSpace by assumption.
  cbn [bind]. rewrite Hscan. reflexivity.
Qed.

Lemma scanParams_written m t p e :
  0 <= m < 2 ^ 32 -> 0 <= t < 2 ^ 32 -> 0 <= p < 2 ^ 8 ->
  trailing_text e = true ->
  scanParams ("m=" ++ strconv.fmt_d m ++ ",t=" ++ strconv.fmt_d t
                   ++ ",p=" ++ strconv.fmt_d p ++ e)
  = Ok [m; t; p].
Proof.
  intros Hm Ht Hp He. unfold scanParams, fmt.Sscanf.
  change (utf8.runes "m=%d,t=%d,p=%d")
    with [109; 61; 37; 100; 44; 116; 61; 37; 100; 44; 112; 61; 37; 100].
  pose proof (trailing_text_stops e He) as Hstop.
  assert (Hcomma : forall rs, stops (44 :: rs))
    by (intros rs; cbn; unfold digit_code; lia).
  cbn [String.append].
  rewrite !runes_cons_ascii by (cbn; lia).
  rewrite runes_app_ascii by (apply digits_ascii_only, fmt_d_digits; lia).
  rewrite !runes_cons_ascii by (cbn; lia).
  rewrite runes_app_ascii by (apply digits_ascii_only, fmt_d_digits; lia).
  rewrite !runes_cons_ascii by (cbn; lia).
  rewrite runes_app_ascii by (apply digits_ascii_only, fmt_d_digits; lia).
  change (byte_val "m"%char) with 109. change (byte_val "="%char) with 61.
  change (byte_val ","%char) with 44. change (byte_val "t"%char) with 116.
  change (byte_val "p"%char) with 112.
  rewrite !doScanf_literal by lia.
  rewrite (doScanf_verb _ fmt.uint32_ptr) by (cbn [operand_bits]; auto).
  rewrite !doScanf_literal by lia.
  rewrite (doScanf_verb _ fmt.uint32_ptr) by (cbn [operand_bits]; auto).
  rewrite !doScanf_literal by lia.
  rewrite (doScanf_verb _ fmt.uint8_ptr) by (cbn [operand_bits]; auto).
  reflexivity.
Qed.

(** ** What a successful scan has read *)

Lemma ParseUint_loop_range s : forall n r,
  0 <= n < 2 ^ 64 -> strconv.ParseUint_loop s n = Ok r -> 0 <= r < 2 ^ 64.
Proof.
  induction s as [|c s IH]; intros n r Hn; cbn [strconv.ParseUint_loop].
  - intros H. injection H as <-. assumption.
  - destruct ((48 <=? c) && (c <=? 57)); [|discriminate].
    destruct (strconv.maxUint64 / 10 + 1 <=? n); [discriminate|].
    destruct ((_ <? _) || (_ <? _)); [discriminate|].
    apply IH. apply Z.mod_pos_bound. lia.
Qed.

Lemma ParseUint_range s r : strconv.ParseUint s = Ok r -> 0 <= r < 2 ^ 64.
Proof.
  unfold strconv.ParseUint. destruct s; [discriminate|].
  apply ParseUint_loop_range. change (2 ^ 64) with 18446744073709551616. lia.
Qed.

Lemma scanUint_range bits s v s' :
  bits = 8 \/ bits = 32 ->
  fmt.scanUint bits s = Ok (v, s') -> 0 <= v < 2 ^ bits.
Proof.
  intros Hbits. unfold fmt.scanUint.
  destruct (fmt.SkipSpace s) as [s1|e]; [|discriminate]. cbn [bind].
  destruct (fmt.notEOF s1); [|discriminate]. cbn [bind].
  destruct (fmt.scanNumber fmt.decimalDigits s1) as [[tok s2]|e]; [|discriminate].
  cbn [bind].
  destruct (strconv.ParseUint tok) as [i|e] eqn:Hparse; [|discriminate].
  apply ParseUint_range in Hparse.
  destruct (Z.eqb_spec (Z.shiftr (Z.shiftl i (64 - bits) mod 2 ^ 64) (64 - bits)) i)
    as [Hfit|]; [|discriminate].
  intros H. injection H as <- _.
  split; [lia|].
  rewrite Z.shiftl_mul_pow2, Z.shiftr_div_pow2 in Hfit
    by (destruct Hbits; subst; lia).
  rewrite <- Hfit.
  destruct Hbits; subst.
  - change (64 - 8) with 56.
    pose proof (Z.mod_pos_bound (i * 2 ^ 56) (2 ^ 64) ltac:(lia)).
    apply Z.div_lt_upper_bound; [lia|].
    change (2 ^ 56 * 2 ^ 8) with (2 ^ 64). lia.
  - change (64 - 32) with 32.
    pose proof (Z.mod_pos_bound (i * 2 ^ 32) (2 ^ 64) ltac:(lia)).
    apply Z.div_lt_upper_bound; [lia|].
    change (2 ^ 32 * 2 ^ 32) with (2 ^ 64). lia.
Qed.

Lemma doScanf_literal_inv c format a s vs :
  c <> 37 ->
  fmt.doScanf (c :: format) a s = Ok vs ->
  exists rest,
    fmt.input s = c :: rest
    /\ fmt.doScanf format a (fmt.mkss rest (fmt.buf s)) = Ok vs.
Proof.
  intros Hc. cbn [fmt.doScanf]. destruct (Z.eqb_spec c 37); [contradiction|].
  destruct (fmt.input s) as [|inputc rest]; [discriminate|].
  destruct (Z.eqb_spec c inputc) as [<-|]; [|discriminate]. eauto.
Qed.

Lemma doScanf_verb_inv format arg a s vs :
  fmt.doScanf (37 :: 100 :: format) (arg :: a) s = Ok vs ->
  exists s1 v s2 vs',
    fmt.SkipSpace s = Ok s1 /\ fmt.scanOne arg s1 = Ok (v, s2)
    /\ fmt.doScanf format a s2 = Ok vs' /\ vs = v :: vs'.
Proof.
  cbn [fmt.doScanf]. rewrite !Z.eqb_refl.
  destruct (fmt.SkipSpace s) as [s1|e]; [|discriminate]. cbn [bind].
  destruct (fmt.scanOne arg s1) as [[v s2]|e] eqn:E1; [|discriminate].
  cbn [bind].
  destruct (fmt.doScanf format a s2) as [vs'|e] eqn:E2; [|discriminate].
  cbn [bind].
  intros H. injection H as <-. exists s1, v, s2, vs'. auto.
Qed.

(** The scan of the parameter segment gives three values, each within
    the type of its field. *)
Lemma scanParams_inv seg vs :
  scanParams seg = Ok vs ->
  exists m t p,
    vs = [m; t; p]
    /\ 0 <= m < 2 ^ 32 /\ 0 <= t < 2 ^ 32 /\ 0 <= p < 2 ^ 8.
Proof.
  unfold scanParams, fmt.Sscanf.
  change (utf8.runes "m=%d,t=%d,p=%d")
    with [109; 61; 37; 100; 44; 116; 61; 37; 100; 44; 112; 61; 37; 100].
  intros H.
  apply doScanf_literal_inv in H as (r1 & _ & H); [|lia].
  apply doScanf_literal_inv in H as (r2 & _ & H); [|lia].
  apply doScanf_verb_inv in H as (sa & m & sb & vs1 & _ & Hm & H & ->).
  apply doScanf_literal_inv in H as (r3 & _ & H); [|lia].
  apply doScanf_literal_inv in H as (r4 & _ & H); [|lia].
  apply doScanf_literal_inv in H as (r5 & _ & H); [|lia].
  apply doScanf_verb_inv in H as (sc & t & sd & vs2 & _ & Ht & H & ->).
  apply doScanf_literal_inv in H as (r6 & _ & H); [|lia].
  apply doScanf_literal_inv in H as (r7 & _ & H); [|lia].
  apply doScanf_literal_inv in H as (r8 & _ & H); [|lia].
  apply doScanf_verb_inv in H as (se & p & sf & vs3 & _ & Hp & H & ->).
  cbn [fmt.doScanf] in H. injection H as <-.
  exists m, t, p. unfold fmt.scanOne in *.
  apply scanUint_range in Hm, Ht, Hp; auto.
Qed.

(** ** What the verb [%d] reads *)

Lemma isSpace_10 : fmt.isSpace 10 = true.
Proof. reflexivity. Qed.

Lemma isSpace_13 : fmt.isSpace 13 = true.
Proof. reflexivity. Qed.

Lemma SkipSpace_loop_unspaced rs : unspaced rs -> fmt.SkipSpace_loop rs = Ok rs.
Proof.
  destruct rs as [|r rest]; [reflexivity|]. cbn [unspaced fmt.SkipSpace_loop].
  intros H.
  destruct (Z.eqb_spec r 13) as [->|_]; [rewrite isSpace_13 in H; discriminate|].
  destruct (Z.eqb_spec r 10) as [->|_]; [rewrite isSpace_10 in H; discriminate|].
  cbn [andb]. now rewrite H.
Qed.

Lemma SkipSpace_loop_blanks blanks : forall rs,
  Forall blank blanks -> unspaced rs ->
  fmt.SkipSpace_loop (blanks ++ rs) = Ok rs.
Proof.
  induction blanks as [|b blanks IH]; intros rs Hb Hrs; cbn [app].
  - now apply SkipSpace_loop_unspaced.
  - inversion Hb as [|? ? [Hsp Hnl] Hb']; subst. cbn [fmt.SkipSpace_loop].
    destruct ((b =? 13) && fmt.peek [10] (blanks ++ rs)); [now apply IH|].
    destruct (Z.eqb_spec b 10); [contradiction|].
    rewrite Hsp. cbn [negb]. now apply IH.
Qed.

Lemma SkipSpace_loop_inv rs : forall rs',
  fmt.SkipSpace_loop rs = Ok rs' ->
  exists blanks, rs = blanks ++ rs' /\ Forall blank blanks /\ unspaced rs'.
Proof.
  induction rs as [|r rest IH]; intros rs'; cbn [fmt.SkipSpace_loop].
  - intros H. injection H as <-. exists []. repeat split. constructor.
  - destruct ((r =? 13) && fmt.peek [10] rest) eqn:Hcr.
    + intros H. apply IH in H as (blanks & -> & Hb & Hu).
      apply andb_true_iff in Hcr as [Hr _]. apply Z.eqb_eq in Hr. subst r.
      exists (13 :: blanks). repeat split; auto.
      constructor; [|assumption]. split; [reflexivity | lia].
    + destruct (Z.eqb_spec r 10) as [->|Hnl]; [discriminate|].
      destruct (fmt.isSpace r) eqn:Hsp; cbn [negb].
      * intros H. apply IH in H as (blanks & -> & Hb & Hu).
        exists (r :: blanks). repeat split; auto.
        constructor; [|assumption]. now split.
      * intros H. injection H as <-. exists []. repeat split; [constructor|].
        exact Hsp.
Qed.

Lemma decimal_from_ge ds : forall n,
  Forall digit_code ds -> 0 <= n -> n <= decimal_from n ds.
Proof.
  unfold decimal_from.
  induction ds as [|d ds IH]; intros n Hds Hn; cbn [fold_left]; [lia|].
  inversion Hds as [|? ? Hd Hds']; subst. unfold digit_code in Hd.
  specialize (IH (10 * n + (d - 48)) Hds' ltac:(lia)). lia.
Qed.

Lemma ParseUint_loop_value ds : forall n,
  Forall digit_code ds -> 0 <= n < 2 ^ 64 ->
  strconv.ParseUint_loop ds n
  = if decimal_from n ds <? 2 ^ 64 then Ok (decimal_from n ds) else Fail strconv.ErrRange.
Proof.
  induction ds as [|d ds IH]; intros n Hds Hn.
  - cbn [strconv.ParseUint_loop decimal_from fold_left].
    unfold decimal_from. cbn [fold_left].
    destruct (Z.ltb_spec n (2 ^ 64)); [reflexivity | lia].
  - inversion Hds as [|? ? Hd Hds']; subst.
    pose proof (decimal_from_ge ds (10 * n + (d - 48)) Hds') as Hge.
    assert (Hd' := Hd). unfold digit_code in Hd'.
    cbn [strconv.ParseUint_loop].
    replace ((48 <=? d) && (d <=? 57)) with true
      by (symmetry; apply andb_true_intro; split; apply Z.leb_le; lia).
    change (decimal_from n (d :: ds)) with (decimal_from (10 * n + (d - 48)) ds).
    unfold strconv.maxUint64.
    change (2 ^ 64 - 1) with 18446744073709551615.
    change (18446744073709551615 / 10 + 1) with 1844674407370955162.
    change (2 ^ 64) with 18446744073709551616 in *.
    destruct (Z.leb_spec 1844674407370955162 n).
    + destruct (Z.ltb_spec (decimal_from (10 * n + (d - 48)) ds) 18446744073709551616);
        [lia | reflexivity].
    + destruct (Z.ltb_spec (10 * n + (d - 48)) 18446744073709551616) as [Hlt|Hge'].
      * replace (n * 10 + (d - 48)) with (10 * n + (d - 48)) by lia.
        rewrite Z.mod_small by lia.
        destruct (Z.ltb_spec (10 * n + (d - 48)) (n * 10)); [lia|].
        destruct (Z.ltb_spec 18446744073709551615 (10 * n + (d - 48))); [lia|].
        cbn [orb]. apply IH; [assumption | lia].
      * replace ((n * 10 + (d - 48)) mod 18446744073709551616)
          with (n * 10 + (d - 48) - 18446744073709551616).
        2:{ apply Z.mod_unique with 1; lia. }
        destruct (Z.ltb_spec (n * 10 + (d - 48) - 18446744073709551616) (n * 10)); [|lia].
        cbn [orb].
        destruct (Z.ltb_spec (decimal_from (10 * n + (d - 48)) ds) 18446744073709551616);
          [lia | reflexivity].
Qed.

Lemma ParseUint_value ds :
  ds <> [] -> Forall digit_code ds ->
  strconv.ParseUint ds
  = if decimal_value ds <? 2 ^ 64 then Ok (decimal_value ds) else Fail strconv.ErrRange.
Proof.
  intros Hne Hds. unfold strconv.ParseUint, decimal_value.
  destruct ds as [|d ds]; [contradiction|].
  apply ParseUint_loop_value; [assumption|].
  change (2 ^ 64) with 18446744073709551616. lia.
Qed.

Lemma decimal_value_nonneg ds : Forall digit_code ds -> 0 <= decimal_value ds.
Proof. intros H. apply (decimal_from_ge ds 0 H). lia. Qed.

Lemma indexRune_digit r :
  fmt.indexRune fmt.decimalDigits r = true -> digit_code r.
Proof.
  intros H. destruct (Z.le_gt_cases 48 r) as [Hlo|Hlo].
  - destruct (Z.le_gt_cases r 57) as [Hhi|Hhi].
    + unfold digit_code. lia.
    + rewrite not_digit_indexRune in H; [discriminate | unfold digit_code; lia].
  - rewrite not_digit_indexRune in H; [discriminate | unfold digit_code; lia].
Qed.

Lemma accept_loop_split (rs : list Z) : forall b : list Z,
  exists ds rest,
    rs = ds ++ rest /\ Forall digit_code ds /\ stops rest
    /\ fmt.accept_loop fmt.decimalDigits rs b = fmt.mkss rest (b ++ ds).
Proof.
  induction rs as [|r rs IH]; intros b; cbn [fmt.accept_loop]; unfold fmt.rune.
  - exists [], []. rewrite !app_nil_r. repeat split. constructor.
  - destruct (fmt.indexRune fmt.decimalDigits r) eqn:Hr.
    + destruct (IH (b ++ [r])) as (ds & rest & -> & Hds & Hrest & E).
      exists (r :: ds), rest. rewrite E, <- app_assoc. repeat split; auto.
      constructor; [now apply indexRune_digit | assumption].
    + exists [], (r :: rs). rewrite !app_nil_r. repeat split; [constructor|].
      cbn [stops]. intros Hd. apply digit_indexRune in Hd. congruence.
Qed.

Lemma scanNumber_inv (rs b tok : list Z) s' :
  fmt.scanNumber fmt.decimalDigits (fmt.mkss rs b) = Ok (tok, s') ->
  exists ds rest,
    rs = ds ++ rest /\ ds <> [] /\ Forall digit_code ds /\ stops rest
    /\ tok = b ++ ds /\ s' = fmt.mkss rest (b ++ ds).
Proof.
  unfold fmt.scanNumber, fmt.notEOF, fmt.accept. cbn [fmt.input fmt.buf].
  destruct rs as [|r rs]; [discriminate|]. cbn [bind].
  destruct (fmt.indexRune fmt.decimalDigits r) eqn:Hr; cbn [negb]; [|discriminate].
  cbn [fmt.input fmt.buf]. unfold fmt.rune.
  destruct (accept_loop_split rs (b ++ [r])) as (ds & rest & -> & Hds & Hrest & E).
  rewrite E. cbn [fmt.buf]. intros H. injection H as <- <-.
  exists (r :: ds), rest. rewrite <- app_assoc. repeat split; auto.
  - discriminate.
  - constructor; [now apply indexRune_digit | assumption].
Qed.

Lemma indexRune_sign r :
  fmt.indexRune fmt.sign r = true -> r = 43 \/ r = 45.
Proof.
  unfold fmt.indexRune, fmt.sign. cbn [existsb].
  destruct (Z.eqb_spec r 43); [auto|]. destruct (Z.eqb_spec r 45); [auto|].
  discriminate.
Qed.

Ltac compare_all :=
  repeat match goal with
         | |- context [?a <=? ?b] => destruct (Z.leb_spec a b)
         | |- context [?a <? ?b] => destruct (Z.ltb_spec a b)
         end;
  cbn [andb orb negb]; try reflexivity; try lia.

Lemma ParseInt_value sgn ds :
  sgn = [] \/ sgn = [43] \/ sgn = [45] ->
  ds <> [] -> Forall digit_code ds ->
  strconv.ParseInt (sgn ++ ds)
  = if (- 2 ^ 63 <=? signed_value sgn ds) && (signed_value sgn ds <? 2 ^ 63)
    then Ok (signed_value sgn ds) else Fail strconv.ErrRange.
Proof.
  intros Hsgn Hne Hds.
  pose proof (ParseUint_value ds Hne Hds) as Hparse.
  pose proof (decimal_value_nonneg ds Hds) as Hpos.
  unfold signed_value.
  change (2 ^ 63) with 9223372036854775808 in *.
  change (2 ^ 64) with 18446744073709551616 in *.
  destruct Hsgn as [->|[->| ->]]; cbn [app existsb orb].
  - destruct ds as [|d ds']; [contradiction|].
    inversion Hds as [|? ? Hd _]; subst. unfold digit_code in Hd.
    unfold strconv.ParseInt.
    destruct (Z.eqb_spec d 45); [lia|]. destruct (Z.eqb_spec d 43); [lia|].
    cbn [orb negb andb]. rewrite Hparse.
    change (2 ^ 63) with 9223372036854775808.
    compare_all.
  - unfold strconv.ParseInt.
    change (43 =? 45) with false. change (43 =? 43) with true.
    change (45 =? 43) with false.
    cbn [orb negb andb]. rewrite Hparse.
    change (2 ^ 63) with 9223372036854775808.
    compare_all.
  - unfold strconv.ParseInt.
    change (45 =? 45) with true. change (45 =? 43) with false.
    cbn [orb negb andb]. rewrite Hparse.
    change (2 ^ 63) with 9223372036854775808.
    compare_all.
Qed.

Lemma int64_fits i :
  - 2 ^ 63 <= i < 2 ^ 63 ->
  Z.shiftr (fmt.wrap_int64 (Z.shiftl i (64 - fmt.intBits))) (64 - fmt.intBits) = i.
Proof.
  intros Hi. unfold fmt.intBits. change (64 - 64) with 0.
  rewrite Z.shiftl_0_r, Z.shiftr_0_r. unfold fmt.wrap_int64.
  change (2 ^ 63) with 9223372036854775808 in *.
  change (2 ^ 64) with 18446744073709551616.
  rewrite Z.mod_small by lia. lia.
Qed.

Lemma unspaced_number (sgn ds rest : list Z) :
  sgn = [] \/ sgn = [43] \/ sgn = [45] ->
  ds <> [] -> Forall digit_code ds ->
  unspaced (sgn ++ ds ++ rest).
Proof.
  intros Hsgn Hne Hds. destruct Hsgn as [->|[->| ->]]; try reflexivity.
  destruct ds as [|d ds']; [contradiction|].
  inversion Hds as [|? ? Hd _]; subst. cbn [app unspaced].
  each_digit Hd; reflexivity.
Qed.

Lemma scanInt_reads (sgn ds rest : list Z) :
  sgn = [] \/ sgn = [43] \/ sgn = [45] ->
  ds <> [] -> Forall digit_code ds -> stops rest ->
  - 2 ^ 63 <= signed_value sgn ds < 2 ^ 63 ->
  fmt.scanInt fmt.intBits (fmt.mkss (sgn ++ ds ++ rest) [])
  = Ok (signed_value sgn ds, fmt.mkss rest (sgn ++ ds)).
Proof.
  intros Hsgn Hne Hds Hrest Hfit.
  pose proof (ParseInt_value sgn ds Hsgn Hne Hds) as Hparse.
  replace ((- 2 ^ 63 <=? signed_value sgn ds) && (signed_value sgn ds <? 2 ^ 63))
    with true in Hparse
    by (symmetry; apply andb_true_intro; split; [apply Z.leb_le | apply Z.ltb_lt]; lia).
  pose proof (unspaced_number sgn ds rest Hsgn Hne Hds) as Hun.
  unfold fmt.scanInt, fmt.SkipSpace. cbn [fmt.input fmt.buf].
  rewrite SkipSpace_loop_unspaced by assumption. cbn [bind].
  destruct ds as [|d ds']; [contradiction|].
  inversion Hds as [|? ? Hd Hds']; subst.
  unfold fmt.notEOF, fmt.accept. cbn [fmt.input fmt.buf].
  destruct Hsgn as [->|[->| ->]]; cbn [app bind] in *.
  - rewrite digit_not_sign by assumption.
    rewrite scanNumber_digits by assumption. cbn [bind app].
    unfold fmt.rune in *. rewrite Hparse, int64_fits, Z.eqb_refl by assumption. reflexivity.
  - change (fmt.indexRune fmt.sign 43) with true. cbv iota.
    rewrite scanNumber_digits by assumption. cbn [bind app].
    unfold fmt.rune in *. rewrite Hparse, int64_fits, Z.eqb_refl by assumption. reflexivity.
  - change (fmt.indexRune fmt.sign 45) with true. cbv iota.
    rewrite scanNumber_digits by assumption. cbn [bind app].
    unfold fmt.rune in *. rewrite Hparse, int64_fits, Z.eqb_refl by assumption. reflexivity.
Qed.

Lemma scanInt_inv s v s2 :
  fmt.buf s = [] ->
  fmt.scanInt fmt.intBits s = Ok (v, s2) ->
  reads fmt.int_ptr (fmt.input s) v (fmt.input s2).
Proof.
  destruct s as [rs b]. cbn [fmt.buf fmt.input]. intros ->.
  unfold fmt.scanInt, fmt.SkipSpace. cbn [fmt.input fmt.buf].
  destruct (fmt.SkipSpace_loop rs) as [rs1|e] eqn:Hskip; [|discriminate].
  apply SkipSpace_loop_inv in Hskip as (blanks & -> & Hblanks & _).
  cbn [bind]. unfold fmt.notEOF, fmt.accept. cbn [fmt.input fmt.buf].
  destruct rs1 as [|r rs1]; [discriminate|]. cbn [bind].
  destruct (fmt.indexRune fmt.sign r) eqn:Hr.
  - destruct (fmt.scanNumber fmt.decimalDigits (fmt.mkss rs1 ([] ++ [r])))
      as [[tok s3]|e] eqn:Hnum; [|discriminate].
    apply scanNumber_inv in Hnum as (ds & rest & -> & Hne & Hds & Hrest & -> & ->).
    cbn [bind app].
    assert (Hsgn : [r] = [] \/ [r] = [43] \/ [r] = [45])
      by (apply indexRune_sign in Hr as [->| ->]; auto).
    unfold fmt.rune in *.
    rewrite (ParseInt_value [r] ds Hsgn Hne Hds : strconv.ParseInt (r :: ds) = _).
    destruct ((- 2 ^ 63 <=? signed_value [r] ds) && (signed_value [r] ds <? 2 ^ 63))
      eqn:Hfit; [|discriminate].
    apply andb_true_iff in Hfit as [Hlo Hhi].
    apply Z.leb_le in Hlo. apply Z.ltb_lt in Hhi.
    rewrite int64_fits, Z.eqb_refl by lia.
    intros H. injection H as <- <-. cbn [fmt.input].
    exists blanks, [r], ds. repeat split; auto; try lia.
    right. split; [reflexivity|]. apply indexRune_sign in Hr as [->| ->]; auto.
  - destruct (fmt.scanNumber fmt.decimalDigits (fmt.mkss (r :: rs1) []))
      as [[tok s3]|e] eqn:Hnum; [|discriminate].
    apply scanNumber_inv in Hnum as (ds & rest & E & Hne & Hds & Hrest & -> & ->).
    cbn [bind app].
    unfold fmt.rune in *.
    rewrite (ParseInt_value [] ds (or_introl eq_refl) Hne Hds : strconv.ParseInt ds = _).
    destruct ((- 2 ^ 63 <=? signed_value [] ds) && (signed_value [] ds <? 2 ^ 63))
      eqn:Hfit; [|discriminate].
    apply andb_true_iff in Hfit as [Hlo Hhi].
    apply Z.leb_le in Hlo. apply Z.ltb_lt in Hhi.
    rewrite int64_fits, Z.eqb_refl by lia.
    intros H. injection H as <- <-. cbn [fmt.input].
    exists blanks, [], ds. cbn [app]. rewrite E.
    repeat split; auto; try lia. now left.
Qed.

Lemma scanUint_reads bits (ds rest : list Z) :
  bits = 8 \/ bits = 32 ->
  ds <> [] -> Forall digit_code ds -> stops rest ->
  decimal_value ds < 2 ^ bits ->
  fmt.scanUint bits (fmt.mkss (ds ++ rest) [])
  = Ok (decimal_value ds, fmt.mkss rest ds).
Proof.
  intros Hbits Hne Hds Hrest Hfit.
  pose proof (decimal_value_nonneg ds Hds) as Hpos.
  pose proof (ParseUint_value ds Hne Hds) as Hparse.
  assert (H64 : decimal_value ds < 2 ^ 64).
  { destruct Hbits; subst; change (2 ^ 8) with 256 in *;
      change (2 ^ 32) with 4294967296 in *; change (2 ^ 64) with 18446744073709551616; lia. }
  apply Z.ltb_lt in H64. rewrite H64 in Hparse.
  pose proof (unspaced_number [] ds rest (or_introl eq_refl) Hne Hds) as Hun.
  cbn [app] in Hun.
  unfold fmt.scanUint, fmt.SkipSpace. cbn [fmt.input fmt.buf].
  rewrite SkipSpace_loop_unspaced by assumption. cbn [bind].
  destruct ds as [|d ds']; [contradiction|].
  inversion Hds as [|? ? Hd Hds']; subst.
  unfold fmt.notEOF. cbn [fmt.input fmt.buf app bind].
  rewrite scanNumber_digits by assumption. cbn [bind app].
  unfold fmt.rune in *. rewrite Hparse, uint_fits, Z.eqb_refl by (auto; lia). reflexivity.
Qed.

Lemma scanUint_inv bits s v s2 :
  bits = 8 \/ bits = 32 ->
  fmt.buf s = [] ->
  fmt.scanUint bits s = Ok (v, s2) ->
  exists blanks ds,
    fmt.input s = blanks ++ ds ++ fmt.input s2
    /\ Forall blank blanks
    /\ ds <> [] /\ Forall digit_code ds /\ stops (fmt.input s2)
    /\ v = decimal_value ds /\ 0 <= v < 2 ^ bits.
Proof.
  intros Hbits Hbuf Hscan.
  pose proof (scanUint_range bits s v s2 Hbits Hscan) as Hrange.
  revert Hscan. destruct s as [rs b]. cbn [fmt.buf fmt.input] in *. subst b.
  unfold fmt.scanUint, fmt.SkipSpace. cbn [fmt.input fmt.buf].
  destruct (fmt.SkipSpace_loop rs) as [rs1|e] eqn:Hskip; [|discriminate].
  apply SkipSpace_loop_inv in Hskip as (blanks & -> & Hblanks & _).
  cbn [bind]. destruct (fmt.notEOF _); [|discriminate]. cbn [bind].
  destruct (fmt.scanNumber fmt.decimalDigits (fmt.mkss rs1 []))
    as [[tok s3]|e] eqn:Hnum; [|discriminate].
  apply scanNumber_inv in Hnum as (ds & rest & -> & Hne & Hds & Hrest & -> & ->).
  cbn [bind app]. unfold fmt.rune in *. rewrite (ParseUint_value ds Hne Hds).
  destruct (decimal_value ds <? 2 ^ 64); [|discriminate].
  destruct (_ =? _); [|discriminate].
  intros H. injection H as <- <-. cbn [fmt.input].
  exists blanks, ds. repeat split; auto; lia.
Qed.

Lemma scanOne_sound arg s v s2 :
  fmt.scanOne arg s = Ok (v, s2) -> reads arg (fmt.input s) v (fmt.input s2).
Proof.
  unfold fmt.scanOne. destruct arg; intros H.
  - apply scanInt_inv in H; [exact H | reflexivity].
  - apply scanUint_inv in H as (blanks & ds & E & ? & ? & ? & ? & ? & ?); auto.
    cbn [fmt.input] in E. exists blanks, [], ds. cbn [app fits].
    repeat split; auto; try lia. now left.
  - apply scanUint_inv in H as (blanks & ds & E & ? & ? & ? & ? & ? & ?); auto.
    cbn [fmt.input] in E. exists blanks, [], ds. cbn [app fits].
    repeat split; auto; try lia. now left.
Qed.

Lemma sign_for_cases arg sgn :
  sign_for arg sgn -> sgn = [] \/ sgn = [43] \/ sgn = [45].
Proof. unfold sign_for. tauto. Qed.

Lemma scanOne_reads arg (sgn ds rest b : list Z) :
  sign_for arg sgn ->
  ds <> [] -> Forall digit_code ds -> stops rest ->
  fits arg (signed_value sgn ds) ->
  fmt.scanOne arg (fmt.mkss (sgn ++ ds ++ rest) b)
  = Ok (signed_value sgn ds, fmt.mkss rest (sgn ++ ds)).
Proof.
  intros Hsgn Hne Hds Hrest Hfit. unfold fmt.scanOne. cbn [fmt.input].
  destruct arg; cbn [fits] in Hfit.
  - apply scanInt_reads; auto. now apply sign_for_cases with fmt.int_ptr.
  - destruct Hsgn as [->|[Habs _]]; [|discriminate].
    cbn [app]. apply scanUint_reads; auto. apply Hfit.
  - destruct Hsgn as [->|[Habs _]]; [|discriminate].
    cbn [app]. apply scanUint_reads; auto. apply Hfit.
Qed.

(** The verb [%d] of a format reads a number, and only a number. *)
Lemma doScanf_verb_reads format arg a (rs : list Z) v (rest b : list Z) :
  reads arg rs v rest ->
  exists tok,
    fmt.doScanf (37 :: 100 :: format) (arg :: a) (fmt.mkss rs b)
    = (vs <- fmt.doScanf format a (fmt.mkss rest tok) ;; Ok (v :: vs)).
Proof.
  intros (blanks & sgn & ds & -> & Hblanks & Hsgn & Hne & Hds & Hrest & -> & Hfit).
  exists (sgn ++ ds).
  cbn [fmt.doScanf]. rewrite !Z.eqb_refl.
  unfold fmt.SkipSpace. cbn [fmt.input fmt.buf].
  rewrite SkipSpace_loop_blanks;
    [|assumption | apply unspaced_number; auto; now apply sign_for_cases with arg].
  cbn [bind]. rewrite scanOne_reads by assumption. reflexivity.
Qed.

Lemma reads_blanks arg blanks rs v rest :
  Forall blank blanks -> reads arg rs v rest -> reads arg (blanks ++ rs) v rest.
Proof.
  intros Hb (blanks' & sgn & ds & -> & Hblanks & H).
  exists (blanks ++ blanks'), sgn, ds. rewrite <- app_assoc.
  split; [reflexivity|]. split; [|exact H].
  apply Forall_app. now split.
Qed.

Lemma doScanf_verb_read format arg a s vs :
  fmt.doScanf (37 :: 100 :: format) (arg :: a) s = Ok vs ->
  exists v rest tok vs',
    reads arg (fmt.input s) v rest
    /\ fmt.doScanf format a (fmt.mkss rest tok) = Ok vs'
    /\ vs = v :: vs'.
Proof.
  intros H.
  apply doScanf_verb_inv in H as (s1 & v & s2 & vs' & Hskip & Hone & Hrest & ->).
  apply scanOne_sound in Hone.
  unfold fmt.SkipSpace in Hskip.
  destruct (fmt.SkipSpace_loop (fmt.input s)) as [rs1|e] eqn:E; [|discriminate].
  cbn [bind] in Hskip. injection Hskip as <-. cbn [fmt.input] in Hone.
  apply SkipSpace_loop_inv in E as (blanks & E & Hblanks & _).
  exists v, (fmt.input s2), (fmt.buf s2), vs'. rewrite E.
  split; [now apply reads_blanks|]. split; [|reflexivity].
  destruct s2. exact Hrest.
Qed.

(** ** The segments that the two scans of [decodeHash] accept *)

Lemma version_form_scan seg v :
  version_form seg v <-> scanVersion seg = Ok [v].
Proof.
  unfold version_form, scanVersion, fmt.Sscanf.
  change (utf8.runes "v=%d") with [118; 61; 37; 100].
  split.
  - intros (after & rest & -> & Hreads).
    rewrite !doScanf_literal by lia.
    destruct (doScanf_verb_reads [] fmt.int_ptr [] after v rest [] Hreads) as (tok & E).
    exact E.
  - intros H.
    apply doScanf_literal_inv in H as (r1 & E1 & H); [|lia].
    apply doScanf_literal_inv in H as (r2 & E2 & H); [|lia].
    apply doScanf_verb_read in H as (v' & rest & tok & vs' & Hreads & H & E).
    cbn [fmt.doScanf] in H. injection H as <-. injection E as <-.
    cbn [fmt.input] in *. subst. eauto.
Qed.

Lemma scanVersion_one seg vs : scanVersion seg = Ok vs -> exists v, vs = [v].
Proof.
  unfold scanVersion, fmt.Sscanf.
  change (utf8.runes "v=%d") with [118; 61; 37; 100]. intros H.
  apply doScanf_literal_inv in H as (r1 & _ & H); [|lia].
  apply doScanf_literal_inv in H as (r2 & _ & H); [|lia].
  apply doScanf_verb_inv in H as (sa & v & sb & vs1 & _ & _ & H & ->).
  cbn [fmt.doScanf] in H. injection H as <-. eauto.
Qed.

Lemma params_form_scan seg m t p :
  params_form seg m t p <-> scanParams seg = Ok [m; t; p].
Proof.
  unfold params_form, scanParams, fmt.Sscanf.
  change (utf8.runes "m=%d,t=%d,p=%d")
    with [109; 61; 37; 100; 44; 116; 61; 37; 100; 44; 112; 61; 37; 100].
  split.
  - intros (am & at' & ap & rest & -> & Hm & Ht & Hp).
    rewrite !doScanf_literal by lia.
    destruct (doScanf_verb_reads [44; 116; 61; 37; 100; 44; 112; 61; 37; 100]
                fmt.uint32_ptr [fmt.uint32_ptr; fmt.uint8_ptr] am m _ [] Hm) as (tok1 & E1).
    etransitivity; [exact E1|]. clear E1.
    rewrite !doScanf_literal by lia.
    destruct (doScanf_verb_reads [44; 112; 61; 37; 100]
                fmt.uint32_ptr [fmt.uint8_ptr] at' t _ tok1 Ht) as (tok2 & E2).
    rewrite E2. clear E2.
    rewrite !doScanf_literal by lia.
    destruct (doScanf_verb_reads [] fmt.uint8_ptr [] ap p rest tok2 Hp) as (tok3 & E3).
    rewrite E3. reflexivity.
  - intros H.
    apply doScanf_literal_inv in H as (r1 & E1 & H); [|lia].
    apply doScanf_literal_inv in H as (r2 & E2 & H); [|lia].
    apply doScanf_verb_read in H as (m' & rest1 & tok1 & vs1 & Hm & H & E).
    injection E as <- <-.
    apply doScanf_literal_inv in H as (r3 & E3 & H); [|lia].
    apply doScanf_literal_inv in H as (r4 & E4 & H); [|lia].
    apply doScanf_literal_inv in H as (r5 & E5 & H); [|lia].
    apply doScanf_verb_read in H as (t' & rest2 & tok2 & vs2 & Ht & H & E).
    injection E as <- <-.
    apply doScanf_literal_inv in H as (r6 & E6 & H); [|lia].
    apply doScanf_literal_inv in H as (r7 & E7 & H); [|lia].
    apply doScanf_literal_inv in H as (r8 & E8 & H); [|lia].
    apply doScanf_verb_read in H as (p' & rest3 & tok3 & vs3 & Hp & H & E).
    injection E as <- <-.
    cbn [fmt.input fmt.buf] in *. subst.
    exists r2, r5, r8, rest3. auto.
Qed.

(** ** Decoding what was encoded, with text after the numbers *)

Lemma append_nil_r (s : string) : (s ++ "")%string = s.
Proof. induction s as [|c s IH]; cbn; congruence. Qed.

Lemma encodeHash_join mode m t p salt hash :
  encodeHash mode m t p salt hash
  = join (pieces EmptyString mode EmptyString m t p EmptyString salt hash).
Proof.
  unfold encodeHash, pieces, join. cbn [String.append].
  rewrite !append_nil_r. do 4 f_equal.
  rewrite !append_assoc. cbn [String.append]. do 4 f_equal.
  rewrite !append_assoc. cbn [String.append]. reflexivity.
Qed.

Lemma mode_no_separator mode :
  supported_mode mode -> strings.Count mode "$"%char = 0%nat.
Proof. intros [-> | ->]; reflexivity. Qed.

Lemma Count_cons c s sep :
  strings.Count (String c s) sep
  = ((if Ascii.eqb c sep then 1 else 0) + strings.Count s sep)%nat.
Proof. reflexivity. Qed.

Lemma pieces_no_separator seg0 mode e2 m t p e3 salt hash :
  strings.Count seg0 "$"%char = 0%nat -> supported_mode mode ->
  strings.Count e2 "$"%char = 0%nat -> strings.Count e3 "$"%char = 0%nat ->
  0 <= m -> 0 <= t -> 0 <= p ->
  Forall (fun x => strings.Count x "$"%char = 0%nat)
         (pieces seg0 mode e2 m t p e3 salt hash).
Proof.
  intros H0 Hmode H2 H3 Hm Ht Hp. unfold pieces.
  repeat constructor; auto using mode_no_separator, EncodeToString_no_separator.
  - cbn [String.append].
    repeat (rewrite Count_cons || rewrite Count_app).
    rewrite H3, !digits_no_separator by (apply fmt_d_digits; lia).
    reflexivity.
Qed.

(** What [decodeHash] makes of the six pieces: the scans give back the
    numbers that were written, and the decoder the salt and the key. *)
Lemma decodeHash_pieces_any seg0 mode e2 m t p e3 salt hash :
  strings.Count seg0 "$"%char = 0%nat -> supported_mode mode ->
  strings.Count e2 "$"%char = 0%nat -> trailing_text e2 = true ->
  strings.Count e3 "$"%char = 0%nat -> trailing_text e3 = true ->
  0 <= m < 2 ^ 32 -> 0 <= t < 2 ^ 32 -> 0 <= p < 2 ^ 8 ->
  decodeHash (join (pieces seg0 mode e2 m t p e3 salt hash))
  = if (m <? 1) || (t <? 1) || (p <? 1) then Fail ErrInvalidHash
    else Ok ({| Memory := m; Iterations := t; Parallelism := p;
                SaltLength := uint32 (Z.of_nat (List.length salt));
                KeyLength := uint32 (Z.of_nat (List.length hash));
                Mode := mode |}, salt, hash).
Proof.
  intros H0 Hmode H2 T2 H3 T3 Hm Ht Hp.
  assert (Hsplit : strings.Split (join (pieces seg0 mode e2 m t p e3 salt hash)) "$"%char
                   = pieces seg0 mode e2 m t p e3 salt hash).
  { unfold pieces at 1. apply Split_join.
    apply pieces_no_separator; auto; lia. }
  assert (Hv : scanVersion ("v=" ++ strconv.fmt_d argon2.Version ++ e2) = Ok [argon2.Version])
    by (apply scanVersion_written;
        [unfold argon2.Version; change (2 ^ 63) with 9223372036854775808; lia
        | assumption]).
  rewrite (decodeHash_fields _ [argon2.Version]).
  2:{ unfold segments. now rewrite Hsplit. }
  2:{ unfold segment. rewrite Hsplit. exact Hv. }
  2:reflexivity.
  2:{ unfold segment. rewrite Hsplit. exact Hmode. }
  unfold segment. rewrite Hsplit. cbn [pieces nth].
  unfold decodeFields.
  rewrite scanParams_written by auto. cbn [nth].
  destruct ((m <? 1) || (t <? 1) || (p <? 1)); [reflexivity|].
  now rewrite !DecodeString_EncodeToString.
Qed.

Lemma decodeHash_pieces seg0 mode e2 m t p e3 salt hash :
  strings.Count seg0 "$"%char = 0%nat -> supported_mode mode ->
  strings.Count e2 "$"%char = 0%nat -> trailing_text e2 = true ->
  strings.Count e3 "$"%char = 0%nat -> trailing_text e3 = true ->
  1 <= m < 2 ^ 32 -> 1 <= t < 2 ^ 32 -> 1 <= p < 2 ^ 8 ->
  decodeHash (join (pieces seg0 mode e2 m t p e3 salt hash))
  = Ok ({| Memory := m; Iterations := t; Parallelism := p;
           SaltLength := uint32 (Z.of_nat (List.length salt));
           KeyLength := uint32 (Z.of_nat (List.length hash));
           Mode := mode |}, salt, hash).
Proof.
  intros H0 Hmode H2 T2 H3 T3 Hm Ht Hp.
  rewrite decodeHash_pieces_any by (auto; lia).
  destruct (Z.ltb_spec m 1); [lia|]. destruct (Z.ltb_spec t 1); [lia|].
  destruct (Z.ltb_spec p 1); [lia|]. reflexivity.
Qed.

(** ** Hashing, then verifying *)

(** A decode error is returned as it is, with no match. *)
Lemma Verify_decode_error Key IDKey password s e :
  decodeHash s = Fail e -> Verify Key IDKey password s = (false, Some e).
Proof. unfold Verify. now intros ->. Qed.

Lemma exampleKDF_key_length tag : argon2.key_length_ok (exampleKDF tag).
Proof.
  intros password salt time memory threads keyLen H. unfold exampleKDF.
  rewrite length_firstn. cbn [List.length]. rewrite !length_app, repeat_length.
  lia.
Qed.

Section HashVerify.

Variables Key IDKey : argon2.KDF.
Variable rand_Read : Z -> res error (list byte).
Hypothesis Key_length : argon2.key_length_ok Key.
Hypothesis IDKey_length : argon2.key_length_ok IDKey.

Lemma deriveKey_length mode password salt p key :
  0 <= KeyLength p ->
  deriveKey Key IDKey mode password salt p = Ok key ->
  Z.of_nat (List.length key) = KeyLength p.
Proof.
  intros Hk. unfold deriveKey.
  destruct (String.eqb mode ModeArgon2i).
  - intros H. injection H as <-. now apply Key_length.
  - destruct (String.eqb mode ModeArgon2id); [|discriminate].
    intros H. injection H as <-. now apply IDKey_length.
Qed.

Lemma deriveKey_supported mode password salt p key :
  deriveKey Key IDKey mode password salt p = Ok key -> supported_mode mode.
Proof.
  unfold deriveKey, supported_mode.
  destruct (String.eqb_spec mode ModeArgon2i); [auto|].
  destruct (String.eqb_spec mode ModeArgon2id); [auto | discriminate].
Qed.

(** [deriveKey] reads the cost parameters and the key length only. *)
Lemma deriveKey_ext mode password salt p q :
  Iterations p = Iterations q -> Memory p = Memory q ->
  Parallelism p = Parallelism q -> KeyLength p = KeyLength q ->
  deriveKey Key IDKey mode password salt p
  = deriveKey Key IDKey mode password salt q.
Proof. unfold deriveKey. now intros -> -> -> ->. Qed.

Lemma HashWithParams_inv password p s :
  HashWithParams Key IDKey rand_Read password p = Ok s ->
  exists salt key,
    rand_Read (SaltLength p) = Ok salt
    /\ deriveKey Key IDKey (resolveMode (Mode p)) password salt p = Ok key
    /\ s = encodeHash (resolveMode (Mode p)) (Memory p) (Iterations p)
                      (Parallelism p) salt key.
Proof.
  unfold HashWithParams, resolveMode.
  destruct (rand_Read (SaltLength p)) as [salt|e]; [|discriminate].
  cbn [bind].
  destruct (deriveKey Key IDKey _ password salt p) as [key|e] eqn:Hk;
    [|discriminate].
  cbn [bind]. intros H. injection H as <-. eauto.
Qed.

Lemma Verify_encodeHash password password' p salt key key' :
  Params_in_range p ->
  1 <= Memory p -> 1 <= Iterations p -> 1 <= Parallelism p ->
  deriveKey Key IDKey (resolveMode (Mode p)) password salt p = Ok key ->
  deriveKey Key IDKey (resolveMode (Mode p)) password' salt p = Ok key' ->
  Verify Key IDKey password'
         (encodeHash (resolveMode (Mode p)) (Memory p) (Iterations p)
                     (Parallelism p) salt key)
  = (if subtle.ConstantTimeCompare key key' =? 1 then (true, None)
     else (false, None)).
Proof.
  intros (Hm & Ht & Hp & Hs & Hk) Hm1 Ht1 Hp1 Hkey Hkey'.
  pose proof (deriveKey_supported _ _ _ _ _ Hkey) as Hmode.
  unfold Verify. rewrite encodeHash_join, decodeHash_pieces by (auto; lia).
  cbn [Mode].
  replace (if String.eqb (resolveMode (Mode p)) EmptyString
           then ModeArgon2id else resolveMode (Mode p))
    with (resolveMode (Mode p))
    by (destruct Hmode as [-> | ->]; reflexivity).
  rewrite (deriveKey_ext _ _ _ _ p); cbn [Iterations Memory Parallelism KeyLength];
    auto.
  - now rewrite Hkey'.
  - assert (Hlen : Z.of_nat (List.length key) = KeyLength p)
      by (eapply deriveKey_length; [lia | exact Hkey]).
    rewrite Hlen. unfold uint32. apply Z.mod_small. lia.
Qed.

(** The hasher does not check the cost parameters: with one of them
    below 1 it still returns a string (when the random source and the mode
    allow), and that string is rejected by [Verify], whatever the
    password. *)
Lemma Verify_cost_below_1 password password' p s :
  Params_in_range p ->
  Memory p < 1 \/ Iterations p < 1 \/ Parallelism p < 1 ->
  HashWithParams Key IDKey rand_Read password p = Ok s ->
  Verify Key IDKey password' s = (false, Some ErrInvalidHash).
Proof.
  intros (Hm & Ht & Hp & _) Hlow Hhash.
  apply HashWithParams_inv in Hhash as (salt & key & _ & Hkey & ->).
  pose proof (deriveKey_supported _ _ _ _ _ Hkey) as Hmode.
  apply Verify_decode_error.
  rewrite encodeHash_join, decodeHash_pieces_any by auto.
  replace ((Memory p <? 1) || (Iterations p <? 1) || (Parallelism p <? 1))
    with true; [reflexivity|].
  symmetry. rewrite !orb_true_iff, !Z.ltb_lt. tauto.
Qed.

End HashVerify.

(** ** The tests of the package, on the model *)

Example TestVerifyInvalidHash :
  Verify exampleKey exampleIDKey "password" "invalid_hash_string"
  = (false, Some ErrInvalidHash).
Proof. reflexivity. Qed.

Example TestVerifyEmptyHash :
  Verify exampleKey exampleIDKey "password" "" = (false, Some ErrInvalidHash).
Proof. reflexivity. Qed.

Example TestVerifyMalformedBase64Salt :
  Verify exampleKey exampleIDKey "password"
    "$argon2id$v=19$m=65536,t=1,p=4$invalid!!!base64$dGVzdGhhc2g"
  = (false, Some (CorruptInputError 7)).
Proof. reflexivity. Qed.

Example TestVerifyMalformedBase64Hash :
  Verify exampleKey exampleIDKey "password"
    "$argon2id$v=19$m=65536,t=1,p=4$dGVzdHNhbHQ$invalid!!!base64"
  = (false, Some (CorruptInputError 7)).
Proof. reflexivity. Qed.

Example TestVerifyIncompatibleVersion :
  Verify exampleKey exampleIDKey "password"
    "$argon2id$v=18$m=65536,t=1,p=4$dGVzdHNhbHQ$dGVzdGhhc2g"
  = (false, Some ErrIncompatibleVersion).
Proof. reflexivity. Qed.

Example TestVerifyZeroMemory :
  Verify exampleKey exampleIDKey "password"
    "$argon2id$v=19$m=0,t=1,p=4$dGVzdHNhbHQ$dGVzdGhhc2g"
  = (false, Some ErrInvalidHash).
Proof. reflexivity. Qed.

Example TestVerifyUnsupportedMode :
  Verify exampleKey exampleIDKey "password"
    "$argon2d$v=19$m=65536,t=1,p=4$dGVzdHNhbHQ$dGVzdGhhc2g"
  = (false, Some ErrUnsupportedMode).
Proof. reflexivity. Qed.

Example TestVerifyArgon2i :
  HashWithParams exampleKey exampleIDKey exampleRand "password"
    (mkParams (32 * 1024) 2 2 4 8 "argon2i")
  = Ok "$argon2i$v=19$m=32768,t=2,p=2$c3Nzcw$aXBhc3N3b3I"%string
  /\ Verify exampleKey exampleIDKey "password"
       "$argon2i$v=19$m=32768,t=2,p=2$c3Nzcw$aXBhc3N3b3I"
     = (true, None).
Proof. split; reflexivity. Qed.

(** * The claims *)

(** ** C1: verifying what was hashed *)

(** C1 as stated fails. [HashWithParams] does not check the cost
    parameters, [decodeHash] does: with [Memory] 0 the hasher returns a
    string that [Verify] rejects with [ErrInvalidHash], for the password
    that was hashed. And a different password is rejected only when its
    key differs: with the stand-in key-derivation function and a key of
    one byte, another password verifies. *)
Lemma zero_memory_counterexample :
  argon2.key_length_ok exampleKey /\ argon2.key_length_ok exampleIDKey
  /\ HashWithParams exampleKey exampleIDKey exampleRand "password"
       (mkParams 0 1 1 4 8 "")
     = Ok "$argon2id$v=19$m=0,t=1,p=1$c3Nzcw$ZHBhc3N3b3I"%string
  /\ Verify exampleKey exampleIDKey "password"
       "$argon2id$v=19$m=0,t=1,p=1$c3Nzcw$ZHBhc3N3b3I"
     = (false, Some ErrInvalidHash)
  /\ HashWithParams exampleKey exampleIDKey exampleRand "password"
       (mkParams 65536 1 4 4 1 "argon2i")
     = Ok "$argon2i$v=19$m=65536,t=1,p=4$c3Nzcw$aQ"%string
  /\ Verify exampleKey exampleIDKey "wrong_password"
       "$argon2i$v=19$m=65536,t=1,p=4$c3Nzcw$aQ"
     = (true, None).
Proof.
  split; [apply exampleKDF_key_length|].
  split; [apply exampleKDF_key_length|].
  repeat split.
Qed.

(** C1, amended. Let the parameters be within their types with memory,
    iterations and parallelism of at least 1, and let both key-derivation
    functions return keys of the length asked for. If [HashWithParams]
    returns a string for a password, then [Verify] returns true and no
    error for that password and string; for any other password it returns
    no error, and true exactly when the key derived from the other password
    (same salt, same parameters) is the key in the string. *)
Theorem Verify_HashWithParams (Key IDKey : argon2.KDF)
    (rand_Read : Z -> res error (list byte))
    (P P' : string) (Q : Params) (S : string) :
  argon2.key_length_ok Key -> argon2.key_length_ok IDKey ->
  Params_in_range Q ->
  1 <= Memory Q -> 1 <= Iterations Q -> 1 <= Parallelism Q ->
  HashWithParams Key IDKey rand_Read P Q = Ok S ->
  Verify Key IDKey P S = (true, None)
  /\ exists salt key key',
       rand_Read (SaltLength Q) = Ok salt
       /\ deriveKey Key IDKey (resolveMode (Mode Q)) P salt Q = Ok key
       /\ deriveKey Key IDKey (resolveMode (Mode Q)) P' salt Q = Ok key'
       /\ (key' = key -> Verify Key IDKey P' S = (true, None))
       /\ (key' <> key -> Verify Key IDKey P' S = (false, None)).
Proof.
  intros HK HID Hrange Hm Ht Hp Hhash.
  apply HashWithParams_inv in Hhash as (salt & key & Hsalt & Hkey & ->).
  assert (Hkey' : exists key',
             deriveKey Key IDKey (resolveMode (Mode Q)) P' salt Q = Ok key').
  { pose proof (deriveKey_supported _ _ _ _ _ _ _ Hkey) as Hmode.
    unfold deriveKey. destruct Hmode as [-> | ->]; cbn; eauto. }
  destruct Hkey' as (key' & Hkey').
  split.
  - rewrite (Verify_encodeHash Key IDKey HK HID P P Q salt key key) by assumption.
    now rewrite ConstantTimeCompare_eq.
  - exists salt, key, key'. repeat split; try assumption.
    + intros ->.
      rewrite (Verify_encodeHash Key IDKey HK HID P P' Q salt key key) by assumption.
      now rewrite ConstantTimeCompare_eq.
    + intros Hne.
      rewrite (Verify_encodeHash Key IDKey HK HID P P' Q salt key key') by assumption.
      rewrite ConstantTimeCompare_neq by congruence. reflexivity.
Qed.

Lemma Verify_HashWithParams_witness :
  HashWithParams exampleKey exampleIDKey exampleRand
    "correct_horse_battery_staple" (DefaultParams 8)
  = Ok "$argon2id$v=19$m=65536,t=1,p=4$c3Nzc3Nzc3Nzc3Nzc3Nzcw$ZGNvcnJlY3RfaG9yc2VfYmF0dGVyeV9zdGFwbGVzc3M"%string
  /\ Verify exampleKey exampleIDKey "correct_horse_battery_staple"
       "$argon2id$v=19$m=65536,t=1,p=4$c3Nzc3Nzc3Nzc3Nzc3Nzcw$ZGNvcnJlY3RfaG9yc2VfYmF0dGVyeV9zdGFwbGVzc3M"
     = (true, None).
Proof.
  split; [reflexivity|].
  apply (Verify_HashWithParams exampleKey exampleIDKey exampleRand
           "correct_horse_battery_staple" "wrong_password" (DefaultParams 8)).
  - apply exampleKDF_key_length.
  - apply exampleKDF_key_length.
  - vm_compute. repeat split; solve [reflexivity | discriminate].
  - vm_compute. discriminate.
  - vm_compute. discriminate.
  - vm_compute. discriminate.
  - reflexivity.
Defined.

(** ** C2: decoding what the encoder wrote *)

(** C2. For a mode among [argon2id] and [argon2i], memory, iterations and
    parallelism of at least 1 (within their types [uint32], [uint32] and
    [uint8]) and any salt and key, [decodeHash] succeeds on the string of
    the encoder and gives back the same mode, memory, iterations,
    parallelism, salt bytes and key bytes (and their lengths). *)
Theorem decodeHash_encodeHash (mode : string) (m t p : Z) (salt key : list byte) :
  supported_mode mode ->
  1 <= m < 2 ^ 32 -> 1 <= t < 2 ^ 32 -> 1 <= p < 2 ^ 8 ->
  decodeHash (encodeHash mode m t p salt key)
  = Ok ({| Memory := m; Iterations := t; Parallelism := p;
           SaltLength := uint32 (Z.of_nat (List.length salt));
           KeyLength := uint32 (Z.of_nat (List.length key));
           Mode := mode |}, salt, key).
Proof.
  intros Hmode Hm Ht Hp. rewrite encodeHash_join.
  apply decodeHash_pieces; auto.
Qed.

Lemma decodeHash_encodeHash_witness :
  encodeHash "argon2i" 32768 2 2
    (list_ascii_of_string "testsalt") (list_ascii_of_string "testhash")
  = "$argon2i$v=19$m=32768,t=2,p=2$dGVzdHNhbHQ$dGVzdGhhc2g"%string
  /\ decodeHash (encodeHash "argon2i" 32768 2 2
       (list_ascii_of_string "testsalt") (list_ascii_of_string "testhash"))
     = Ok ({| Memory := 32768; Iterations := 2; Parallelism := 2;
              SaltLength := 8; KeyLength := 8; Mode := "argon2i" |},
           list_ascii_of_string "testsalt", list_ascii_of_string "testhash").
Proof.
  split; [reflexivity|].
  apply (decodeHash_encodeHash "argon2i" 32768 2 2);
    [now right | cbn; lia | cbn; lia | cbn; lia].
Defined.

(** ** C3: the mode tag *)

(** C3 as stated fails: the version segment is checked before the mode
    tag. A six-segment input with the mode [argon2d] and version 18 fails
    with [ErrIncompatibleVersion], one with an unreadable version segment
    with [ErrInvalidHash]. *)
Lemma mode_checked_after_version_counterexample :
  segments "$argon2d$v=18$m=65536,t=1,p=4$dGVzdHNhbHQ$dGVzdGhhc2g" = 6%nat
  /\ segment 1 "$argon2d$v=18$m=65536,t=1,p=4$dGVzdHNhbHQ$dGVzdGhhc2g" = "argon2d"%string
  /\ decodeHash "$argon2d$v=18$m=65536,t=1,p=4$dGVzdHNhbHQ$dGVzdGhhc2g"
     = Fail ErrIncompatibleVersion
  /\ decodeHash "$argon2d$19$m=65536,t=1,p=4$dGVzdHNhbHQ$dGVzdGhhc2g"
     = Fail ErrInvalidHash.
Proof. repeat split. Qed.

(** C3, amended. For an input of six segments whose version segment scans
    as [v=19], a mode segment other than [argon2id] and [argon2i] (for
    instance [argon2d] or the empty string) makes [decodeHash] fail with
    [ErrUnsupportedMode], whatever segments 0, 3, 4 and 5 hold. *)
Theorem decodeHash_unsupported_mode (s : string) :
  segments s = 6%nat ->
  scanVersion (segment 2 s) = Ok [argon2.Version] ->
  segment 1 s <> ModeArgon2id -> segment 1 s <> ModeArgon2i ->
  decodeHash s = Fail ErrUnsupportedMode.
Proof.
  intros Hn Hv H1 H2. apply decodeHash_mode_unsupported with [argon2.Version]; auto.
  unfold supported_mode. tauto.
Qed.

Lemma decodeHash_unsupported_mode_witness :
  decodeHash "$argon2d$v=19$m=65536,t=1,p=4$dGVzdHNhbHQ$dGVzdGhhc2g" = Fail ErrUnsupportedMode
  /\ decodeHash "$$v=19$not,scanned$!$!" = Fail ErrUnsupportedMode.
Proof.
  split; apply decodeHash_unsupported_mode;
    solve [reflexivity | vm_compute; discriminate].
Defined.

(** ** C4: parameters below 1 *)

(** C4 as stated fails on the error: the parameters are checked after the
    version and the mode. A six-segment input with [m=0] and version 18
    fails with [ErrIncompatibleVersion], one with [m=0] and the mode
    [argon2d] with [ErrUnsupportedMode]. *)
Lemma zero_cost_other_error_counterexample :
  segments "$argon2id$v=18$m=0,t=1,p=4$dGVzdHNhbHQ$dGVzdGhhc2g" = 6%nat
  /\ scanParams (segment 3 "$argon2id$v=18$m=0,t=1,p=4$dGVzdHNhbHQ$dGVzdGhhc2g")
     = Ok [0; 1; 4]
  /\ decodeHash "$argon2id$v=18$m=0,t=1,p=4$dGVzdHNhbHQ$dGVzdGhhc2g"
     = Fail ErrIncompatibleVersion
  /\ decodeHash "$argon2d$v=19$m=0,t=1,p=4$dGVzdHNhbHQ$dGVzdGhhc2g"
     = Fail ErrUnsupportedMode.
Proof. repeat split. Qed.

(** C4, amended. For an input of six segments whose parameter segment
    scans as [m], [t], [p] with one of them below 1, [decodeHash] fails;
    the error is [ErrInvalidHash] when the version segment scans as [v=19]
    and the mode is supported (an earlier check gives its own error
    otherwise). And every record that [decodeHash] returns has memory,
    iterations and parallelism of at least 1. *)
Theorem decodeHash_rejects_cost_below_1 (s : string) (m t p : Z) :
  segments s = 6%nat ->
  scanParams (segment 3 s) = Ok [m; t; p] ->
  m < 1 \/ t < 1 \/ p < 1 ->
  (exists e, decodeHash s = Fail e)
  /\ (scanVersion (segment 2 s) = Ok [argon2.Version] ->
      supported_mode (segment 1 s) ->
      decodeHash s = Fail ErrInvalidHash)
  /\ (forall s' p' salt hash,
        decodeHash s' = Ok (p', salt, hash) ->
        1 <= Memory p' /\ 1 <= Iterations p' /\ 1 <= Parallelism p').
Proof.
  intros Hn Hp Hlow.
  assert (F : decodeFields (segment 1 s) (segment 3 s) (segment 4 s) (segment 5 s)
              = Fail ErrInvalidHash).
  { unfold decodeFields. rewrite Hp. cbn [nth].
    replace ((m <? 1) || (t <? 1) || (p <? 1)) with true; [reflexivity|].
    symmetry. rewrite !orb_true_iff, !Z.ltb_lt. tauto. }
  split; [|split].
  - destruct (decodeHash_cases s) as [E|[E|[E|(_ & _ & _ & E)]]]; eauto.
    rewrite F in E. eauto.
  - intros Hv Hm. rewrite (decodeHash_fields s [argon2.Version]); auto.
  - intros s' p' salt hash H. apply decodeHash_ok in H. tauto.
Qed.

Lemma decodeHash_rejects_cost_below_1_witness :
  decodeHash "$argon2id$v=19$m=0,t=1,p=4$dGVzdHNhbHQ$dGVzdGhhc2g" = Fail ErrInvalidHash
  /\ decodeHash "$argon2id$v=19$m=65536,t=0,p=4$dGVzdHNhbHQ$dGVzdGhhc2g" = Fail ErrInvalidHash
  /\ decodeHash "$argon2id$v=19$m=65536,t=1,p=0$dGVzdHNhbHQ$dGVzdGhhc2g" = Fail ErrInvalidHash.
Proof.
  split; [|split].
  - apply (decodeHash_rejects_cost_below_1 _ 0 1 4); try reflexivity;
      [lia | now left].
  - apply (decodeHash_rejects_cost_below_1 _ 65536 0 4); try reflexivity;
      [lia | now left].
  - apply (decodeHash_rejects_cost_below_1 _ 65536 1 0); try reflexivity;
      [lia | now left].
Defined.

(** ** C5: the default parameters *)

Lemma DefaultParams_fields NumCPU :
  Memory (DefaultParams NumCPU) = 65536
  /\ Iterations (DefaultParams NumCPU) = 1
  /\ SaltLength (DefaultParams NumCPU) = 16
  /\ KeyLength (DefaultParams NumCPU) = 32
  /\ Mode (DefaultParams NumCPU) = ModeArgon2id
  /\ 0 <= Parallelism (DefaultParams NumCPU) <= 4.
Proof.
  repeat split; cbn; unfold uint8, DefaultParallelism;
    pose proof (Z.mod_pos_bound NumCPU (2 ^ 8) ltac:(lia));
    destruct (Z.ltb_spec 4 (NumCPU mod 2 ^ 8)); lia.
Qed.

(** Up to 255 processors the parallelism is the smaller of the processor
    count and 4. *)
Lemma DefaultParams_parallelism_small NumCPU :
  1 <= NumCPU <= 255 ->
  Parallelism (DefaultParams NumCPU) = Z.min NumCPU 4.
Proof.
  intros H. cbn. unfold uint8, DefaultParallelism.
  rewrite Z.mod_small by lia.
  destruct (Z.ltb_spec 4 NumCPU); lia.
Qed.

(** C5, at the failing input. With 256 processors the conversion to
    [uint8] gives 0 before the cap is applied, and nothing raises it: the
    default parallelism is 0, not between 1 and 4. With 257 processors it
    is 1, not the smaller of 257 and 4. *)
Theorem DefaultParams_256_processors :
  Parallelism (DefaultParams 256) = 0
  /\ Parallelism (DefaultParams 257) = 1
  /\ DefaultParams 256 =
     {| Memory := 65536; Iterations := 1; Parallelism := 0;
        SaltLength := 16; KeyLength := 32; Mode := "argon2id" |}.
Proof. repeat split. Qed.

(** ** C6: the shape of the version and parameter segments *)

(** C6 as stated fails, in two ways. A scan with a format matches the
    start of the segment: with [v=19x] as version segment and
    [m=1,t=1,p=1x] as parameter segment the input is decoded. And the
    parameter segment is scanned after the version and the mode are
    checked: with a parameter segment that is not of the form, another
    version gives [ErrIncompatibleVersion] and another mode gives
    [ErrUnsupportedMode]. *)
Lemma trailing_characters_counterexample :
  segments "$argon2id$v=19x$m=1,t=1,p=1x$dGVzdHNhbHQ$dGVzdGhhc2g" = 6%nat
  /\ segment 2 "$argon2id$v=19x$m=1,t=1,p=1x$dGVzdHNhbHQ$dGVzdGhhc2g" = "v=19x"%string
  /\ segment 3 "$argon2id$v=19x$m=1,t=1,p=1x$dGVzdHNhbHQ$dGVzdGhhc2g" = "m=1,t=1,p=1x"%string
  /\ decodeHash "$argon2id$v=19x$m=1,t=1,p=1x$dGVzdHNhbHQ$dGVzdGhhc2g"
     = Ok ({| Memory := 1; Iterations := 1; Parallelism := 1;
              SaltLength := 8; KeyLength := 8; Mode := "argon2id" |},
           list_ascii_of_string "testsalt", list_ascii_of_string "testhash")
  /\ segments "$argon2id$v=18$t=1,m=1$dGVzdHNhbHQ$dGVzdGhhc2g" = 6%nat
  /\ segment 3 "$argon2id$v=18$t=1,m=1$dGVzdHNhbHQ$dGVzdGhhc2g" = "t=1,m=1"%string
  /\ decodeHash "$argon2id$v=18$t=1,m=1$dGVzdHNhbHQ$dGVzdGhhc2g"
     = Fail ErrIncompatibleVersion
  /\ segments "$argon2d$v=19$t=1,m=1$dGVzdHNhbHQ$dGVzdGhhc2g" = 6%nat
  /\ segment 3 "$argon2d$v=19$t=1,m=1$dGVzdHNhbHQ$dGVzdGhhc2g" = "t=1,m=1"%string
  /\ decodeHash "$argon2d$v=19$t=1,m=1$dGVzdHNhbHQ$dGVzdGhhc2g"
     = Fail ErrUnsupportedMode.
Proof. repeat split. Qed.

(** C6, amended. For an input of six segments, [decodeHash] fails with
    [ErrInvalidHash] whenever segment 2 does not start with [v=] and a
    number for an [int], and, when it does so with the number 19 and the
    mode is [argon2id] or [argon2i], whenever segment 3 does not start with
    [m=], [,t=] and [,p=], in that order, each followed by a number for its
    field. A number is: blanks (spaces other than the newline), a sign
    where the field is signed, and decimal digits, as many as there are,
    with a value that fits the field. What follows the last number is not
    looked at. A segment 2 of this form decides the outcome of the version
    check by its number alone, and with version 19, a supported mode and a
    segment 3 of this form with numbers of at least 1, the input decodes to
    these numbers whenever salt and key decode. *)
Theorem decodeHash_segment_forms (s : string) :
  segments s = 6%nat ->
  ((forall v, ~ version_form (segment 2 s) v) ->
   decodeHash s = Fail ErrInvalidHash)
  /\ (forall v, version_form (segment 2 s) v -> v <> argon2.Version ->
      decodeHash s = Fail ErrIncompatibleVersion)
  /\ (version_form (segment 2 s) argon2.Version ->
      ~ supported_mode (segment 1 s) ->
      decodeHash s = Fail ErrUnsupportedMode)
  /\ (version_form (segment 2 s) argon2.Version ->
      supported_mode (segment 1 s) ->
      (forall m t p, ~ params_form (segment 3 s) m t p) ->
      decodeHash s = Fail ErrInvalidHash)
  /\ (forall m t p,
      version_form (segment 2 s) argon2.Version ->
      supported_mode (segment 1 s) ->
      params_form (segment 3 s) m t p ->
      1 <= m -> 1 <= t -> 1 <= p ->
      decodeHash s =
      (salt <- base64.DecodeString (segment 4 s) ;;
       hash <- base64.DecodeString (segment 5 s) ;;
       Ok ({| Memory := m; Iterations := t; Parallelism := p;
              SaltLength := uint32 (Z.of_nat (List.length salt));
              KeyLength := uint32 (Z.of_nat (List.length hash));
              Mode := segment 1 s |}, salt, hash))).
Proof.
  intros Hn. split; [|split; [|split; [|split]]].
  - intros Hno.
    destruct (scanVersion (segment 2 s)) as [vs|e] eqn:Hv;
      [|now apply decodeHash_version_fail with e].
    destruct (scanVersion_one _ _ Hv) as (v & ->).
    apply version_form_scan in Hv. now apply Hno in Hv.
  - intros v Hv Hne. apply version_form_scan in Hv.
    now apply decodeHash_version_other with [v].
  - intros Hv Hmode. apply version_form_scan in Hv.
    now apply decodeHash_mode_unsupported with [argon2.Version].
  - intros Hv Hmode Hno. apply version_form_scan in Hv.
    rewrite (decodeHash_fields s [argon2.Version]) by auto.
    unfold decodeFields.
    destruct (scanParams (segment 3 s)) as [vs|e] eqn:Hp; [|reflexivity].
    destruct (scanParams_inv _ _ Hp) as (m & t & p & -> & _).
    apply params_form_scan in Hp. now apply Hno in Hp.
  - intros m t p Hv Hmode Hp Hm Ht Hpar.
    apply version_form_scan in Hv. apply params_form_scan in Hp.
    rewrite (decodeHash_fields s [argon2.Version]) by auto.
    unfold decodeFields. rewrite Hp. cbv zeta. cbn [nth].
    destruct (Z.ltb_spec m 1); [lia|]. destruct (Z.ltb_spec t 1); [lia|].
    destruct (Z.ltb_spec p 1); [lia|]. cbn [orb].
    destruct (base64.DecodeString (segment 4 s)); [|reflexivity].
    destruct (base64.DecodeString (segment 5 s)); reflexivity.
Qed.

Lemma decodeHash_segment_forms_witness :
  decodeHash "$argon2id$v19$m=65536,t=1,p=4$dGVzdHNhbHQ$dGVzdGhhc2g"
  = Fail ErrInvalidHash
  /\ decodeHash "$argon2id$x=19$m=65536,t=1,p=4$dGVzdHNhbHQ$dGVzdGhhc2g"
     = Fail ErrInvalidHash
  /\ decodeHash "$argon2id$v=19$m=65536,p=4,t=1$dGVzdHNhbHQ$dGVzdGhhc2g"
     = Fail ErrInvalidHash
  /\ decodeHash "$argon2id$v= +19x$m=01,t= 2,p=3x$dGVzdHNhbHQ$dGVzdGhhc2g"
     = Ok ({| Memory := 1; Iterations := 2; Parallelism := 3;
              SaltLength := 8; KeyLength := 8; Mode := "argon2id" |},
           list_ascii_of_string "testsalt", list_ascii_of_string "testhash").
Proof.
  split; [|split; [|split]].
  - apply (proj1 (decodeHash_segment_forms
             "$argon2id$v19$m=65536,t=1,p=4$dGVzdHNhbHQ$dGVzdGhhc2g" eq_refl)).
    intros v (after & rest & E & _). vm_compute in E. discriminate E.
  - apply (proj1 (decodeHash_segment_forms
             "$argon2id$x=19$m=65536,t=1,p=4$dGVzdHNhbHQ$dGVzdGhhc2g" eq_refl)).
    intros v (after & rest & E & _). vm_compute in E. discriminate E.
  - apply (proj1 (proj2 (proj2 (proj2 (decodeHash_segment_forms
             "$argon2id$v=19$m=65536,p=4,t=1$dGVzdHNhbHQ$dGVzdGhhc2g" eq_refl))))).
    + apply version_form_scan. reflexivity.
    + left. reflexivity.
    + intros m t p H. apply params_form_scan in H. vm_compute in H. discriminate H.
  - apply (proj2 (proj2 (proj2 (proj2 (decodeHash_segment_forms
             "$argon2id$v= +19x$m=01,t= 2,p=3x$dGVzdHNhbHQ$dGVzdGhhc2g" eq_refl))))
             1 2 3).
    + apply version_form_scan. reflexivity.
    + left. reflexivity.
    + apply params_form_scan. reflexivity.
    + lia.
    + lia.
    + lia.
Defined.

(** ** C7: an empty mode *)

(** C7 as stated fails for decoded records: a six-segment input with an
    empty mode segment and otherwise valid segments (with [argon2id] in
    place of the empty mode it decodes) is rejected with
    [ErrUnsupportedMode], and [Verify] returns that error. *)
Lemma empty_mode_segment_counterexample :
  segments "$$v=19$m=65536,t=1,p=4$dGVzdHNhbHQ$dGVzdGhhc2g" = 6%nat
  /\ segment 1 "$$v=19$m=65536,t=1,p=4$dGVzdHNhbHQ$dGVzdGhhc2g" = EmptyString
  /\ is_ok (decodeHash "$argon2id$v=19$m=65536,t=1,p=4$dGVzdHNhbHQ$dGVzdGhhc2g") = true
  /\ decodeHash "$$v=19$m=65536,t=1,p=4$dGVzdHNhbHQ$dGVzdGhhc2g"
     = Fail ErrUnsupportedMode
  /\ Verify exampleKey exampleIDKey "password"
       "$$v=19$m=65536,t=1,p=4$dGVzdHNhbHQ$dGVzdGhhc2g"
     = (false, Some ErrUnsupportedMode).
Proof. repeat split. Qed.

(** C7, amended. A configured record with an empty mode is hashed as
    Argon2id: [HashWithParams] gives what it gives for the same record
    with the mode [argon2id]. A decoded record never has an empty mode: an
    input whose mode segment is empty is never decoded, [Verify] returns
    false with the error of [decodeHash], and that error is
    [ErrUnsupportedMode] when the input has six segments and its version
    segment scans as [v=19]. *)
Theorem empty_mode_handling (Key IDKey : argon2.KDF)
    (rand_Read : Z -> res error (list byte))
    (password : string) (p : Params) (s : string) :
  Mode p = EmptyString ->
  segment 1 s = EmptyString ->
  HashWithParams Key IDKey rand_Read password p
  = HashWithParams Key IDKey rand_Read password (with_mode p ModeArgon2id)
  /\ (exists e, decodeHash s = Fail e
                /\ Verify Key IDKey password s = (false, Some e))
  /\ (segments s = 6%nat -> scanVersion (segment 2 s) = Ok [argon2.Version] ->
      decodeHash s = Fail ErrUnsupportedMode
      /\ Verify Key IDKey password s = (false, Some ErrUnsupportedMode)).
Proof.
  intros Hp Hs.
  assert (Hbad : ~ supported_mode (segment 1 s)).
  { rewrite Hs. intros [H|H]; discriminate. }
  split; [|split].
  - unfold HashWithParams. rewrite Hp. reflexivity.
  - destruct (decodeHash_cases s) as [E|[E|[E|(_ & _ & Hm & _)]]];
      try (eexists; split; [exact E | now apply Verify_decode_error]).
    contradiction.
  - intros Hn Hv.
    assert (E : decodeHash s = Fail ErrUnsupportedMode)
      by (apply decodeHash_mode_unsupported with [argon2.Version]; auto).
    split; [exact E | now apply Verify_decode_error].
Qed.

Lemma empty_mode_handling_witness :
  HashWithParams exampleKey exampleIDKey exampleRand "password"
    (mkParams 65536 1 4 16 32 "")
  = HashWithParams exampleKey exampleIDKey exampleRand "password"
      (mkParams 65536 1 4 16 32 "argon2id")
  /\ decodeHash "$$v=19$m=65536,t=1,p=4$dGVzdHNhbHQ$dGVzdGhhc2g"
     = Fail ErrUnsupportedMode.
Proof.
  pose proof (empty_mode_handling exampleKey exampleIDKey exampleRand
                "password" (mkParams 65536 1 4 16 32 "")
                "$$v=19$m=65536,t=1,p=4$dGVzdHNhbHQ$dGVzdGhhc2g"
                eq_refl eq_refl) as (H1 & _ & H3).
  split; [exact H1|].
  exact (proj1 (H3 eq_refl eq_refl)).
Defined.

(** ** C8: the number of segments *)

(** C8. An input that does not split into exactly six pieces at ["$"]
    (fewer or more) makes [decodeHash] fail with [ErrInvalidHash]; the
    empty input is such an input, it splits into one piece. *)
Theorem decodeHash_segment_count (s : string) :
  List.length (strings.Split s "$"%char) <> 6%nat ->
  decodeHash s = Fail ErrInvalidHash.
Proof. intros H. now apply decodeHash_segments_ne. Qed.

Lemma decodeHash_segment_count_witness :
  List.length (strings.Split "" "$"%char) <> 6%nat
  /\ decodeHash "" = Fail ErrInvalidHash
  /\ decodeHash "invalid_hash_string" = Fail ErrInvalidHash
  /\ decodeHash "$argon2id$v=19$m=65536,t=1,p=4$dGVzdHNhbHQ$dGVzdGhhc2g$" = Fail ErrInvalidHash.
Proof.
  split; [vm_compute; discriminate|].
  split; [|split]; apply decodeHash_segment_count; vm_compute; discriminate.
Defined.

(** ** C9: salt and key that are not base64 *)

(** C9 as stated fails: the decoder of [encoding/base64] skips CR and LF.
    A salt segment with a line feed in it is not unpadded standard base64,
    yet the input is decoded (to the salt without the line feed), and
    [Verify] returns no error. *)
Lemma line_feed_in_salt_counterexample :
  segments hash_with_line_feed = 6%nat
  /\ valid_raw_std (segment 4 hash_with_line_feed) = false
  /\ decodeHash hash_with_line_feed
     = Ok ({| Memory := 65536; Iterations := 1; Parallelism := 4;
              SaltLength := 8; KeyLength := 8; Mode := "argon2id" |},
           list_ascii_of_string "testsalt", list_ascii_of_string "testhash")
  /\ Verify exampleKey exampleIDKey "password" hash_with_line_feed
     = (false, None).
Proof. repeat split. Qed.

(** C9, amended. Take an input of six segments with a version segment
    that scans as [v=19], a supported mode and a parameter segment that
    scans as values of at least 1. If the salt segment or the key segment,
    its CR and LF bytes left out, is not unpadded standard base64 (a byte
    outside the alphabet, or one character left over after the groups of
    four), then [decodeHash] fails with a [CorruptInputError], which is
    none of [ErrInvalidHash], [ErrIncompatibleVersion] and
    [ErrUnsupportedMode], and [Verify] returns false with that error. If
    both are, [decodeHash] succeeds. *)
Theorem decodeHash_corrupt_payload (Key IDKey : argon2.KDF)
    (password s : string) (m t p : Z) :
  segments s = 6%nat ->
  scanVersion (segment 2 s) = Ok [argon2.Version] ->
  supported_mode (segment 1 s) ->
  scanParams (segment 3 s) = Ok [m; t; p] ->
  1 <= m -> 1 <= t -> 1 <= p ->
  (valid_raw_std (strip_newlines (segment 4 s)) = false
   \/ valid_raw_std (strip_newlines (segment 5 s)) = false ->
   exists off,
     decodeHash s = Fail (CorruptInputError off)
     /\ CorruptInputError off <> ErrInvalidHash
     /\ CorruptInputError off <> ErrIncompatibleVersion
     /\ CorruptInputError off <> ErrUnsupportedMode
     /\ Verify Key IDKey password s = (false, Some (CorruptInputError off)))
  /\ (valid_raw_std (strip_newlines (segment 4 s)) = true ->
      valid_raw_std (strip_newlines (segment 5 s)) = true ->
      is_ok (decodeHash s) = true).
Proof.
  intros Hn Hv Hmode Hp Hm Ht Hp1.
  assert (Hfail : forall off,
             decodeHash s = Fail (CorruptInputError off) ->
             decodeHash s = Fail (CorruptInputError off)
             /\ CorruptInputError off <> ErrInvalidHash
             /\ CorruptInputError off <> ErrIncompatibleVersion
             /\ CorruptInputError off <> ErrUnsupportedMode
             /\ Verify Key IDKey password s = (false, Some (CorruptInputError off))).
  { intros off E. repeat split; try discriminate; auto.
    now apply Verify_decode_error. }
  assert (Hdec : decodeHash s =
                 decodeFields (segment 1 s) (segment 3 s) (segment 4 s) (segment 5 s))
    by (apply decodeHash_fields with [argon2.Version]; auto).
  unfold decodeFields in Hdec. rewrite Hp in Hdec. cbn [nth] in Hdec.
  destruct (Z.ltb_spec m 1); [lia|]. destruct (Z.ltb_spec t 1); [lia|].
  destruct (Z.ltb_spec p 1); [lia|]. cbn [orb] in Hdec.
  split.
  - intros Hbad.
    destruct (base64.DecodeString (segment 4 s)) as [salt|e] eqn:E4.
    + destruct Hbad as [Hbad|Hbad].
      * apply DecodeString_invalid in Hbad as [off Hbad]. congruence.
      * apply DecodeString_invalid in Hbad as [off Hbad].
        rewrite Hbad in Hdec. exists off. apply Hfail. exact Hdec.
    + apply DecodeString_error in E4 as Hoff. destruct Hoff as [off ->].
      exists off. apply Hfail. exact Hdec.
  - intros H4 H5.
    apply DecodeString_valid in H4 as [salt H4].
    apply DecodeString_valid in H5 as [hash H5].
    rewrite Hdec, H4, H5. reflexivity.
Qed.

Lemma decodeHash_corrupt_payload_witness :
  valid_raw_std (strip_newlines "invalid!!!base64") = false
  /\ exists off,
       decodeHash "$argon2id$v=19$m=65536,t=1,p=4$invalid!!!base64$dGVzdGhhc2g"
       = Fail (CorruptInputError off)
       /\ Verify exampleKey exampleIDKey "password"
            "$argon2id$v=19$m=65536,t=1,p=4$invalid!!!base64$dGVzdGhhc2g"
          = (false, Some (CorruptInputError off)).
Proof.
  split; [reflexivity|].
  destruct (proj1 (decodeHash_corrupt_payload exampleKey exampleIDKey "password"
              "$argon2id$v=19$m=65536,t=1,p=4$invalid!!!base64$dGVzdGhhc2g"
              65536 1 4 eq_refl eq_refl (or_introl eq_refl) eq_refl
              ltac:(lia) ltac:(lia) ltac:(lia))
             (or_introl eq_refl)) as (off & H1 & _ & _ & _ & H2).
  exists off. split; assumption.
Defined.

(** ** C10: the text before the first ["$"] *)

(** C10. [decodeHash] never looks at segment 0: whatever text without a
    ["$"] stands before the first ["$"], the result is the one for the
    input that begins with the ["$"]; so an input whose segments 1 to 5
    pass every check is decoded although it does not begin with ["$"]. *)
Theorem decodeHash_ignores_segment_0 (prefix rest : string) :
  strings.Count prefix "$"%char = 0%nat ->
  decodeHash (prefix ++ String "$" rest) = decodeHash (String "$" rest).
Proof.
  intros H. apply decodeHash_ext; unfold segments, segment.
  - rewrite Split_app_sep by assumption.
    change (String "$" rest) with (EmptyString ++ String "$" rest)%string.
    now rewrite Split_app_sep.
  - intros i Hi. rewrite Split_app_sep by assumption.
    change (String "$" rest) with (EmptyString ++ String "$" rest)%string.
    rewrite Split_app_sep by reflexivity.
    destruct i as [|i]; [lia | reflexivity].
Qed.

Lemma decodeHash_ignores_segment_0_witness :
  strings.Count "not a delimiter" "$"%char = 0%nat
  /\ decodeHash "not a delimiter$argon2i$v=19$m=65536,t=1,p=4$dGVzdHNhbHQ$dGVzdGhhc2g"
     = decodeHash "$argon2i$v=19$m=65536,t=1,p=4$dGVzdHNhbHQ$dGVzdGhhc2g"
  /\ is_ok (decodeHash "$argon2i$v=19$m=65536,t=1,p=4$dGVzdHNhbHQ$dGVzdGhhc2g") = true.
Proof.
  split; [reflexivity|]. split.
  - apply (decodeHash_ignores_segment_0 "not a delimiter"
             "argon2i$v=19$m=65536,t=1,p=4$dGVzdHNhbHQ$dGVzdGhhc2g").
    reflexivity.
  - vm_compute. reflexivity.
Defined.

(** * Further properties of the code *)

(** ** The record that [decodeHash] returns *)

Lemma decodeHash_ok_fields s p salt hash :
  decodeHash s = Ok (p, salt, hash) ->
  exists vs,
    scanVersion (segment 2 s) = Ok vs /\ nth 0 vs 0 = argon2.Version
    /\ decodeFields (segment 1 s) (segment 3 s) (segment 4 s) (segment 5 s)
       = Ok (p, salt, hash).
Proof.
  intros H.
  destruct (decodeHash_cases s) as [E|[E|[E|(_ & (vs & Hv & Hver) & _ & E)]]];
    try (rewrite E in H; discriminate).
  exists vs. rewrite <- E. auto.
Qed.

(** ** [decodeHash]: the record and the errors *)

(** X1. A record that [decodeHash] returns fits the types of its fields
    (memory and iterations below 2^32, parallelism below 2^8), its mode is
    the mode segment and is [argon2id] or [argon2i], and its salt and key
    lengths are the lengths of the decoded salt and key. *)
Theorem decodeHash_record (s : string) (p : Params) (salt hash : list byte) :
  decodeHash s = Ok (p, salt, hash) ->
  Params_in_range p
  /\ Mode p = segment 1 s /\ supported_mode (Mode p)
  /\ SaltLength p = uint32 (Z.of_nat (List.length salt))
  /\ KeyLength p = uint32 (Z.of_nat (List.length hash)).
Proof.
  intros H. pose proof (decodeHash_ok _ _ _ _ H) as (_ & Hmode & Hseg & _).
  apply decodeHash_ok_fields in H as (vs & _ & _ & H).
  apply decodeFields_ok in H
    as (scanned & Hscan & Hm & Ht & Hp & _ & _ & _ & _ & _ & _ & Hs & Hk).
  apply scanParams_inv in Hscan as (m & t & q & -> & Rm & Rt & Rq).
  cbn [nth] in *. unfold Params_in_range. rewrite Hm, Ht, Hp, Hs, Hk.
  unfold uint32.
  pose proof (Z.mod_pos_bound (Z.of_nat (List.length salt)) (2 ^ 32) ltac:(lia)).
  pose proof (Z.mod_pos_bound (Z.of_nat (List.length hash)) (2 ^ 32) ltac:(lia)).
  repeat split; auto; lia.
Qed.

Lemma decodeHash_record_witness :
  decodeHash "$argon2i$v=19$m=4294967295,t=7,p=255$dGVzdHNhbHQ$dGVzdGhhc2g"
  = Ok ({| Memory := 4294967295; Iterations := 7; Parallelism := 255;
           SaltLength := 8; KeyLength := 8; Mode := "argon2i" |},
        list_ascii_of_string "testsalt", list_ascii_of_string "testhash")
  /\ Params_in_range
       {| Memory := 4294967295; Iterations := 7; Parallelism := 255;
          SaltLength := 8; KeyLength := 8; Mode := "argon2i" |}.
Proof.
  split; [reflexivity|].
  exact (proj1 (decodeHash_record
                  "$argon2i$v=19$m=4294967295,t=7,p=255$dGVzdHNhbHQ$dGVzdGhhc2g"
                  _ _ _ eq_refl)).
Defined.

(** X2. [decodeHash] fails with one of four kinds of error only:
    [ErrInvalidHash], [ErrIncompatibleVersion], [ErrUnsupportedMode], or a
    [CorruptInputError] of the base64 decoder; the last one only for an
    input of six segments with a supported mode whose salt or key segment
    the decoder does not accept. *)
Theorem decodeHash_error_kinds (s : string) (e : error) :
  decodeHash s = Fail e ->
  e = ErrInvalidHash \/ e = ErrIncompatibleVersion \/ e = ErrUnsupportedMode
  \/ (exists off,
        e = CorruptInputError off
        /\ segments s = 6%nat /\ supported_mode (segment 1 s)
        /\ (valid_raw_std (strip_newlines (segment 4 s)) = false
            \/ valid_raw_std (strip_newlines (segment 5 s)) = false)).
Proof.
  intros H.
  destruct (decodeHash_cases s) as [E|[E|[E|(Hn & _ & Hmode & E)]]];
    try (rewrite E in H; injection H as <-; tauto).
  rewrite E in H. unfold decodeFields in H.
  destruct (scanParams (segment 3 s)) as [scanned|e']; [|injection H as <-; tauto].
  cbv zeta in H.
  destruct ((nth 0 scanned 0 <? 1) || (nth 1 scanned 0 <? 1) || (nth 2 scanned 0 <? 1));
    [injection H as <-; tauto|].
  pose proof (DecodeString_spec (segment 4 s)) as H4.
  pose proof (DecodeString_spec (segment 5 s)) as H5.
  destruct (base64.DecodeString (segment 4 s)) as [salt|e4].
  - destruct (base64.DecodeString (segment 5 s)) as [hash|e5]; [discriminate|].
    injection H as <-. destruct H5 as [[off ->] H5].
    right; right; right. exists off. auto.
  - injection H as <-. destruct H4 as [[off ->] H4].
    right; right; right. exists off. auto.
Qed.

Lemma decodeHash_error_kinds_witness :
  decodeHash "$argon2id$v=19$m=65536,t=1,p=4$dGVzdHNhbHQ$dGVzd=" = Fail (CorruptInputError 5)
  /\ (CorruptInputError 5 = ErrInvalidHash
      \/ CorruptInputError 5 = ErrIncompatibleVersion
      \/ CorruptInputError 5 = ErrUnsupportedMode
      \/ exists off,
           CorruptInputError 5 = CorruptInputError off
           /\ segments "$argon2id$v=19$m=65536,t=1,p=4$dGVzdHNhbHQ$dGVzd=" = 6%nat
           /\ supported_mode (segment 1 "$argon2id$v=19$m=65536,t=1,p=4$dGVzdHNhbHQ$dGVzd=")
           /\ (valid_raw_std (strip_newlines
                 (segment 4 "$argon2id$v=19$m=65536,t=1,p=4$dGVzdHNhbHQ$dGVzd=")) = false
               \/ valid_raw_std (strip_newlines
                    (segment 5 "$argon2id$v=19$m=65536,t=1,p=4$dGVzdHNhbHQ$dGVzd=")) = false)).
Proof.
  split; [reflexivity|].
  exact (decodeHash_error_kinds
           "$argon2id$v=19$m=65536,t=1,p=4$dGVzdHNhbHQ$dGVzd=" _ eq_refl).
Defined.

(** X3. A version segment that holds another version than 19, written in
    decimal, makes [decodeHash] fail with [ErrIncompatibleVersion] for
    every input of six segments, whatever the mode, the parameters, the
    salt and the key are; [Verify] returns false with that error. *)
Theorem decodeHash_other_version (Key IDKey : argon2.KDF)
    (password s : string) (n : Z) :
  segments s = 6%nat ->
  segment 2 s = ("v=" ++ strconv.fmt_d n)%string ->
  0 <= n < 2 ^ 63 -> n <> argon2.Version ->
  decodeHash s = Fail ErrIncompatibleVersion
  /\ Verify Key IDKey password s = (false, Some ErrIncompatibleVersion).
Proof.
  intros Hn Hseg Hrange Hne.
  assert (Hv : scanVersion (segment 2 s) = Ok [n]).
  { rewrite Hseg. rewrite <- (append_nil_r (strconv.fmt_d n)).
    now apply scanVersion_written. }
  assert (E : decodeHash s = Fail ErrIncompatibleVersion)
    by (apply decodeHash_version_other with [n]; auto).
  split; [exact E | now apply Verify_decode_error].
Qed.

Lemma decodeHash_other_version_witness :
  decodeHash "$argon2id$v=18$m=65536,t=1,p=4$dGVzdHNhbHQ$dGVzdGhhc2g"
  = Fail ErrIncompatibleVersion
  /\ decodeHash "$argon2d$v=20$m=0$!$!" = Fail ErrIncompatibleVersion.
Proof.
  split.
  - apply (decodeHash_other_version exampleKey exampleIDKey "password" _ 18);
      [reflexivity | reflexivity | vm_compute; split; [discriminate | reflexivity]
      | discriminate].
  - apply (decodeHash_other_version exampleKey exampleIDKey "password" _ 20);
      [reflexivity | reflexivity | vm_compute; split; [discriminate | reflexivity]
      | discriminate].
Defined.

(** ** [Verify]: matches and errors *)

Lemma resolveMode_supported mode : supported_mode mode -> resolveMode mode = mode.
Proof. intros [-> | ->]; reflexivity. Qed.

Lemma deriveKey_total Key IDKey mode password salt p :
  supported_mode mode ->
  exists key, deriveKey Key IDKey mode password salt p = Ok key.
Proof. intros [-> | ->]; cbn; eauto. Qed.

(** [Verify] on an input that decodes: the key is derived with the
    variant of the decoded mode and compared. *)
Lemma Verify_decoded Key IDKey password s p salt hash :
  decodeHash s = Ok (p, salt, hash) ->
  exists other,
    deriveKey Key IDKey (Mode p) password salt p = Ok other
    /\ Verify Key IDKey password s
       = (if subtle.ConstantTimeCompare hash other =? 1 then (true, None)
          else (false, None)).
Proof.
  intros H. pose proof (decodeHash_ok _ _ _ _ H) as (_ & Hmode & _).
  destruct (deriveKey_total Key IDKey (Mode p) password salt p Hmode)
    as [other Hother].
  exists other. split; [assumption|].
  unfold Verify. rewrite H. fold (resolveMode (Mode p)).
  now rewrite resolveMode_supported, Hother.
Qed.

(** X4. [Verify] returns true exactly when the input decodes and the key
    that the variant of its mode derives from the password, the decoded
    salt and the decoded parameters is the decoded key. It never returns
    true together with an error. *)
Theorem Verify_match (Key IDKey : argon2.KDF) (password s : string) :
  (Verify Key IDKey password s = (true, None) <->
   exists p salt hash,
     decodeHash s = Ok (p, salt, hash)
     /\ deriveKey Key IDKey (Mode p) password salt p = Ok hash)
  /\ (forall e, Verify Key IDKey password s <> (true, Some e)).
Proof.
  destruct (decodeHash s) as [[[p salt] hash]|e0] eqn:Hdec.
  - destruct (Verify_decoded Key IDKey password s p salt hash Hdec)
      as (other & Hother & ->).
    destruct (list_eq_dec Ascii.ascii_dec hash other) as [<-|Hne].
    + rewrite ConstantTimeCompare_eq. cbn. split; [|discriminate].
      split; [eauto|reflexivity].
    + rewrite ConstantTimeCompare_neq by assumption. cbn.
      split; [|discriminate]. split; [discriminate|].
      intros (p' & salt' & hash' & E & Hk). injection E as <- <- <-.
      congruence.
  - rewrite (Verify_decode_error Key IDKey password s e0 Hdec).
    split; [|discriminate]. split; [discriminate|].
    intros (p & salt & hash & E & _). discriminate.
Qed.

(** X5. [Verify] returns an error exactly when [decodeHash] fails, and
    then that error with no match: whether there is an error does not
    depend on the password, and the [ErrUnsupportedMode] of [Verify]'s own
    [switch] is never reached. *)
Theorem Verify_error (Key IDKey : argon2.KDF) (password s : string) (e : error) :
  snd (Verify Key IDKey password s) = Some e
  <-> decodeHash s = Fail e /\ Verify Key IDKey password s = (false, Some e).
Proof.
  destruct (decodeHash s) as [[[p salt] hash]|e0] eqn:Hdec.
  - destruct (Verify_decoded Key IDKey password s p salt hash Hdec)
      as (other & _ & ->).
    destruct (subtle.ConstantTimeCompare hash other =? 1); cbn;
      split; try discriminate; intros [? _]; discriminate.
  - rewrite (Verify_decode_error Key IDKey password s e0 Hdec). cbn.
    split.
    + intros H. injection H as <-. auto.
    + intros [H _]. congruence.
Qed.

(** ** [HashWithParams]: errors and the string it writes *)

(** X6. The errors that [HashWithParams] returns. It returns the error [e]
    exactly in two cases: the random source has returned [e], which is
    passed on as it is, before the mode is looked at; or a salt was read
    and the mode is neither empty nor [argon2id] nor [argon2i], and [e] is
    [ErrUnsupportedMode]. This is about returned errors: where
    [argon2.Key] or [argon2.IDKey] panics (iterations, parallelism or key
    length of 0, with a supported mode), nothing is returned, and so no
    error either. *)
Theorem HashWithParams_errors (Key IDKey : argon2.KDF)
    (rand_Read : Z -> res error (list byte))
    (password : string) (p : Params) (e : error) :
  HashWithParams Key IDKey rand_Read password p = Fail e
  <-> rand_Read (SaltLength p) = Fail e
      \/ ((exists salt, rand_Read (SaltLength p) = Ok salt)
          /\ e = ErrUnsupportedMode
          /\ Mode p <> EmptyString /\ Mode p <> ModeArgon2id
          /\ Mode p <> ModeArgon2i).
Proof.
  unfold HashWithParams.
  destruct (rand_Read (SaltLength p)) as [salt|e0]; cbn [bind].
  - unfold deriveKey.
    destruct (String.eqb_spec (Mode p) EmptyString) as [H0|H0].
    + cbn. split; [discriminate|].
      intros [H|(_ & _ & H & _)]; [discriminate | contradiction].
    + destruct (String.eqb_spec (Mode p) ModeArgon2i) as [H1|H1].
      * cbn. split; [discriminate|].
        intros [H|(_ & _ & _ & _ & H)]; [discriminate | contradiction].
      * destruct (String.eqb_spec (Mode p) ModeArgon2id) as [H2|H2].
        -- cbn. split; [discriminate|].
           intros [H|(_ & _ & _ & H & _)]; [discriminate | contradiction].
        -- cbn. split.
           ++ intros H. injection H as <-. right. eauto 10.
           ++ intros [H|(_ & -> & _)]; [discriminate | reflexivity].
  - split.
    + intros H. injection H as <-. now left.
    + intros [H|((salt & H) & _)]; [now injection H as <- | discriminate].
Qed.

Lemma clean_alphabet l : forallb in_alphabet l = true -> clean l = l.
Proof.
  induction l as [|c l IH]; cbn [forallb]; intros H; [reflexivity|].
  apply andb_true_iff in H as [Hc Hl].
  rewrite clean_cons_alphabet by assumption. now rewrite IH.
Qed.

(** What the encoder writes is unpadded standard base64. *)
Lemma EncodeToString_valid src :
  valid_raw_std (base64.EncodeToString src) = true.
Proof.
  pose proof (Encode_in_alphabet src (List.length src) (le_n _)) as Halpha.
  pose proof (Decode_loop_spec (List.length (base64.Encode src))
                (base64.Encode src) 0 (le_n _)) as Hspec.
  rewrite (Decode_loop_Encode (List.length src)) in Hspec by auto.
  destruct Hspec as [_ Hlen]. rewrite clean_alphabet in Hlen by assumption.
  unfold valid_raw_std, base64.EncodeToString.
  rewrite list_ascii_of_string_of_list_ascii, string_length_of_list, Halpha.
  cbn [andb]. apply negb_true_iff. now apply Nat.eqb_neq.
Qed.

Lemma prefix_app a b : String.prefix a (a ++ b) = true.
Proof.
  induction a as [|c a IH]; cbn [String.append].
  - destruct b; reflexivity.
  - cbn [String.prefix]. destruct (Ascii.ascii_dec c c); [assumption | contradiction].
Qed.

(** X7. A string that [HashWithParams] returns has exactly six segments:
    an empty one, the mode ([argon2id] for an empty mode), [v=19], the
    three parameters in decimal as [m=..,t=..,p=..], and salt and key in
    unpadded standard base64; it starts with ["$"], the mode and
    ["$v=19$"]. *)
Theorem HashWithParams_format (Key IDKey : argon2.KDF)
    (rand_Read : Z -> res error (list byte))
    (password : string) (p : Params) (S : string) :
  0 <= Memory p -> 0 <= Iterations p -> 0 <= Parallelism p ->
  HashWithParams Key IDKey rand_Read password p = Ok S ->
  segments S = 6%nat
  /\ segment 0 S = EmptyString
  /\ segment 1 S = resolveMode (Mode p) /\ supported_mode (segment 1 S)
  /\ segment 2 S = "v=19"%string
  /\ segment 3 S = ("m=" ++ strconv.fmt_d (Memory p)
                         ++ ",t=" ++ strconv.fmt_d (Iterations p)
                         ++ ",p=" ++ strconv.fmt_d (Parallelism p))%string
  /\ valid_raw_std (segment 4 S) = true
  /\ valid_raw_std (segment 5 S) = true
  /\ HasPrefix S ("$" ++ resolveMode (Mode p) ++ "$v=19$") = true.
Proof.
  intros Hm Ht Hp Hhash.
  apply HashWithParams_inv in Hhash as (salt & key & _ & Hkey & ->).
  pose proof (deriveKey_supported _ _ _ _ _ _ _ Hkey) as Hmode.
  assert (Hsplit : strings.Split
            (encodeHash (resolveMode (Mode p)) (Memory p) (Iterations p)
                        (Parallelism p) salt key) "$"%char
          = pieces EmptyString (resolveMode (Mode p)) EmptyString (Memory p)
                   (Iterations p) (Parallelism p) EmptyString salt key).
  { rewrite encodeHash_join. unfold pieces at 1. apply Split_join.
    apply pieces_no_separator; auto. }
  unfold segments, segment. rewrite Hsplit. cbn [pieces nth List.length].
  rewrite !append_nil_r.
  repeat split; auto using EncodeToString_valid.
  unfold HasPrefix, encodeHash.
  destruct Hmode as [-> | ->]; reflexivity.
Qed.

Lemma HashWithParams_format_witness :
  HashWithParams exampleKey exampleIDKey exampleRand "password"
    (mkParams 32768 2 2 4 8 "")
  = Ok "$argon2id$v=19$m=32768,t=2,p=2$c3Nzcw$ZHBhc3N3b3I"%string
  /\ segments "$argon2id$v=19$m=32768,t=2,p=2$c3Nzcw$ZHBhc3N3b3I" = 6%nat.
Proof.
  split; [reflexivity|].
  exact (proj1 (HashWithParams_format exampleKey exampleIDKey exampleRand
                  "password" (mkParams 32768 2 2 4 8 "") _
                  ltac:(cbn; lia) ltac:(cbn; lia) ltac:(cbn; lia) eq_refl)).
Defined.

(** X8. The parameters survive the trip through the string. Let the
    record be within its types with memory, iterations and parallelism of
    at least 1, let the random source fill its buffer and the
    key-derivation functions return keys of the length asked for. Then
    [decodeHash] gives back, from the string of [HashWithParams], the
    configured record with its mode resolved (salt and key lengths
    included), the salt that was drawn and the key that was derived. *)
Theorem decodeHash_HashWithParams (Key IDKey : argon2.KDF)
    (rand_Read : Z -> res error (list byte))
    (password : string) (p : Params) (S : string) :
  argon2.key_length_ok Key -> argon2.key_length_ok IDKey ->
  fills_buffer rand_Read ->
  Params_in_range p ->
  1 <= Memory p -> 1 <= Iterations p -> 1 <= Parallelism p ->
  HashWithParams Key IDKey rand_Read password p = Ok S ->
  exists salt key,
    rand_Read (SaltLength p) = Ok salt
    /\ deriveKey Key IDKey (resolveMode (Mode p)) password salt p = Ok key
    /\ decodeHash S = Ok (with_mode p (resolveMode (Mode p)), salt, key).
Proof.
  intros HK HID Hrand (Hm & Ht & Hp & Hs & Hk) Hm1 Ht1 Hp1 Hhash.
  apply HashWithParams_inv in Hhash as (salt & key & Hsalt & Hkey & ->).
  pose proof (deriveKey_supported _ _ _ _ _ _ _ Hkey) as Hmode.
  exists salt, key. repeat split; try assumption.
  rewrite encodeHash_join, decodeHash_pieces by (auto; lia).
  unfold with_mode. rewrite (Hrand (SaltLength p) salt ltac:(lia) Hsalt).
  rewrite (deriveKey_length Key IDKey HK HID _ _ _ p key ltac:(lia) Hkey).
  unfold uint32. rewrite !Z.mod_small by lia. reflexivity.
Qed.

Lemma exampleRand_fills_buffer : fills_buffer exampleRand.
Proof.
  intros n salt Hn. unfold exampleRand. intros H. injection H as <-.
  rewrite repeat_length. lia.
Qed.

Lemma decodeHash_HashWithParams_witness :
  exists salt key,
    decodeHash "$argon2id$v=19$m=32768,t=2,p=2$c3Nzcw$ZHBhc3N3b3I"
    = Ok (mkParams 32768 2 2 4 8 "argon2id", salt, key).
Proof.
  destruct (decodeHash_HashWithParams exampleKey exampleIDKey exampleRand
              "password" (mkParams 32768 2 2 4 8 "")
              "$argon2id$v=19$m=32768,t=2,p=2$c3Nzcw$ZHBhc3N3b3I"
              (exampleKDF_key_length _) (exampleKDF_key_length _)
              exampleRand_fills_buffer
              ltac:(vm_compute; repeat split; solve [reflexivity | discriminate])
              ltac:(vm_compute; discriminate) ltac:(vm_compute; discriminate)
              ltac:(vm_compute; discriminate) eq_refl)
    as (salt & key & _ & _ & H).
  exists salt, key. exact H.
Defined.

(** ** [Hash] and [DefaultParams] *)

(** X9. For 1 to 255 processors [DefaultParams] is the documented
    record: 64 MiB of memory, one iteration, the smaller of the processor
    count and 4 as parallelism (so between 1 and 4), a salt of 16 and a
    key of 32 bytes, the mode [argon2id]; every field is within its type. *)
Theorem DefaultParams_up_to_255 (NumCPU : Z) :
  1 <= NumCPU <= 255 ->
  DefaultParams NumCPU
  = {| Memory := 65536; Iterations := 1; Parallelism := Z.min NumCPU 4;
       SaltLength := 16; KeyLength := 32; Mode := "argon2id" |}
  /\ 1 <= Parallelism (DefaultParams NumCPU) <= 4
  /\ Params_in_range (DefaultParams NumCPU).
Proof.
  intros H.
  assert (E : DefaultParams NumCPU
              = {| Memory := 65536; Iterations := 1; Parallelism := Z.min NumCPU 4;
                   SaltLength := 16; KeyLength := 32; Mode := "argon2id" |}).
  { unfold DefaultParams, uint8, DefaultParallelism.
    change (2 ^ 8) with 256. rewrite Z.mod_small by lia.
    destruct (Z.ltb_spec 4 NumCPU);
      [replace (Z.min NumCPU 4) with 4 by lia
      | replace (Z.min NumCPU 4) with NumCPU by lia]; reflexivity. }
  rewrite E. split; [reflexivity|].
  unfold Params_in_range. cbn [Memory Iterations Parallelism SaltLength KeyLength].
  change (2 ^ 32) with 4294967296. change (2 ^ 8) with 256. lia.
Qed.

Lemma DefaultParams_up_to_255_witness :
  Parallelism (DefaultParams 2) = 2 /\ Parallelism (DefaultParams 255) = 4.
Proof.
  split.
  - pose proof (proj1 (DefaultParams_up_to_255 2 ltac:(lia))) as E.
    rewrite E. reflexivity.
  - pose proof (proj1 (DefaultParams_up_to_255 255 ltac:(lia))) as E.
    rewrite E. reflexivity.
Defined.

(** X10. Whatever the number of processors, a string that [Hash] returns
    starts with ["$argon2id$v=19$m=65536,t=1,p="]. *)
Theorem Hash_prefix (Key IDKey : argon2.KDF)
    (rand_Read : Z -> res error (list byte)) (NumCPU : Z)
    (password : string) (S : string) :
  Hash Key IDKey rand_Read NumCPU password = Ok S ->
  HasPrefix S "$argon2id$v=19$m=65536,t=1,p=" = true.
Proof.
  unfold Hash. intros H.
  apply HashWithParams_inv in H as (salt & key & _ & _ & ->).
  unfold HasPrefix.
  change (encodeHash (resolveMode (Mode (DefaultParams NumCPU)))
            (Memory (DefaultParams NumCPU)) (Iterations (DefaultParams NumCPU))
            (Parallelism (DefaultParams NumCPU)) salt key)
    with ("$argon2id$v=19$m=65536,t=1,p="
            ++ (strconv.fmt_d (Parallelism (DefaultParams NumCPU))
                  ++ "$" ++ base64.EncodeToString salt
                  ++ "$" ++ base64.EncodeToString key))%string.
  apply prefix_app.
Qed.

Lemma Hash_prefix_witness :
  Hash exampleKey exampleIDKey exampleRand 8 "correct_horse_battery_staple"
  = Ok "$argon2id$v=19$m=65536,t=1,p=4$c3Nzc3Nzc3Nzc3Nzc3Nzcw$ZGNvcnJlY3RfaG9yc2VfYmF0dGVyeV9zdGFwbGVzc3M"%string
  /\ HasPrefix "$argon2id$v=19$m=65536,t=1,p=4$c3Nzc3Nzc3Nzc3Nzc3Nzcw$ZGNvcnJlY3RfaG9yc2VfYmF0dGVyeV9zdGFwbGVzc3M"
       "$argon2id$v=19$m=65536,t=1,p=" = true.
Proof.
  split; [reflexivity|].
  exact (Hash_prefix exampleKey exampleIDKey exampleRand 8
           "correct_horse_battery_staple" _ eq_refl).
Defined.

(** X11. When the processor count is not a multiple of 256 and the
    key-derivation functions return keys of the length asked for, [Verify]
    returns true and no error for a password and the string that [Hash]
    returned for it. *)
Theorem Hash_then_Verify (Key IDKey : argon2.KDF)
    (rand_Read : Z -> res error (list byte)) (NumCPU : Z)
    (password : string) (S : string) :
  argon2.key_length_ok Key -> argon2.key_length_ok IDKey ->
  uint8 NumCPU <> 0 ->
  Hash Key IDKey rand_Read NumCPU password = Ok S ->
  Verify Key IDKey password S = (true, None).
Proof.
  intros HK HID Hcpu. unfold Hash. intros H.
  apply HashWithParams_inv in H as (salt & key & _ & Hkey & ->).
  assert (Hpar : 1 <= Parallelism (DefaultParams NumCPU) <= 4).
  { cbn. unfold uint8, DefaultParallelism in *.
    pose proof (Z.mod_pos_bound NumCPU (2 ^ 8) ltac:(lia)).
    destruct (Z.ltb_spec 4 (NumCPU mod 2 ^ 8)); lia. }
  rewrite (Verify_encodeHash Key IDKey HK HID password password
             (DefaultParams NumCPU) salt key key); auto.
  - now rewrite ConstantTimeCompare_eq.
  - unfold Params_in_range.
    change (Memory (DefaultParams NumCPU)) with 65536.
    change (Iterations (DefaultParams NumCPU)) with 1.
    change (SaltLength (DefaultParams NumCPU)) with 16.
    change (KeyLength (DefaultParams NumCPU)) with 32.
    change (2 ^ 32) with 4294967296. change (2 ^ 8) with 256. lia.
  - change (Memory (DefaultParams NumCPU)) with 65536. lia.
  - change (Iterations (DefaultParams NumCPU)) with 1. lia.
  - lia.
Qed.

Lemma Hash_then_Verify_witness :
  Verify exampleKey exampleIDKey "correct_horse_battery_staple"
    "$argon2id$v=19$m=65536,t=1,p=4$c3Nzc3Nzc3Nzc3Nzc3Nzcw$ZGNvcnJlY3RfaG9yc2VfYmF0dGVyeV9zdGFwbGVzc3M"
  = (true, None).
Proof.
  apply (Hash_then_Verify exampleKey exampleIDKey exampleRand 8
           "correct_horse_battery_staple").
  - apply exampleKDF_key_length.
  - apply exampleKDF_key_length.
  - vm_compute. discriminate.
  - reflexivity.
Defined.

(** ** The earlier revision *)

(** X12. The earlier [DefaultParams] has a parallelism between 1 and 4
    for every processor count, also for a multiple of 256 (the conversion
    to [uint8] gives 0, which is raised to 1); the other fields are 64 MiB,
    one iteration, 16 and 32 bytes. *)
Theorem Legacy_DefaultParams (NumCPU : Z) :
  Legacy.DefaultParams NumCPU
  = {| Legacy.Memory := 65536; Legacy.Iterations := 1;
       Legacy.Parallelism := Z.max 1 (Z.min (NumCPU mod 2 ^ 8) 4);
       Legacy.SaltLength := 16; Legacy.KeyLength := 32 |}
  /\ 1 <= Legacy.Parallelism (Legacy.DefaultParams NumCPU) <= 4
  /\ Legacy.Parallelism (Legacy.DefaultParams 256) = 1.
Proof.
  assert (E : Legacy.Parallelism (Legacy.DefaultParams NumCPU)
              = Z.max 1 (Z.min (NumCPU mod 2 ^ 8) 4)).
  { cbn. unfold uint8.
    pose proof (Z.mod_pos_bound NumCPU (2 ^ 8) ltac:(lia)).
    destruct (Z.ltb_spec (NumCPU mod 2 ^ 8) 1).
    - change (2 ^ 8) with 256 in *. destruct (Z.ltb_spec 4 1); lia.
    - change (2 ^ 8) with 256 in *.
      destruct (Z.ltb_spec 4 (NumCPU mod 256)); lia. }
  split; [|split].
  - unfold Legacy.DefaultParams in *. cbn in E. rewrite E. reflexivity.
  - rewrite E. lia.
  - reflexivity.
Qed.

Lemma Legacy_decodeHash_cases s :
  Legacy.decodeHash s = Fail ErrInvalidHash
  \/ Legacy.decodeHash s = Fail ErrIncompatibleVersion
  \/ (segments s = 6%nat
      /\ (exists vs, scanVersion (segment 2 s) = Ok vs /\ nth 0 vs 0 = argon2.Version)
      /\ Legacy.decodeHash s = legacyFields (segment 3 s) (segment 4 s) (segment 5 s)).
Proof.
  unfold Legacy.decodeHash, legacyFields, segments, segment, scanVersion, scanParams.
  cbv zeta.
  destruct (Nat.eqb_spec (List.length (strings.Split s "$"%char)) 6) as [Hn|Hn];
    [|now left].
  cbn [negb].
  destruct (fmt.Sscanf (nth 2 (strings.Split s "$"%char) EmptyString) "v=%d" [fmt.int_ptr])
    as [vs|e]; [|now left].
  destruct (Z.eqb_spec (nth 0 vs 0) argon2.Version) as [Hv|Hv]; [|now (right; left)].
  cbn [negb]. right; right. repeat split; eauto.
Qed.

Lemma Legacy_decodeHash_fields s vs :
  segments s = 6%nat -> scanVersion (segment 2 s) = Ok vs ->
  nth 0 vs 0 = argon2.Version ->
  Legacy.decodeHash s = legacyFields (segment 3 s) (segment 4 s) (segment 5 s).
Proof.
  unfold Legacy.decodeHash, legacyFields, segments, segment, scanVersion, scanParams.
  intros Hn Hv Heq. cbv zeta. rewrite Hn, Hv, Heq. cbn [Nat.eqb negb].
  rewrite Z.eqb_refl. reflexivity.
Qed.

(** The two decoders after the checks they share. *)
Lemma decodeFields_legacyFields mode seg3 seg4 seg5 p salt hash :
  decodeFields mode seg3 seg4 seg5 = Ok (p, salt, hash)
  <-> legacyFields seg3 seg4 seg5 = Ok (forget_mode p, salt, hash)
      /\ Mode p = mode
      /\ 1 <= Memory p /\ 1 <= Iterations p /\ 1 <= Parallelism p.
Proof.
  unfold decodeFields, legacyFields.
  destruct (scanParams seg3) as [scanned|e].
  2:{ split; [discriminate | intros [H _]; discriminate]. }
  cbv zeta.
  destruct (base64.DecodeString seg4) as [salt'|e4].
  2:{ destruct (_ || _); split; try discriminate; intros [H _]; discriminate. }
  destruct (base64.DecodeString seg5) as [hash'|e5].
  2:{ destruct (_ || _); split; try discriminate; intros [H _]; discriminate. }
  destruct ((nth 0 scanned 0 <? 1) || (nth 1 scanned 0 <? 1) || (nth 2 scanned 0 <? 1))
    eqn:Hlow.
  - split; [discriminate|].
    intros (H & _ & H1 & H2 & H3). injection H as Hm Ht Hp _ _ _ _.
    rewrite !orb_true_iff, !Z.ltb_lt in Hlow. lia.
  - apply orb_false_iff in Hlow as [Hlow H3].
    apply orb_false_iff in Hlow as [H1 H2].
    apply Z.ltb_ge in H1, H2, H3.
    split.
    + intros H. injection H as <- <- <-. cbn. auto.
    + intros (H & Hmode & _). injection H as Hm Ht Hp Hs Hk <- <-.
      destruct p; cbn in *. subst. reflexivity.
Qed.

(** What this revision decodes, the earlier one decoded to the same
    record without the mode. *)
Lemma decodeHash_to_Legacy s p salt hash :
  decodeHash s = Ok (p, salt, hash) ->
  Legacy.decodeHash s = Ok (forget_mode p, salt, hash).
Proof.
  intros H. pose proof (decodeHash_ok _ _ _ _ H) as (Hn & _).
  apply decodeHash_ok_fields in H as (vs & Hv & Hver & H).
  apply decodeFields_legacyFields in H as (H & _).
  now rewrite (Legacy_decodeHash_fields s vs).
Qed.

(** X13. The decoder of this revision accepts less than the earlier one
    and reads the same: it returns a record exactly when the earlier
    decoder returns the same record without the mode, the mode segment is
    [argon2id] or [argon2i] (it becomes the mode), and memory, iterations
    and parallelism are at least 1. *)
Theorem decodeHash_Legacy (s : string) (p : Params) (salt hash : list byte) :
  decodeHash s = Ok (p, salt, hash)
  <-> Legacy.decodeHash s = Ok (forget_mode p, salt, hash)
      /\ supported_mode (segment 1 s) /\ Mode p = segment 1 s
      /\ 1 <= Memory p /\ 1 <= Iterations p /\ 1 <= Parallelism p.
Proof.
  split.
  - intros H. pose proof (decodeHash_ok _ _ _ _ H) as (Hn & Hmode & Hseg & _).
    apply decodeHash_ok_fields in H as (vs & Hv & Hver & H).
    apply decodeFields_legacyFields in H as (H & _ & H1 & H2 & H3).
    rewrite (Legacy_decodeHash_fields s vs) by assumption.
    rewrite <- Hseg. auto 10.
  - intros (H & Hmode & Hseg & H1 & H2 & H3).
    destruct (Legacy_decodeHash_cases s) as [E|[E|(Hn & (vs & Hv & Hver) & E)]];
      try (rewrite E in H; discriminate).
    rewrite E in H.
    rewrite (decodeHash_fields s vs) by assumption.
    apply decodeFields_legacyFields. auto.
Qed.

(** The earlier hasher writes what this one writes for the mode
    [argon2id]. *)
Lemma Legacy_HashWithParams_inv IDKey rand_Read password q S :
  Legacy.HashWithParams IDKey rand_Read password q = Ok S ->
  exists salt,
    rand_Read (Legacy.SaltLength q) = Ok salt
    /\ S = encodeHash ModeArgon2id (Legacy.Memory q) (Legacy.Iterations q)
             (Legacy.Parallelism q) salt
             (IDKey (list_ascii_of_string password) salt (Legacy.Iterations q)
                    (Legacy.Memory q) (Legacy.Parallelism q) (Legacy.KeyLength q)).
Proof.
  unfold Legacy.HashWithParams.
  destruct (rand_Read (Legacy.SaltLength q)) as [salt|e]; [|discriminate].
  cbn [bind]. intros H. injection H as <-. exists salt. split; reflexivity.
Qed.

Lemma Legacy_decodeHash_pieces seg0 mode e2 m t p e3 salt hash :
  strings.Count seg0 "$"%char = 0%nat -> supported_mode mode ->
  strings.Count e2 "$"%char = 0%nat -> trailing_text e2 = true ->
  strings.Count e3 "$"%char = 0%nat -> trailing_text e3 = true ->
  0 <= m < 2 ^ 32 -> 0 <= t < 2 ^ 32 -> 0 <= p < 2 ^ 8 ->
  Legacy.decodeHash (join (pieces seg0 mode e2 m t p e3 salt hash))
  = Ok ({| Legacy.Memory := m; Legacy.Iterations := t; Legacy.Parallelism := p;
           Legacy.SaltLength := uint32 (Z.of_nat (List.length salt));
           Legacy.KeyLength := uint32 (Z.of_nat (List.length hash)) |},
        salt, hash).
Proof.
  intros H0 Hmode H2 T2 H3 T3 Hm Ht Hp.
  assert (Hsplit : strings.Split (join (pieces seg0 mode e2 m t p e3 salt hash)) "$"%char
                   = pieces seg0 mode e2 m t p e3 salt hash).
  { unfold pieces at 1. apply Split_join.
    apply pieces_no_separator; auto; lia. }
  assert (Hv : scanVersion ("v=" ++ strconv.fmt_d argon2.Version ++ e2) = Ok [argon2.Version])
    by (apply scanVersion_written;
        [unfold argon2.Version; change (2 ^ 63) with 9223372036854775808; lia
        | assumption]).
  rewrite (Legacy_decodeHash_fields _ [argon2.Version]).
  2:{ unfold segments. now rewrite Hsplit. }
  2:{ unfold segment. rewrite Hsplit. exact Hv. }
  2:reflexivity.
  unfold segment. rewrite Hsplit. cbn [pieces nth].
  unfold legacyFields.
  rewrite scanParams_written by auto. cbn [nth].
  now rewrite !DecodeString_EncodeToString.
Qed.

Section LegacyVerify.

Variables Key IDKey : argon2.KDF.
Variable rand_Read : Z -> res error (list byte).
Hypothesis Key_length : argon2.key_length_ok Key.
Hypothesis IDKey_length : argon2.key_length_ok IDKey.

(** The earlier verifier on a string of the earlier hasher. *)
Lemma Legacy_Verify_written password q S :
  Legacy.Params_in_range q ->
  Legacy.HashWithParams IDKey rand_Read password q = Ok S ->
  Legacy.Verify IDKey password S = (true, None).
Proof.
  intros (Hm & Ht & Hp & Hs & Hk) H.
  apply Legacy_HashWithParams_inv in H as (salt & _ & ->).
  unfold Legacy.Verify.
  rewrite encodeHash_join, Legacy_decodeHash_pieces by (auto; now left).
  cbn [Legacy.Iterations Legacy.Memory Legacy.Parallelism Legacy.KeyLength].
  rewrite (IDKey_length _ salt _ _ _ (Legacy.KeyLength q) ltac:(lia)).
  unfold uint32. rewrite Z.mod_small by lia.
  now rewrite ConstantTimeCompare_eq.
Qed.

(** This verifier on a string of the earlier hasher. *)
Lemma Verify_Legacy_written password q S :
  Legacy.Params_in_range q ->
  Legacy.HashWithParams IDKey rand_Read password q = Ok S ->
  Verify Key IDKey password S
  = if (Legacy.Memory q <? 1) || (Legacy.Iterations q <? 1)
       || (Legacy.Parallelism q <? 1)
    then (false, Some ErrInvalidHash) else (true, None).
Proof.
  intros (Hm & Ht & Hp & Hs & Hk) H.
  apply Legacy_HashWithParams_inv in H as (salt & _ & ->).
  unfold Verify.
  rewrite encodeHash_join, decodeHash_pieces_any by (auto; now left).
  destruct ((Legacy.Memory q <? 1) || (Legacy.Iterations q <? 1)
            || (Legacy.Parallelism q <? 1)); [reflexivity|].
  cbn [Mode deriveKey String.eqb Ascii.eqb Bool.eqb ModeArgon2id ModeArgon2i
       Iterations Memory Parallelism KeyLength].
  rewrite (IDKey_length _ salt _ _ _ (Legacy.KeyLength q) ltac:(lia)).
  unfold uint32. rewrite Z.mod_small by lia.
  now rewrite ConstantTimeCompare_eq.
Qed.

End LegacyVerify.

(** X14. With an empty mode or the mode [argon2id], [HashWithParams]
    does what the earlier revision did: same salt request, same call of
    [argon2.IDKey], same string, same error. *)
Theorem HashWithParams_Legacy (Key IDKey : argon2.KDF)
    (rand_Read : Z -> res error (list byte))
    (password : string) (q : Legacy.Params) (mode : string) :
  mode = EmptyString \/ mode = ModeArgon2id ->
  HashWithParams Key IDKey rand_Read password (upgrade q mode)
  = Legacy.HashWithParams IDKey rand_Read password q.
Proof.
  intros Hmode. unfold HashWithParams, Legacy.HashWithParams.
  cbn [SaltLength upgrade Mode].
  destruct (rand_Read (Legacy.SaltLength q)) as [salt|e]; [|reflexivity].
  destruct Hmode as [-> | ->]; reflexivity.
Qed.

Lemma HashWithParams_Legacy_witness :
  HashWithParams exampleKey exampleIDKey exampleRand "password"
    (upgrade (Legacy.mkParams 32768 2 2 4 8) "")
  = Legacy.HashWithParams exampleIDKey exampleRand "password"
      (Legacy.mkParams 32768 2 2 4 8)
  /\ Legacy.HashWithParams exampleIDKey exampleRand "password"
       (Legacy.mkParams 32768 2 2 4 8)
     = Ok "$argon2id$v=19$m=32768,t=2,p=2$c3Nzcw$ZHBhc3N3b3I"%string.
Proof.
  split; [|reflexivity].
  apply (HashWithParams_Legacy exampleKey exampleIDKey exampleRand "password"
           (Legacy.mkParams 32768 2 2 4 8) ""). now left.
Defined.

(** X15. The earlier revision verified every string it wrote: for a
    record within its types (memory 0 included, the decoder did not check
    the parameters) and a key-derivation function that returns keys of the
    length asked for, the earlier [Verify] returns true and no error for
    the password and the string the earlier [HashWithParams] returned. *)
Theorem Legacy_round_trip (IDKey : argon2.KDF)
    (rand_Read : Z -> res error (list byte))
    (password : string) (q : Legacy.Params) (S : string) :
  argon2.key_length_ok IDKey ->
  Legacy.Params_in_range q ->
  Legacy.HashWithParams IDKey rand_Read password q = Ok S ->
  Legacy.Verify IDKey password S = (true, None).
Proof. intros HID Hq H. eapply Legacy_Verify_written; eauto. Qed.

Lemma Legacy_round_trip_witness :
  Legacy.HashWithParams exampleIDKey exampleRand "password"
    (Legacy.mkParams 0 1 1 4 8)
  = Ok "$argon2id$v=19$m=0,t=1,p=1$c3Nzcw$ZHBhc3N3b3I"%string
  /\ Legacy.Verify exampleIDKey "password"
       "$argon2id$v=19$m=0,t=1,p=1$c3Nzcw$ZHBhc3N3b3I" = (true, None).
Proof.
  split; [reflexivity|].
  apply (Legacy_round_trip exampleIDKey exampleRand "password"
           (Legacy.mkParams 0 1 1 4 8)).
  - apply exampleKDF_key_length.
  - vm_compute. repeat split; solve [reflexivity | discriminate].
  - reflexivity.
Defined.

(** X16. Strings of the earlier revision under this revision's [Verify]:
    a string that the earlier [HashWithParams] wrote for a password is
    verified (true, no error) when memory, iterations and parallelism are
    at least 1, and rejected with [ErrInvalidHash] when one of them is
    below 1, although the earlier [Verify] accepted it. *)
Theorem Verify_Legacy_HashWithParams (Key IDKey : argon2.KDF)
    (rand_Read : Z -> res error (list byte))
    (password : string) (q : Legacy.Params) (S : string) :
  argon2.key_length_ok IDKey ->
  Legacy.Params_in_range q ->
  Legacy.HashWithParams IDKey rand_Read password q = Ok S ->
  (1 <= Legacy.Memory q /\ 1 <= Legacy.Iterations q /\ 1 <= Legacy.Parallelism q ->
   Verify Key IDKey password S = (true, None))
  /\ (Legacy.Memory q < 1 \/ Legacy.Iterations q < 1 \/ Legacy.Parallelism q < 1 ->
      Verify Key IDKey password S = (false, Some ErrInvalidHash)
      /\ Legacy.Verify IDKey password S = (true, None)).
Proof.
  intros HID Hq H.
  pose proof (Verify_Legacy_written Key IDKey rand_Read HID password q S Hq H) as E.
  pose proof (Legacy_Verify_written IDKey rand_Read HID password q S Hq H) as L.
  split.
  - intros (H1 & H2 & H3). rewrite E.
    destruct (Z.ltb_spec (Legacy.Memory q) 1); [lia|].
    destruct (Z.ltb_spec (Legacy.Iterations q) 1); [lia|].
    destruct (Z.ltb_spec (Legacy.Parallelism q) 1); [lia|]. reflexivity.
  - intros Hlow. split; [|exact L]. rewrite E.
    replace ((Legacy.Memory q <? 1) || (Legacy.Iterations q <? 1)
             || (Legacy.Parallelism q <? 1)) with true; [reflexivity|].
    symmetry. rewrite !orb_true_iff, !Z.ltb_lt. tauto.
Qed.

Lemma Verify_Legacy_HashWithParams_witness :
  Verify exampleKey exampleIDKey "password"
    "$argon2id$v=19$m=32768,t=2,p=2$c3Nzcw$ZHBhc3N3b3I" = (true, None)
  /\ Verify exampleKey exampleIDKey "password"
       "$argon2id$v=19$m=0,t=1,p=1$c3Nzcw$ZHBhc3N3b3I"
     = (false, Some ErrInvalidHash).
Proof.
  split.
  - apply (proj1 (Verify_Legacy_HashWithParams exampleKey exampleIDKey exampleRand
                    "password" (Legacy.mkParams 32768 2 2 4 8) _
                    (exampleKDF_key_length _)
                    ltac:(vm_compute; repeat split; solve [reflexivity | discriminate])
                    eq_refl)).
    vm_compute. repeat split; discriminate.
  - apply (proj2 (Verify_Legacy_HashWithParams exampleKey exampleIDKey exampleRand
                    "password" (Legacy.mkParams 0 1 1 4 8) _
                    (exampleKDF_key_length _)
                    ltac:(vm_compute; repeat split; solve [reflexivity | discriminate])
                    eq_refl)).
    left. reflexivity.
Defined.

(** X17. On an input that this revision decodes with the mode
    [argon2id], [Verify] returns what the earlier [Verify] returns, for
    every password. *)
Theorem Verify_Legacy_argon2id (Key IDKey : argon2.KDF)
    (password s : string) (p : Params) (salt hash : list byte) :
  decodeHash s = Ok (p, salt, hash) ->
  Mode p = ModeArgon2id ->
  Verify Key IDKey password s = Legacy.Verify IDKey password s.
Proof.
  intros H Hmode.
  pose proof (decodeHash_to_Legacy s p salt hash H) as HL.
  unfold Verify, Legacy.Verify. rewrite H, HL, Hmode. reflexivity.
Qed.

Lemma Verify_Legacy_argon2id_witness :
  Verify exampleKey exampleIDKey "password"
    "$argon2id$v=19$m=32768,t=2,p=2$c3Nzcw$ZHBhc3N3b3I"
  = Legacy.Verify exampleIDKey "password"
      "$argon2id$v=19$m=32768,t=2,p=2$c3Nzcw$ZHBhc3N3b3I".
Proof.
  apply (Verify_Legacy_argon2id exampleKey exampleIDKey "password"
           "$argon2id$v=19$m=32768,t=2,p=2$c3Nzcw$ZHBhc3N3b3I"
           (mkParams 32768 2 2 4 8 "argon2id")
           (list_ascii_of_string "ssss") (list_ascii_of_string "dpasswor"));
    reflexivity.
Defined.

(** X18. A string that the earlier [Hash] returned is verified by the
    earlier [Verify] and by this revision's [Verify], for every processor
    count: the earlier default parallelism is never 0. *)
Theorem Legacy_Hash_verified (Key IDKey : argon2.KDF)
    (rand_Read : Z -> res error (list byte)) (NumCPU : Z)
    (password : string) (S : string) :
  argon2.key_length_ok IDKey ->
  Legacy.Hash IDKey rand_Read NumCPU password = Ok S ->
  Legacy.Verify IDKey password S = (true, None)
  /\ Verify Key IDKey password S = (true, None).
Proof.
  intros HID H. unfold Legacy.Hash in H.
  assert (Hpar : 1 <= Legacy.Parallelism (Legacy.DefaultParams NumCPU) <= 4).
  { cbn. unfold uint8. change (2 ^ 8) with 256.
    pose proof (Z.mod_pos_bound NumCPU 256 ltac:(lia)).
    destruct (Z.ltb_spec (NumCPU mod 256) 1).
    - destruct (Z.ltb_spec 4 1); lia.
    - destruct (Z.ltb_spec 4 (NumCPU mod 256)); lia. }
  assert (Hq : Legacy.Params_in_range (Legacy.DefaultParams NumCPU)).
  { unfold Legacy.Params_in_range.
    change (Legacy.Memory (Legacy.DefaultParams NumCPU)) with 65536.
    change (Legacy.Iterations (Legacy.DefaultParams NumCPU)) with 1.
    change (Legacy.SaltLength (Legacy.DefaultParams NumCPU)) with 16.
    change (Legacy.KeyLength (Legacy.DefaultParams NumCPU)) with 32.
    change (2 ^ 32) with 4294967296. change (2 ^ 8) with 256. lia. }
  split.
  - eapply Legacy_Verify_written; eauto.
  - rewrite (Verify_Legacy_written Key IDKey rand_Read HID password _ S Hq H).
    change (Legacy.Memory (Legacy.DefaultParams NumCPU)) with 65536.
    change (Legacy.Iterations (Legacy.DefaultParams NumCPU)) with 1.
    destruct (Z.ltb_spec (Legacy.Parallelism (Legacy.DefaultParams NumCPU)) 1);
      [lia | reflexivity].
Qed.

Lemma Legacy_Hash_verified_witness :
  Legacy.Hash exampleIDKey exampleRand 256 "password"
  = Ok "$argon2id$v=19$m=65536,t=1,p=1$c3Nzc3Nzc3Nzc3Nzc3Nzcw$ZHBhc3N3b3Jkc3Nzc3Nzc3Nzc3Nzc3NzcwAAAAAAAAA"%string
  /\ Verify exampleKey exampleIDKey "password"
       "$argon2id$v=19$m=65536,t=1,p=1$c3Nzc3Nzc3Nzc3Nzc3Nzcw$ZHBhc3N3b3Jkc3Nzc3Nzc3Nzc3Nzc3NzcwAAAAAAAAA"
     = (true, None).
Proof.
  split; [reflexivity|].
  apply (Legacy_Hash_verified exampleKey exampleIDKey exampleRand 256 "password").
  - apply exampleKDF_key_length.
  - reflexivity.
Defined.

(** X19. The earlier decoder never looks at the algorithm tag: with any
    text without ["$"] in front of the first ["$"] and any tag without
    ["$"], it returns what it returns for the tag [argon2id] (this
    revision rejects every tag but [argon2id] and [argon2i]). *)
Theorem Legacy_decodeHash_ignores_tag (prefix tag rest : string) :
  strings.Count prefix "$"%char = 0%nat ->
  strings.Count tag "$"%char = 0%nat ->
  Legacy.decodeHash (prefix ++ String "$" (tag ++ String "$" rest))
  = Legacy.decodeHash (String "$" ("argon2id" ++ String "$" rest)).
Proof.
  intros Hp Ht. unfold Legacy.decodeHash. cbv zeta.
  rewrite !Split_app_sep by assumption.
  change (String "$" ("argon2id" ++ String "$" rest))%string
    with (EmptyString ++ String "$" ("argon2id" ++ String "$" rest))%string.
  rewrite !Split_app_sep by reflexivity.
  reflexivity.
Qed.

Lemma Legacy_decodeHash_ignores_tag_witness :
  Legacy.decodeHash "x$argon2d$v=19$m=65536,t=1,p=4$dGVzdHNhbHQ$dGVzdGhhc2g"
  = Legacy.decodeHash "$argon2id$v=19$m=65536,t=1,p=4$dGVzdHNhbHQ$dGVzdGhhc2g"
  /\ is_ok (Legacy.decodeHash "x$argon2d$v=19$m=65536,t=1,p=4$dGVzdHNhbHQ$dGVzdGhhc2g") = true
  /\ decodeHash "x$argon2d$v=19$m=65536,t=1,p=4$dGVzdHNhbHQ$dGVzdGhhc2g"
     = Fail ErrUnsupportedMode.
Proof.
  split; [|split; reflexivity].
  apply (Legacy_decodeHash_ignores_tag "x" "argon2d"
           "v=19$m=65536,t=1,p=4$dGVzdHNhbHQ$dGVzdGhhc2g"); reflexivity.
Defined.
